(** * token_calc.py: the OpenAI cost calculator, embedded and verified

    The program is a chain of multiplications over Python numbers, guarded by
    one validation, with a console front end.  Python numbers are modelled as
    they are at run time: [int] is an unbounded integer ([Z]), [float] is an
    IEEE-754 binary64 value ([spec_float] with the Standard Library's
    reference operations at precision 53 and maximal exponent 1024),
    [bool] is a subtype of [int], and [fractions.Fraction] stands for the
    numbers that are neither.  Exceptions are values of an error monad. *)

From Stdlib Require Import ZArith List String Ascii Bool Lia.
From Stdlib Require Import QArith Qround Qpower Lqa.
From Stdlib Require Import Floats.SpecFloat.
Import ListNotations.

Local Open Scope Z_scope.

(** ** IEEE-754 binary64, the representation of a Python float *)

Module F64.

Definition prec : Z := 53.
Definition emax : Z := 1024.

Definition float := spec_float.

Definition zero : float := S754_zero false.
Definition nan : float := S754_nan.
Definition inf : float := S754_infinity false.

Definition mul : float -> float -> float := SFmul prec emax.
Definition div : float -> float -> float := SFdiv prec emax.
Definition ltb : float -> float -> bool := SFltb.
Definition leb : float -> float -> bool := SFleb.
Definition eqb : float -> float -> bool := SFeqb.

Definition is_nan (f : float) : bool :=
  match f with S754_nan => true | _ => false end.

Definition is_inf (f : float) : bool :=
  match f with S754_infinity _ => true | _ => false end.

Definition is_zero (f : float) : bool :=
  match f with S754_zero _ => true | _ => false end.

Definition is_finite (f : float) : bool :=
  match f with S754_zero _ | S754_finite _ _ _ => true | _ => false end.

(** The integer [z], rounded to the nearest binary64 value, ties to even. *)
Definition of_Z (z : Z) : float := binary_normalize prec emax z 0 false.

(** The quotient [a / b] of two integers ([b <> 0]), rounded once to the
    nearest binary64 value; the sign of a zero quotient is the sign rule's. *)
Definition div_Z (a b : Z) : float :=
  let s := xorb (a <? 0) (b <? 0) in
  match a with
  | Z0 => S754_zero s
  | _ =>
    let '(q, e, l) := SFdiv_core_binary prec emax (Z.abs a) 0 (Z.abs b) 0 in
    binary_round_aux prec emax s q e l
  end.

(** The decimal number [d * 10 ^ e] ([d >= 0]) with sign [s], rounded once. *)
Definition of_decimal (s : bool) (d e : Z) : float :=
  match d with
  | Z0 => S754_zero s
  | _ =>
    if 0 <=? e then binary_normalize prec emax (if s then - (d * 10 ^ e) else d * 10 ^ e) 0 false
    else
      let '(q, e', l) := SFdiv_core_binary prec emax d 0 (10 ^ (- e)) 0 in
      binary_round_aux prec emax s q e' l
  end.

(** The exact value of a finite float; zero for the others. *)
Definition to_Q (f : float) : Q :=
  match f with
  | S754_finite s m e => (inject_Z (if s then Zneg m else Zpos m) * 2 ^ e)%Q
  | _ => 0%Q
  end.

(** Exact three-way comparison of a float with a rational; [None] for NaN. *)
Definition compare_Q (f : float) (q : Q) : option comparison :=
  match f with
  | S754_nan => None
  | S754_infinity s => Some (if s then Lt else Gt)
  | _ => Some (Qcompare (to_Q f) q)
  end.

(** Exact three-way comparison of a float with an integer; [None] for NaN. *)
Definition compare_Z (f : float) (z : Z) : option comparison :=
  match f with
  | S754_nan => None
  | S754_infinity s => Some (if s then Lt else Gt)
  | S754_zero _ => Some (0 ?= z)
  | S754_finite s m e =>
    let sm := if s then Zneg m else Zpos m in
    Some (if 0 <=? e then (sm * 2 ^ e ?= z) else (sm ?= z * 2 ^ (- e)))
  end.

End F64.

(** ** Python values, exceptions and the arithmetic the program uses *)

Inductive value :=
| VNone
| VBool (b : bool)
| VInt (z : Z)
| VFloat (f : F64.float)
| VStr (s : string)
| VFraction (q : Q).

Inductive exn :=
| ValueError (msg : string)
| TypeError (msg : string)
| OverflowError (msg : string)
| ZeroDivisionError (msg : string)
| AttributeError (msg : string)
| EOFError (msg : string).

Inductive result (A : Type) :=
| Ok (a : A)
| Raise (e : exn).

Arguments Ok {A} a.
Arguments Raise {A} e.

Definition bind {A B : Type} (r : result A) (k : A -> result B) : result B :=
  match r with
  | Ok a => k a
  | Raise e => Raise e
  end.

Declare Scope py_scope.
Delimit Scope py_scope with py.
Notation "x <- c1 ;; c2" := (bind c1 (fun x => c2))
  (at level 61, c1 at next level, right associativity) : py_scope.

(** [str(e)] of an exception raised with one argument: its message. *)
Definition exn_message (e : exn) : string :=
  match e with
  | ValueError m | TypeError m | OverflowError m
  | ZeroDivisionError m | AttributeError m | EOFError m => m
  end.

Definition type_name (v : value) : string :=
  match v with
  | VNone => "NoneType"
  | VBool _ => "bool"
  | VInt _ => "int"
  | VFloat _ => "float"
  | VStr _ => "str"
  | VFraction _ => "Fraction"
  end.

(** [isinstance(v, (int, float))]: [bool] is a subclass of [int]; a
    [fractions.Fraction], a number of the standard library, is neither. *)
Definition isinstance_int_float (v : value) : bool :=
  match v with
  | VBool _ | VInt _ | VFloat _ => true
  | VNone | VStr _ | VFraction _ => false
  end.

(** The two numeric kinds that the calculator admits: an [int] (a [bool]
    counts as the integer 0 or 1) or a [float]. *)
Inductive number :=
| NInt (z : Z)
| NFloat (f : F64.float).

Definition as_number (v : value) : option number :=
  match v with
  | VBool b => Some (NInt (if b then 1 else 0))
  | VInt z => Some (NInt z)
  | VFloat f => Some (NFloat f)
  | VNone | VStr _ | VFraction _ => None
  end.

(** The operands of exact rational arithmetic: a [Fraction] or an [int]. *)
Definition as_rational (v : value) : option Q :=
  match v with
  | VBool b => Some (inject_Z (if b then 1 else 0))
  | VInt z => Some (inject_Z z)
  | VFraction q => Some q
  | VNone | VFloat _ | VStr _ => None
  end.

(** [Fraction(n, d)], in lowest terms. *)
Definition fraction (n : Z) (d : positive) : value := VFraction (Qred (n # d)).

(** Conversion of an [int] to a [float], as the mixed operations do it:
    correctly rounded, [OverflowError] beyond the range of binary64. *)
Definition int_to_float (z : Z) : result F64.float :=
  let f := F64.of_Z z in
  if F64.is_inf f then Raise (OverflowError "int too large to convert to float")
  else Ok f.

(** [float(q)] of a [Fraction]: the true division of its numerator by its
    denominator. *)
Definition fraction_to_float (q : Q) : result F64.float :=
  let f := F64.div_Z (Qnum q) (Zpos (Qden q)) in
  if F64.is_inf f
  then Raise (OverflowError "integer division result too large for a float")
  else Ok f.

Definition to_float (n : number) : result F64.float :=
  match n with
  | NInt z => int_to_float z
  | NFloat f => Ok f
  end.

Fixpoint repeat_string (n : nat) (s : string) : string :=
  match n with
  | O => EmptyString
  | S n' => append s (repeat_string n' s)
  end.

Definition value_of_number (n : number) : value :=
  match n with
  | NInt z => VInt z
  | NFloat f => VFloat f
  end.

(** The product of two numbers: exact on two [int]s, otherwise the binary64
    product of the two operands as floats. *)
Definition number_mul (x y : number) : result number :=
  match x, y with
  | NInt a, NInt b => Ok (NInt (a * b))
  | _, _ => (fx <- to_float x ;; fy <- to_float y ;; Ok (NFloat (F64.mul fx fy)))%py
  end.

(** The quotient of two numbers, always a float: correctly rounded on two
    [int]s, otherwise the binary64 quotient of the two operands as floats. *)
Definition number_truediv (x y : number) : result number :=
  match x, y with
  | NInt a, NInt b =>
    if b =? 0 then Raise (ZeroDivisionError "division by zero")
    else
      let f := F64.div_Z a b in
      if F64.is_inf f
      then Raise (OverflowError "integer division result too large for a float")
      else Ok (NFloat f)
  | _, _ =>
    (fx <- to_float x ;; fy <- to_float y ;;
     if F64.is_zero fy then Raise (ZeroDivisionError "float division by zero")
     else Ok (NFloat (F64.div fx fy)))%py
  end.

(** [a * b].  Two numbers of the admitted kinds are multiplied by
    [number_mul]; a [Fraction] with a [Fraction] or an [int] gives the exact
    [Fraction], with a float the product of the floats; a [str] is repeated
    by an [int]; anything else is a [TypeError]. *)
Definition py_mul (a b : value) : result value :=
  match as_number a, as_number b with
  | Some x, Some y => (n <- number_mul x y ;; Ok (value_of_number n))%py
  | _, _ =>
    match a, b, as_rational a, as_rational b with
    | _, _, Some qa, Some qb => Ok (VFraction (Qred (qa * qb)))
    | VFraction qa, VFloat g, _, _ =>
      (fa <- fraction_to_float qa ;; Ok (VFloat (F64.mul fa g)))%py
    | VFloat f, VFraction qb, _, _ =>
      (fb <- fraction_to_float qb ;; Ok (VFloat (F64.mul f fb)))%py
    | _, _, _, _ =>
      match a, b, as_number a, as_number b with
      | VStr s, _, _, Some (NInt n) | _, VStr s, Some (NInt n), _ =>
        Ok (VStr (repeat_string (Z.to_nat n) s))
      | VStr _, other, _, _ | other, VStr _, _, _ =>
        Raise (TypeError (append "can't multiply sequence by non-int of type '"
                            (append (type_name other) "'")))
      | _, _, _, _ =>
        Raise (TypeError (append "unsupported operand type(s) for *: '"
                            (append (type_name a) (append "' and '" (append (type_name b) "'")))))
      end
    end
  end.

(** [a / b], true division; on [Fraction]s as for [*] (the message of the
    division of a [Fraction] by zero is that of CPython 3.12). *)
Definition py_truediv (a b : value) : result value :=
  match as_number a, as_number b with
  | Some x, Some y => (n <- number_truediv x y ;; Ok (value_of_number n))%py
  | _, _ =>
    match a, b, as_rational a, as_rational b with
    | _, _, Some qa, Some qb =>
      if Qeq_bool qb 0 then Raise (ZeroDivisionError "Fraction(1, 0)")
      else Ok (VFraction (Qred (qa / qb)))
    | VFraction qa, VFloat g, _, _ =>
      (fa <- fraction_to_float qa ;;
       if F64.is_zero g then Raise (ZeroDivisionError "float division by zero")
       else Ok (VFloat (F64.div fa g)))%py
    | VFloat f, VFraction qb, _, _ =>
      (fb <- fraction_to_float qb ;;
       if F64.is_zero fb then Raise (ZeroDivisionError "float division by zero")
       else Ok (VFloat (F64.div f fb)))%py
    | _, _, _, _ =>
      Raise (TypeError (append "unsupported operand type(s) for /: '"
                          (append (type_name a) (append "' and '" (append (type_name b) "'")))))
    end
  end.

(** Three-way comparison of two numbers, exact also between an [int] and a
    [float]; [None] when one side is NaN. *)
Definition number_compare (x y : number) : option comparison :=
  match x, y with
  | NInt a, NInt b => Some (a ?= b)
  | NFloat f, NFloat g => SFcompare f g
  | NFloat f, NInt b => F64.compare_Z f b
  | NInt a, NFloat g => option_map CompOpp (F64.compare_Z g a)
  end.

(** [a > b]: exact between numbers of any two kinds, false when one side is
    NaN; lexicographic between two [str]s; a [TypeError] otherwise. *)
Definition py_gt (a b : value) : result bool :=
  match as_number a, as_number b with
  | Some x, Some y =>
    Ok (match number_compare x y with Some Gt => true | _ => false end)
  | _, _ =>
    match a, b, as_rational a, as_rational b with
    | _, _, Some qa, Some qb => Ok (match Qcompare qa qb with Gt => true | _ => false end)
    | VFraction qa, VFloat g, _, _ =>
      Ok (match F64.compare_Q g qa with Some Lt => true | _ => false end)
    | VFloat f, VFraction qb, _, _ =>
      Ok (match F64.compare_Q f qb with Some Gt => true | _ => false end)
    | VStr s, VStr t, _, _ =>
      Ok (match String.compare s t with Gt => true | _ => false end)
    | _, _, _, _ =>
      Raise (TypeError (append "'>' not supported between instances of '"
                          (append (type_name a) (append "' and '" (append (type_name b) "'")))))
    end
  end.

(** Truth value of a string: non-empty. *)
Definition str_truthy (s : string) : bool :=
  match s with EmptyString => false | String _ _ => true end.

(** ** [float(text)] and [repr(text)], the two built-ins the console uses

    Text is ASCII.  [float] strips white space, reads an optional sign and
    then [inf], [infinity], [nan] (in any case) or a decimal number with an
    optional fraction and exponent; an underscore may separate two digits.
    The value is the decimal number rounded once to binary64. *)

Module Text.

Definition is_space (c : ascii) : bool :=
  let n := N_of_ascii c in
  ((9 <=? n) && (n <=? 13) || (28 <=? n) && (n <=? 32))%N.

Definition is_digit (c : ascii) : bool :=
  let n := N_of_ascii c in ((48 <=? n) && (n <=? 57))%N.

Definition digit_value (c : ascii) : Z := Z.of_N (N_of_ascii c) - 48.

Definition lower (c : ascii) : ascii :=
  let n := N_of_ascii c in
  if ((65 <=? n) && (n <=? 90))%N then ascii_of_N (n + 32) else c.

Fixpoint lstrip (s : list ascii) : list ascii :=
  match s with
  | c :: s' => if is_space c then lstrip s' else s
  | [] => []
  end.

Definition strip (s : list ascii) : list ascii :=
  rev (lstrip (rev (lstrip s))).

(** An underscore is allowed only between two digits. *)
Fixpoint underscores_ok (prev : ascii) (s : list ascii) : bool :=
  match s with
  | [] => negb (Ascii.eqb prev "_")
  | c :: s' =>
    (if Ascii.eqb c "_" then is_digit prev
     else negb (Ascii.eqb prev "_") || is_digit c)
    && underscores_ok c s'
  end.

Definition drop_underscores (s : list ascii) : list ascii :=
  filter (fun c => negb (Ascii.eqb c "_")) s.

(** Reads the longest prefix of digits: its value, its length, the rest. *)
Fixpoint digits (acc : Z) (n : Z) (s : list ascii) : Z * Z * list ascii :=
  match s with
  | c :: s' => if is_digit c then digits (10 * acc + digit_value c) (n + 1) s'
               else (acc, n, s)
  | [] => (acc, n, s)
  end.

Definition sign (s : list ascii) : bool * list ascii :=
  match s with
  | "-"%char :: s' => (true, s')
  | "+"%char :: s' => (false, s')
  | _ => (false, s)
  end.

Definition exponent (s : list ascii) : option Z :=
  match s with
  | [] => Some 0
  | c :: s' =>
    if Ascii.eqb (lower c) "e" then
      let '(neg, s'') := sign s' in
      match digits 0 0 s'' with
      | (x, n, []) => if 0 <? n then Some (if neg then - x else x) else None
      | _ => None
      end
    else None
  end.

Definition decimal (neg : bool) (s : list ascii) : option F64.float :=
  let '(i, ni, s1) := digits 0 0 s in
  let '(d, nd, s2) :=
    match s1 with
    | "."%char :: s1' => let '(f, nf, s2) := digits i 0 s1' in (f, nf, s2)
    | _ => (i, 0, s1)
    end in
  if 0 <? ni + nd then
    match exponent s2 with
    | Some x => Some (F64.of_decimal neg d (x - nd))
    | None => None
    end
  else None.

Definition float_of_string (s : string) : option F64.float :=
  let t := strip (list_ascii_of_string s) in
  let '(neg, u) := sign t in
  let w := string_of_list_ascii (map lower u) in
  if String.eqb w "inf" || String.eqb w "infinity" then Some (S754_infinity neg)
  else if String.eqb w "nan" then Some S754_nan
  else if underscores_ok " " u then decimal neg (drop_underscores u)
  else None.

Definition hex_digit (n : N) : ascii :=
  ascii_of_N (if (n <? 10)%N then 48 + n else 87 + n).

Definition escape (quote : ascii) (c : ascii) : list ascii :=
  let n := N_of_ascii c in
  if Ascii.eqb c quote || Ascii.eqb c "\" then ["\"%char; c]
  else if (n =? 9)%N then ["\"%char; "t"%char]
  else if (n =? 10)%N then ["\"%char; "n"%char]
  else if (n =? 13)%N then ["\"%char; "r"%char]
  else if ((n <? 32) || (n =? 127))%N
       then ["\"%char; "x"%char; hex_digit (n / 16); hex_digit (n mod 16)]
  else [c].

Definition dquote : ascii := ascii_of_N 34.

(** [repr] of a string: single quotes, unless the text holds a single quote
    and no double quote. *)
Definition repr (s : string) : string :=
  let l := list_ascii_of_string s in
  let has c := existsb (Ascii.eqb c) l in
  let q := if has "'"%char && negb (has dquote) then dquote else "'"%char in
  string_of_list_ascii (q :: flat_map (escape q) l ++ [q]).

End Text.

(** [float(v)] *)
Definition py_float (v : value) : result value :=
  match v with
  | VFloat f => Ok (VFloat f)
  | VInt z => (f <- int_to_float z ;; Ok (VFloat f))%py
  | VBool b => Ok (VFloat (F64.of_Z (if b then 1 else 0)))
  | VStr s =>
    match Text.float_of_string s with
    | Some f => Ok (VFloat f)
    | None => Raise (ValueError (append "could not convert string to float: " (Text.repr s)))
    end
  | VFraction q => (f <- fraction_to_float q ;; Ok (VFloat f))%py
  | VNone =>
    Raise (TypeError "float() argument must be a string or a real number, not 'NoneType'")
  end.

(** A float literal of the source text denotes what [float] reads from it. *)
Definition float_literal (s : string) : F64.float :=
  match Text.float_of_string s with
  | Some f => f
  | None => S754_nan
  end.

(** ** class OpenAICostCalculator

    An instance is its attribute dictionary: each of the four attributes is
    absent until [__init__] assigns it.  [__init__] is state passing over the
    instance, so that what it leaves behind when it raises is visible. *)

Record instance := {
  prompts_per_shift : option value;
  multiplier : option value;
  avg_tokens_per_call : option value;
  token_cost_per_thousand : option value
}.

Definition empty_instance : instance :=
  {| prompts_per_shift := None; multiplier := None;
     avg_tokens_per_call := None; token_cost_per_thousand := None |}.

(** [self.name] *)
Definition getattr (field : option value) (name : string) : result value :=
  match field with
  | Some v => Ok v
  | None =>
    Raise (AttributeError (append "'OpenAICostCalculator' object has no attribute '"
                             (append name "'")))
  end.

(** [isinstance(arg, (int, float)) and arg > 0]: the comparison is evaluated
    only when the type test holds. *)
Definition is_positive_number (arg : value) : result bool :=
  if isinstance_int_float arg then py_gt arg (VInt 0) else Ok false.

(** [all(... for arg in args)], stopping at the first false element. *)
Fixpoint all_positive_numbers (args : list value) : result bool :=
  match args with
  | [] => Ok true
  | arg :: rest =>
    (b <- is_positive_number arg ;;
     if b then all_positive_numbers rest else Ok false)%py
  end.

Definition validate_inputs (p m t c : value) : result unit :=
  (ok <- all_positive_numbers [p; m; t; c] ;;
   if negb ok then Raise (ValueError "All parameters should be positive numbers.")
   else Ok tt)%py.

Definition __init__ (self : instance) (p m t c : value) : instance * result unit :=
  match validate_inputs p m t c with
  | Raise e => (self, Raise e)
  | Ok _ =>
    let self := {| prompts_per_shift := Some p;
                   multiplier := multiplier self;
                   avg_tokens_per_call := avg_tokens_per_call self;
                   token_cost_per_thousand := token_cost_per_thousand self |} in
    let self := {| prompts_per_shift := prompts_per_shift self;
                   multiplier := Some m;
                   avg_tokens_per_call := avg_tokens_per_call self;
                   token_cost_per_thousand := token_cost_per_thousand self |} in
    let self := {| prompts_per_shift := prompts_per_shift self;
                   multiplier := multiplier self;
                   avg_tokens_per_call := Some t;
                   token_cost_per_thousand := token_cost_per_thousand self |} in
    let self := {| prompts_per_shift := prompts_per_shift self;
                   multiplier := multiplier self;
                   avg_tokens_per_call := avg_tokens_per_call self;
                   token_cost_per_thousand := Some c |} in
    (self, Ok tt)
  end.

(** The call [OpenAICostCalculator(p, m, t, c)]: a fresh instance, then
    [__init__] on it; the instance is returned only if [__init__] returns. *)
Definition OpenAICostCalculator (p m t c : value) : result instance :=
  let '(self, r) := __init__ empty_instance p m t c in
  (_ <- r ;; Ok self)%py.

Definition calculate_tokens_per_shift (self : instance) : result value :=
  (p <- getattr (prompts_per_shift self) "prompts_per_shift" ;;
   m <- getattr (multiplier self) "multiplier" ;;
   pm <- py_mul p m ;;
   t <- getattr (avg_tokens_per_call self) "avg_tokens_per_call" ;;
   py_mul pm t)%py.

Definition calculate_cost_per_shift (self : instance) : result value :=
  (tokens_per_shift <- calculate_tokens_per_shift self ;;
   q <- py_truediv tokens_per_shift (VInt 1000) ;;
   c <- getattr (token_cost_per_thousand self) "token_cost_per_thousand" ;;
   py_mul q c)%py.

Definition calculate_cost_per_hospital_per_shift (self : instance)
    (doctors_per_shift : value) : result value :=
  (c <- calculate_cost_per_shift self ;; py_mul c doctors_per_shift)%py.

Definition calculate_daily_costs (self : instance)
    (shifts_per_day doctors_per_shift : value) : result value :=
  (h <- calculate_cost_per_hospital_per_shift self doctors_per_shift ;;
   py_mul h shifts_per_day)%py.

Definition days_per_month : value := VInt 30.
Definition months_per_year : value := VInt 12.

Definition calculate_monthly_costs (self : instance) (daily_costs : value) : result value :=
  py_mul daily_costs days_per_month.

Definition calculate_annual_costs (self : instance) (monthly_costs : value) : result value :=
  py_mul monthly_costs months_per_year.

(** ** The console: [get_input], the report and [main]

    The world is the lines still to be read from standard input and what has
    been written to standard output.  The two rendered texts, the scenario
    paragraph and the cost table, are kept as the values they interpolate. *)

Inductive text :=
| Str (s : string)
| Scenario (prompts_per_shift multiplier avg_tokens_per_call
            token_cost_per_thousand doctors_per_shift shifts_per_day : value)
| CostTable (cost_per_shift cost_per_hospital_per_shift
             daily_costs monthly_costs annual_costs : value).

Inductive output :=
| Prompted (prompt : string) (default_value : value)
| Printed (t : text).

Record world := { stdin : list string; stdout : list output }.

Definition io (A : Type) : Type := world -> result A * world.

Definition io_ret {A : Type} (a : A) : io A := fun w => (Ok a, w).

Definition io_bind {A B : Type} (c : io A) (k : A -> io B) : io B :=
  fun w =>
    match c w with
    | (Ok a, w') => k a w'
    | (Raise e, w') => (Raise e, w')
    end.

Definition lift {A : Type} (r : result A) : io A := fun w => (r, w).

Declare Scope io_scope.
Delimit Scope io_scope with io.
Notation "x <- c1 ;; c2" := (io_bind c1 (fun x => c2))
  (at level 61, c1 at next level, right associativity) : io_scope.
Notation "c1 ;;; c2" := (io_bind c1 (fun _ => c2))
  (at level 61, right associativity) : io_scope.

Definition write (o : output) : io unit :=
  fun w => (Ok tt, {| stdin := stdin w; stdout := stdout w ++ [o] |}).

Definition print (t : text) : io unit := write (Printed t).

(** [input(f"{prompt} [{default_value}]: ")]: writes the prompt, then reads
    one line; [EOFError] at the end of the input. *)
Definition input (prompt : string) (default_value : value) : io string :=
  (write (Prompted prompt default_value) ;;;
   fun w =>
     match stdin w with
     | line :: rest => (Ok line, {| stdin := rest; stdout := stdout w |})
     | [] => (Raise (EOFError "EOF when reading a line"), w)
     end)%io.

Definition get_input (prompt : string) (default_value : value) : io value :=
  (user_input <- input prompt default_value ;;
   io_ret (if str_truthy user_input then VStr user_input else default_value))%io.

Definition display_results (cost_per_shift cost_per_hospital_per_shift
    daily_costs monthly_costs annual_costs : value) : io unit :=
  print (CostTable cost_per_shift cost_per_hospital_per_shift
           daily_costs monthly_costs annual_costs).

Definition describe_scenario (prompts_per_shift multiplier avg_tokens_per_call
    token_cost_per_thousand doctors_per_shift shifts_per_day : value) : text :=
  Scenario prompts_per_shift multiplier avg_tokens_per_call
    token_cost_per_thousand doctors_per_shift shifts_per_day.

(** [json.dumps({}, indent=4)] is the text of an empty object. *)
Definition print_pricing : io unit := print (Str "{}").

Definition newline : string := String (ascii_of_N 10) EmptyString.

Definition default_prompts_per_shift : value := VInt 50.
Definition default_multiplier : value := VInt 5.
Definition default_avg_tokens_per_call : value := VInt 2000.
Definition default_token_cost_per_thousand : value := VFloat (float_literal "0.06").
Definition default_doctors_per_shift : value := VInt 10.
Definition default_shifts_per_day : value := VInt 3.

(** The body of the [try] block of [main]. *)
Definition main_try : io unit :=
  (prompts_per_shift <-
     (v <- get_input "Enter the number of prompts sent per doctor's shift"
             default_prompts_per_shift ;; lift (py_float v)) ;;
   multiplier <-
     (v <- get_input "Enter the chain/interaction/augmentation multiplier"
             default_multiplier ;; lift (py_float v)) ;;
   avg_tokens_per_call <-
     (v <- get_input "Enter the average tokens used per API call"
             default_avg_tokens_per_call ;; lift (py_float v)) ;;
   print_pricing ;;;
   token_cost_per_thousand <-
     (v <- get_input "Enter the OpenAI price per 1000 tokens (GPT-4=$0.06) (in $)"
             default_token_cost_per_thousand ;; lift (py_float v)) ;;
   doctors_per_shift <-
     (v <- get_input "Enter the number of doctors on shift per hospital"
             default_doctors_per_shift ;; lift (py_float v)) ;;
   shifts_per_day <-
     (v <- get_input "Enter the number of shifts per day"
             default_shifts_per_day ;; lift (py_float v)) ;;
   calculator <- lift (OpenAICostCalculator prompts_per_shift multiplier
                         avg_tokens_per_call token_cost_per_thousand) ;;
   cost_per_shift <- lift (calculate_cost_per_shift calculator) ;;
   cost_per_hospital_per_shift <-
     lift (calculate_cost_per_hospital_per_shift calculator doctors_per_shift) ;;
   daily_costs <- lift (calculate_daily_costs calculator shifts_per_day doctors_per_shift) ;;
   monthly_costs <- lift (calculate_monthly_costs calculator daily_costs) ;;
   annual_costs <- lift (calculate_annual_costs calculator monthly_costs) ;;
   let description :=
     describe_scenario prompts_per_shift multiplier avg_tokens_per_call
       token_cost_per_thousand doctors_per_shift shifts_per_day in
   print (Str (append newline "Scenario Description:")) ;;;
   print description ;;;
   display_results cost_per_shift cost_per_hospital_per_shift
     daily_costs monthly_costs annual_costs)%io.

(** [main]: the [try] block with its two handlers. *)
Definition main : io unit :=
  fun w =>
    match main_try w with
    | (Ok u, w') => (Ok u, w')
    | (Raise (ValueError msg), w') =>
      print (Str (append "Invalid input: " msg)) w'
    | (Raise e, w') =>
      print (Str (append "An unexpected error occurred: " (exn_message e))) w'
    end.

(** What a run of the program writes, given the lines the operator types. *)
Definition run (lines : list string) : list output :=
  stdout (snd (main {| stdin := lines; stdout := [] |})).

(** A run produced a report when the cost table was printed. *)
Definition is_report (o : output) : bool :=
  match o with
  | Printed (CostTable _ _ _ _ _) => true
  | _ => false
  end.

Definition report_produced (out : list output) : bool := existsb is_report out.

(** ** The vocabulary of the statements *)

(** A positive float: [+inf] or a finite float of positive sign.  Zeros,
    negative floats and NaN are not. *)
Definition positive_float (f : F64.float) : bool :=
  match f with
  | S754_infinity false | S754_finite false _ _ => true
  | _ => false
  end.

(** What the validation admits, told by cases: an [int] above zero (the
    [bool] [True] is the [int] 1) or a positive float. *)
Definition positive_int_or_float (v : value) : bool :=
  match v with
  | VInt z => 0 <? z
  | VBool b => b
  | VFloat f => positive_float f
  | VNone | VStr _ | VFraction _ => false
  end.

(** The words of the specification: an argument is not a positive number when
    it is of a non-numeric type or its value is at most zero. *)
Definition spec_non_numeric (v : value) : bool :=
  match v with
  | VNone | VStr _ => true
  | _ => false
  end.

Definition spec_le_zero (v : value) : bool :=
  match v with
  | VInt z => z <=? 0
  | VBool b => negb b
  | VFloat f => SFleb f F64.zero
  | VFraction q => Qle_bool q 0
  | VNone | VStr _ => false
  end.

Definition spec_positive_number (v : value) : bool :=
  negb (spec_non_numeric v) && negb (spec_le_zero v).

Definition value_is_nan (v : value) : bool :=
  match v with
  | VFloat f => F64.is_nan f
  | _ => false
  end.

Definition is_fraction (v : value) : bool :=
  match v with
  | VFraction _ => true
  | _ => false
  end.

Definition validation_message : string := "All parameters should be positive numbers.".

Definition built (p m t c : value) : instance :=
  {| prompts_per_shift := Some p; multiplier := Some m;
     avg_tokens_per_call := Some t; token_cost_per_thousand := Some c |}.

(** A line the operator types is accepted when it is empty (the default is
    taken) or [float] reads it; it is malformed when it is not empty and
    [float] rejects it. *)
Definition accepted_line (s : string) : bool :=
  negb (str_truthy s) ||
  match Text.float_of_string s with Some _ => true | None => false end.

Definition malformed_line (s : string) : bool :=
  str_truthy s &&
  match Text.float_of_string s with Some _ => false | None => true end.


(** The last thing a run wrote. *)
Definition last_output (out : list output) : option output :=
  last (map Some out) None.


(** The cost per shift on four floats, as the two methods compute it: the
    divisor 1000 is converted to a float first. *)
Definition tokens_of_floats (p m t : F64.float) : F64.float :=
  F64.mul (F64.mul p m) t.

Definition cost_of_floats (p m t c : F64.float) : F64.float :=
  F64.mul (F64.div (tokens_of_floats p m t) (F64.of_Z 1000)) c.

(** An [int] that a mixed operation can convert to a float. *)
Definition fits_float (z : Z) : bool := negb (F64.is_inf (F64.of_Z z)).



(** [AnnualCost(MonthlyCost(x))], the two calls in sequence. *)
Definition annual_of_daily (self : instance) (x : value) : result value :=
  (monthly_costs <- calculate_monthly_costs self x ;;
   calculate_annual_costs self monthly_costs)%py.

(** What [main] makes of one line typed at a prompt: [float] of the text, or
    of the default when the line is empty. *)
Definition line_value (line : string) (default_value : value) : result value :=
  py_float (if str_truthy line then VStr line else default_value).

Definition parse_error_message (s : string) : string :=
  append "could not convert string to float: " (Text.repr s).

(** ** Rounding to nearest, ties to even, as a function of the exact value

    What the reference operations compute, told on rationals: the exact result
    [x] of an operation is scaled to the exponent [fexp k] of its binade [k],
    rounded to the nearest integer, and the integer and the exponent are made
    a float.  This is the yardstick of the monotonicity proof. *)

Module Round.

Local Open Scope Q_scope.

Definition pow2 (e : Z) : Q := 2 ^ e.

(** The number [m * 2^e]. *)
Definition F2Q (m e : Z) : Q := inject_Z m * pow2 e.

(** The nearest integer, the even one of two that are equally near. *)
Definition rne (x : Q) : Z :=
  let f := Qfloor x in
  match Qcompare (x - inject_Z f) (1 # 2) with
  | Lt => f
  | Eq => if Z.even f then f else (f + 1)%Z
  | Gt => (f + 1)%Z
  end.

Definition cmp_spec (c : comparison) (a b : Q) : Prop :=
  match c with
  | Lt => a < b
  | Eq => a == b
  | Gt => b < a
  end.

(** [x] lies in [[m * 2^e, (m + 1) * 2^e)], where the location says: on the
    left end, or inside and below, at or above the middle. *)
Definition located (x : Q) (m e : Z) (l : location) : Prop :=
  match l with
  | loc_Exact => x == F2Q m e
  | loc_Inexact c =>
    F2Q m e < x /\ x < F2Q (m + 1) e /\ cmp_spec c (2 * x) (F2Q (2 * m + 1) e)
  end.

(** The second half of [binary_round_aux]: the rounded integer [n] at
    exponent [e] is renormalised (one more shift when the rounding carried
    into a new bit) and classified as zero, finite or overflown. *)
Definition finish (n e : Z) : spec_float :=
  let '(mrs, e') := shr_fexp F64.prec F64.emax n e loc_Exact in
  match shr_m mrs with
  | Z0 => S754_zero false
  | Zpos m => if (e' <=? F64.emax - F64.prec)%Z then S754_finite false m e'
              else S754_infinity false
  | Zneg _ => S754_nan
  end.

(** Rounding of [x], known to lie in the binade [k]. *)
Definition round_at (k : Z) (x : Q) : spec_float :=
  let e := fexp F64.prec F64.emax k in
  finish (rne (x / pow2 e)) e.

(** [x] is below [2^k] and, unless [k] is in the subnormal range, at least
    [2^(k-1)]. *)
Definition binade (x : Q) (k : Z) : Prop :=
  x < pow2 k /\ (pow2 (k - 1) <= x \/ (k <= emin F64.prec F64.emax)%Z).

(** A float as the program's positive numbers are: a valid representation,
    finite and positive or [+inf]. *)
Definition positive_valid (f : F64.float) : bool :=
  positive_float f && valid_binary F64.prec F64.emax f.

Local Abbreviation prec := F64.prec.
Local Abbreviation emax := F64.emax.
Local Abbreviation emin := (SpecFloat.emin F64.prec F64.emax).
Local Abbreviation fexp := (SpecFloat.fexp F64.prec F64.emax).

(** A shift record that locates [x] at exponent [e]. *)
Definition located_record (x : Q) (e : Z) (mrs : shr_record) : Prop :=
  (0 <= shr_m mrs)%Z /\ located x (shr_m mrs) e (loc_of_shr_record mrs).

(** A mantissa and an exponent as a finite positive float has them. *)
Definition canon (n e : Z) : Prop :=
  (0 < n < 2 ^ prec)%Z /\ (emin <= e)%Z /\ ((emin < e)%Z -> (2 ^ (prec - 1) <= n)%Z).

(** The float of a canonical pair. *)
Definition float_of_pair (n e : Z) : F64.float :=
  match n with
  | Zpos m => if (e <=? emax - prec)%Z then S754_finite false m e else S754_infinity false
  | _ => S754_nan
  end.

(** The number that the rounding of [x] in the binade [k] stands for. *)
Definition rounded_value (k : Z) (x : Q) : Q :=
  F2Q (rne (x / pow2 (fexp k))) (fexp k).

End Round.

(** A float that the chain can meet on positive inputs: [+0.0] (after an
    underflow), a valid positive finite float, or [+inf]. *)
Definition nonneg_valid (f : F64.float) : bool :=
  match f with
  | S754_zero false | S754_infinity false => true
  | S754_finite false _ _ => valid_binary F64.prec F64.emax f
  | _ => false
  end.

(** ** The order of the monotonicity statement *)

(** [x <= y] between two [int]s or between two floats (false when one of the
    floats is NaN, and between an [int] and a float). *)
Definition number_le (x y : number) : bool :=
  match x, y with
  | NInt a, NInt b => a <=? b
  | NFloat f, NFloat g => SFleb f g
  | _, _ => false
  end.

Definition value_le (a b : value) : bool :=
  match as_number a, as_number b with
  | Some x, Some y => number_le x y
  | _, _ => false
  end.

(** A float value is well formed when its representation is valid; the other
    values always are. *)
Definition well_formed (v : value) : bool :=
  match v with
  | VFloat f => valid_binary F64.prec F64.emax f
  | _ => true
  end.

Definition number_is_nan (x : number) : bool :=
  match x with
  | NFloat f => F64.is_nan f
  | NInt _ => false
  end.

(** A number that the chain can meet on positive inputs: a non-negative
    [int], or a float that is [+0.0], valid positive finite or [+inf]. *)
Definition chain_number (x : number) : bool :=
  match x with
  | NInt z => 0 <=? z
  | NFloat f => nonneg_valid f
  end.

Definition chain_or_nan (x : number) : bool := number_is_nan x || chain_number x.

(** Two results of the chain, the second not below the first: each is NaN
    or a number of the chain, and unless one is NaN they are in order. *)
Definition related (x x' : number) : Prop :=
  chain_or_nan x = true /\ chain_or_nan x' = true /\
  (number_is_nan x = true \/ number_is_nan x' = true \/ number_le x x' = true).

(** The arithmetic of [calculate_cost_per_shift] on the four numbers. *)
Definition number_cost (p m t c : number) : result number :=
  (pm <- number_mul p m ;;
   tokens <- number_mul pm t ;;
   q <- number_truediv tokens (NInt 1000) ;;
   number_mul q c)%py.

(** An [int], or a float other than an infinity or NaN. *)
Definition finite_value (v : value) : bool :=
  match v with
  | VFloat f => F64.is_finite f
  | _ => true
  end.

(** A positive finite number of the chain. *)
Definition finite_positive (x : number) : bool :=
  match x with
  | NInt z => 0 <? z
  | NFloat f => Round.positive_valid f && F64.is_finite f
  end.

Definition is_float (v : value) : bool :=
  match v with
  | VFloat _ => true
  | _ => false
  end.

(** The line that the handlers of [main] print for an exception. *)
Definition handler_line (e : exn) : string :=
  match e with
  | ValueError msg => append "Invalid input: " msg
  | _ => append "An unexpected error occurred: " (exn_message e)
  end.

(** ** The vocabulary of the further properties *)

Definition is_overflow (e : exn) : bool :=
  match e with OverflowError _ => true | _ => false end.

(** An [int]; a [bool] is one. *)
Definition is_int (v : value) : bool :=
  match v with VInt _ | VBool _ => true | _ => false end.

(** The float 1.0. *)
Definition one : F64.float := F64.of_Z 1.

(** What [main] has written before it reads the six lines one after the
    other: the six prompts, the pricing before the fourth. *)
Definition console_prefix : list output :=
  [ Prompted "Enter the number of prompts sent per doctor's shift" default_prompts_per_shift;
    Prompted "Enter the chain/interaction/augmentation multiplier" default_multiplier;
    Prompted "Enter the average tokens used per API call" default_avg_tokens_per_call;
    Printed (Str "{}");
    Prompted "Enter the OpenAI price per 1000 tokens (GPT-4=$0.06) (in $)"
      default_token_cost_per_thousand;
    Prompted "Enter the number of doctors on shift per hospital" default_doctors_per_shift;
    Prompted "Enter the number of shifts per day" default_shifts_per_day ].

(** What has been written when the prompt for line number [i] (from 0) has
    been asked. *)
Definition asked (i : nat) : list output :=
  firstn (if (i <? 3)%nat then i + 1 else i + 2)%nat console_prefix.

(** The defaults of the six prompts, in order. *)
Definition defaults : list value :=
  [ default_prompts_per_shift; default_multiplier; default_avg_tokens_per_call;
    default_token_cost_per_thousand; default_doctors_per_shift; default_shifts_per_day ].

(** The three texts of a report on six floats: the header, the scenario and
    the table of the five costs, each cost the product of the one before. *)
Definition report_of (p m t c d s : F64.float) : list output :=
  let cost_per_shift := cost_of_floats p m t c in
  let cost_per_hospital_per_shift := F64.mul cost_per_shift d in
  let daily_costs := F64.mul cost_per_hospital_per_shift s in
  let monthly_costs := F64.mul daily_costs (F64.of_Z 30) in
  let annual_costs := F64.mul monthly_costs (F64.of_Z 12) in
  [ Printed (Str (append newline "Scenario Description:"));
    Printed (Scenario (VFloat p) (VFloat m) (VFloat t) (VFloat c) (VFloat d) (VFloat s));
    Printed (CostTable (VFloat cost_per_shift) (VFloat cost_per_hospital_per_shift)
               (VFloat daily_costs) (VFloat monthly_costs) (VFloat annual_costs)) ].

(** The lines that a run leaves unread. *)
Definition unread (lines : list string) : list string :=
  stdin (snd (main {| stdin := lines; stdout := [] |})).

Definition is_prompt (o : output) : bool :=
  match o with Prompted _ _ => true | _ => false end.

Definition prompts_written (out : list output) : nat :=
  List.length (filter is_prompt out).




(** ** The text of an amount: [format(v, spec)] with the spec [[>width][,].2f]

    The three format specifications of the program are of this form:
    [,.2f] and [>N,.2f] in [display_results], [.2f] in [describe_scenario].
    The number is rounded to two decimals, to nearest on its exact value and
    to the even neighbour on a tie; with the comma the digits before the
    point are grouped by three; the text is then padded with spaces on the
    left to the width. *)

Module Format.

Definition digit_char (d : Z) : ascii := ascii_of_N (48 + Z.to_N d).

Fixpoint digits_of (fuel : nat) (n : Z) (acc : list ascii) : list ascii :=
  match fuel with
  | O => acc
  | S fuel' =>
    let acc' := digit_char (n mod 10) :: acc in
    if n <? 10 then acc' else digits_of fuel' (n / 10) acc'
  end.

(** The decimal digits of [n >= 0], the most significant first. *)
Definition decimal_digits (n : Z) : list ascii :=
  digits_of (S (Z.to_nat (Z.log2 n))) n [].

(** From the least significant digit on, a comma after every three digits
    that are followed by another. *)
Fixpoint commas (count : nat) (l : list ascii) : list ascii :=
  match l with
  | [] => []
  | d :: l' =>
    if (count =? 3)%nat then ","%char :: d :: commas 1 l'
    else d :: commas (S count) l'
  end.

Definition group (digits : list ascii) : list ascii := rev (commas 0 (rev digits)).

(** [x >= 0] with two decimals, after the sign. *)
Definition fixed2 (comma neg : bool) (x : Q) : list ascii :=
  let n := Round.rne (x * 100) in
  let whole := decimal_digits (n / 100) in
  (if neg then ["-"%char] else []) ++
  (if comma then group whole else whole) ++
  ["."%char; digit_char (n / 10 mod 10); digit_char (n mod 10)].

Definition float_fixed2 (comma : bool) (f : F64.float) : list ascii :=
  match f with
  | S754_nan => list_ascii_of_string "nan"
  | S754_infinity s => list_ascii_of_string (if s then "-inf" else "inf")
  | S754_zero s => fixed2 comma s 0
  | S754_finite s m e => fixed2 comma s (Round.F2Q (Zpos m) e)
  end.

(** A [Fraction] is rounded on its exact value; its sign is that of the
    number, also when it rounds to zero (a [Fraction] has the format code
    [f] since CPython 3.12). *)
Definition fraction_fixed2 (comma : bool) (q : Q) : list ascii :=
  fixed2 comma (Qnum q <? 0) (Z.abs (Qnum q) # Qden q).

Definition pad_left (width : nat) (s : list ascii) : list ascii :=
  repeat " "%char (width - List.length s) ++ s.

(** The number that a list of digits stands for, after the digits of [a]. *)
Definition digits_value (a : Z) (l : list ascii) : Z :=
  fold_left (fun a c => 10 * a + Text.digit_value c) l a.

Definition no_comma (c : ascii) : bool := negb (Ascii.eqb c ",").

(** A character that is neither white space nor an underscore. *)
Definition plain (c : ascii) : bool :=
  negb (Text.is_space c) && negb (Ascii.eqb c "_").

(** A text that does not start with white space. *)
Definition starts_clean (l : list ascii) : Prop :=
  match l with [] => True | h :: _ => Text.is_space h = false end.

End Format.

(** [format(v, spec)] for the spec [[>width][,].2f]: an [int] is converted to
    a float first; a [str] has no format code [f], and [None] no format
    specification at all. *)
Definition py_format (width : nat) (comma : bool) (v : value) : result string :=
  let out l := Ok (string_of_list_ascii (Format.pad_left width l)) in
  match v with
  | VFloat f => out (Format.float_fixed2 comma f)
  | VInt z => (f <- int_to_float z ;; out (Format.float_fixed2 comma f))%py
  | VBool b =>
    (f <- int_to_float (if b then 1 else 0) ;; out (Format.float_fixed2 comma f))%py
  | VFraction q => out (Format.fraction_fixed2 comma q)
  | VStr _ => Raise (ValueError "Unknown format code 'f' for object of type 'str'")
  | VNone => Raise (TypeError "unsupported format string passed to NoneType.__format__")
  end.

(** ** The text of the report: what [display_results] prints *)

Definition ruler : string := "---------------------------------------------------------".

(** The lines of the table, given the five cells. *)
Definition table_lines (c1 c2 c3 c4 c5 : string) : list string :=
  [ "";
    "LLM Costing Analysis:";
    "  Description                             |       Cost ";
    ruler;
    append "| OpenAI Cost per shift                   | $" (append c1 " |");
    append "| Cost per hospital per shift             | $" (append c2 " |");
    append "| Daily Costs of OpenAI API Calls         | $" (append c3 " |");
    append "| OpenAI API costs per hospital per month | $" (append c4 " |");
    append "| Annual cost per hospital for OpenAI API | $" (append c5 " |");
    ruler;
    "    " ]%string.

(** The string [result] of [display_results]: the five amounts are formatted
    once for their lengths, then again at the width of the longest plus one;
    the lines are joined by line feeds. *)
Definition display_results_text (cost_per_shift cost_per_hospital_per_shift
    daily_costs monthly_costs annual_costs : value) : result string :=
  (l1 <- py_format 0 true cost_per_shift ;;
   l2 <- py_format 0 true cost_per_hospital_per_shift ;;
   l3 <- py_format 0 true daily_costs ;;
   l4 <- py_format 0 true monthly_costs ;;
   l5 <- py_format 0 true annual_costs ;;
   let max_cost_length :=
     fold_right Nat.max 0%nat (map String.length [l1; l2; l3; l4; l5]) in
   let cost_format := py_format (max_cost_length + 1) true in
   c1 <- cost_format cost_per_shift ;;
   c2 <- cost_format cost_per_hospital_per_shift ;;
   c3 <- cost_format daily_costs ;;
   c4 <- cost_format monthly_costs ;;
   c5 <- cost_format annual_costs ;;
   Ok (String.concat newline (table_lines c1 c2 c3 c4 c5)))%py.

(** The text without the commas: [text.replace(",", "")]. *)
Definition remove_commas (s : string) : string :=
  string_of_list_ascii (filter Format.no_comma (list_ascii_of_string s)).

(** The amount of a finite float in cents, rounded to nearest, ties to even,
    and the sign that its text is written with. *)
Definition cents (f : F64.float) : Z :=
  match f with
  | S754_finite _ m e => Round.rne (Round.F2Q (Zpos m) e * 100)
  | _ => 0
  end.

Definition sign_bit (f : F64.float) : bool :=
  match f with
  | S754_zero s | S754_infinity s | S754_finite s _ _ => s
  | S754_nan => false
  end.

(** The exact magnitude of a finite float. *)
Definition magnitude (f : F64.float) : Q :=
  match f with
  | S754_finite _ m e => Round.F2Q (Zpos m) e
  | _ => 0
  end.

(** ** [str(v)]: the text that an f-string puts for a value without a spec

    [repr] of a float is the shortest decimal text that [float] reads back
    as the same float: for 1, 2, ... 17 significant digits in turn, the
    decimal numbers with that many digits next to the exact value are tried,
    the nearest one first.  The digits are laid out with a point when the
    decimal exponent is between -4 and 16, and with an exponent otherwise. *)

Module Repr.

Definition same_float (f g : F64.float) : bool :=
  match f, g with
  | S754_finite s m e, S754_finite s' m' e' =>
    Bool.eqb s s' && Pos.eqb m m' && Z.eqb e e'
  | S754_zero s, S754_zero s' | S754_infinity s, S754_infinity s' => Bool.eqb s s'
  | S754_nan, S754_nan => true
  | _, _ => false
  end.

Definition pow10 (e : Z) : Q := 10 ^ e.

(** The number of decimal digits of [n >= 0]. *)
Definition ndigits (n : Z) : Z := Z.of_nat (List.length (Format.decimal_digits n)).

(** The decimal exponent of [x > 0]: the [k] with [10^(k-1) <= x < 10^k]. *)
Definition decimal_exponent (x : Q) : Z :=
  if Qle_bool 1 x then ndigits (Qfloor x) else 1 - ndigits (Qfloor (/ x)).

(** A number [c] such that [c * 10^(k-n)], of [n] significant digits, reads
    back as [f]: the nearest to [x], or the one just below, or just above. *)
Definition candidate (f : F64.float) (x : Q) (k n : Z) : option Z :=
  let t := (x * pow10 (n - k))%Q in
  let lo := Qfloor t in
  let ok c := same_float (F64.of_decimal false c (k - n)) f in
  if ok (Round.rne t) then Some (Round.rne t)
  else if ok lo then Some lo
  else if ok (lo + 1) then Some (lo + 1)
  else None.

Fixpoint search (fuel : nat) (f : F64.float) (x : Q) (k n : Z) : Z * Z :=
  match fuel with
  | O => (Round.rne (x * pow10 (n - k)), k - n)
  | S fuel' =>
    match candidate f x k n with
    | Some c => (c, k - n)
    | None => search fuel' f x k (n + 1)
    end
  end.

(** The shortest digits of the positive finite float [f] of value [x], as a
    number [c] and an exponent [e]: the text stands for [c * 10^e]. *)
Definition shortest (f : F64.float) (x : Q) : Z * Z :=
  search 16 f x (decimal_exponent x) 1.

(** Trailing zeros go to the exponent. *)
Fixpoint strip_zeros (fuel : nat) (c e : Z) : Z * Z :=
  match fuel with
  | O => (c, e)
  | S fuel' =>
    if (c mod 10 =? 0) && negb (c =? 0) then strip_zeros fuel' (c / 10) (e + 1)
    else (c, e)
  end.

Definition zeros (n : Z) : list ascii := repeat "0"%char (Z.to_nat n).

(** The exponent of the exponent form: a sign and at least two digits. *)
Definition exponent_text (e : Z) : list ascii :=
  let ds := Format.decimal_digits (Z.abs e) in
  "e"%char :: (if e <? 0 then "-"%char else "+"%char) ::
  (if (List.length ds <? 2)%nat then "0"%char :: ds else ds).

(** The digits [ds] with the point after the first [decpt] of them. *)
Definition layout (ds : list ascii) (decpt : Z) : list ascii :=
  let nd := Z.of_nat (List.length ds) in
  if (decpt <=? -4) || (16 <? decpt) then
    match ds with
    | [] => []
    | d :: rest =>
      d :: (match rest with [] => [] | _ => "."%char :: rest end) ++ exponent_text (decpt - 1)
    end
  else if decpt <=? 0 then "0"%char :: "."%char :: zeros (- decpt) ++ ds
  else if nd <=? decpt then ds ++ zeros (decpt - nd) ++ ["."%char; "0"%char]
  else firstn (Z.to_nat decpt) ds ++ "."%char :: skipn (Z.to_nat decpt) ds.

Definition positive_text (f : F64.float) (x : Q) : list ascii :=
  let '(c, e) := shortest f x in
  let '(c', e') := strip_zeros 17 c e in
  let ds := Format.decimal_digits c' in
  layout ds (e' + Z.of_nat (List.length ds)).

Definition float_text (f : F64.float) : list ascii :=
  match f with
  | S754_nan => list_ascii_of_string "nan"
  | S754_infinity s => list_ascii_of_string (if s then "-inf" else "inf")
  | S754_zero s => list_ascii_of_string (if s then "-0.0" else "0.0")
  | S754_finite s m e =>
    (if s then ["-"%char] else []) ++
    positive_text (S754_finite false m e) (Round.F2Q (Zpos m) e)
  end.

Definition int_text (z : Z) : list ascii :=
  (if z <? 0 then ["-"%char] else []) ++ Format.decimal_digits (Z.abs z).

End Repr.

(** [str(v)]; a [Fraction] is written in lowest terms, as [n/d] or as [n]. *)
Definition py_str (v : value) : string :=
  match v with
  | VNone => "None"
  | VBool b => if b then "True" else "False"
  | VInt z => string_of_list_ascii (Repr.int_text z)
  | VFloat f => string_of_list_ascii (Repr.float_text f)
  | VStr s => s
  | VFraction q =>
    let r := Qred q in
    string_of_list_ascii
      (Repr.int_text (Qnum r) ++
       (if (Qden r =? 1)%positive then []
        else "/"%char :: Repr.int_text (Zpos (Qden r))))
  end.

(** The string [description] of [describe_scenario]: five values are put as
    [str] has them, the price with two decimals. *)
Definition describe_scenario_text (prompts_per_shift multiplier avg_tokens_per_call
    token_cost_per_thousand doctors_per_shift shifts_per_day : value) : result string :=
  (price <- py_format 0 false token_cost_per_thousand ;;
   Ok (String.concat ""
         [ "The scenario involves an example app 'Doctor Diagnosis Assistant App', which utilizes the OpenAI API. ";
           "Each doctor's shift involves sending an average of ";
           py_str prompts_per_shift; " prompts to the API. ";
           "The average chain callbacks/augmentation multiplier is set at ";
           py_str multiplier; ", ";
           "with an average usage of "; py_str avg_tokens_per_call;
           " tokens per API call. ";
           "The cost of using the OpenAI API is $"; price; " per 1000 tokens. ";
           "In each shift, there are "; py_str doctors_per_shift;
           " doctors working at the hospital, ";
           "and the hospital operates "; py_str shifts_per_day;
           " shifts per day." ]%string))%py.

(** The text that [get_input] passes to [input]. *)
Definition prompt_text (prompt : string) (default_value : value) : string :=
  append prompt (append " [" (append (py_str default_value) "]: ")).

(** ** What the console shows *)

Definition render_text (t : text) : result string :=
  match t with
  | Str s => Ok s
  | Scenario p m t c d s => describe_scenario_text p m t c d s
  | CostTable a b c d e => display_results_text a b c d e
  end.

(** A prompt is written as it is, a printed text with a line feed. *)
Definition render (o : output) : result string :=
  match o with
  | Prompted prompt default_value => Ok (prompt_text prompt default_value)
  | Printed t => (s <- render_text t ;; Ok (append s newline))%py
  end.

Fixpoint screen (out : list output) : result string :=
  match out with
  | [] => Ok EmptyString
  | o :: rest => (s <- render o ;; r <- screen rest ;; Ok (append s r))%py
  end.

(** A default that is a number as [main] has them: an [int] that converts
    to a float, or a float. *)
Definition numeric_default (d : value) : bool :=
  match d with
  | VInt z => fits_float z
  | VFloat f => valid_binary F64.prec F64.emax f
  | _ => false
  end.

(** * Properties *)

(** ** Validation and construction *)

Lemma Zpow2_pos (e : Z) : 0 <= e -> 0 < 2 ^ e.
Proof. intros; apply Z.pow_pos_nonneg; lia. Qed.

Lemma compare_Z_zero (f : F64.float) :
  match F64.compare_Z f 0 with Some Gt => true | _ => false end = positive_float f.
Proof.
  destruct f as [s | s | | s m e]; simpl; try reflexivity.
  - destruct s; reflexivity.
  - destruct (0 <=? e) eqn:He.
    + apply Z.leb_le in He. pose proof (Zpow2_pos e He) as Hp.
      destruct s.
      * assert (Zneg m * 2 ^ e < 0) by (apply Z.mul_neg_pos; lia).
        rewrite (proj2 (Z.compare_lt_iff _ _)) by lia. reflexivity.
      * assert (0 < Zpos m * 2 ^ e) by (apply Z.mul_pos_pos; lia).
        rewrite (proj2 (Z.compare_gt_iff _ _)) by lia. reflexivity.
    + destruct s; reflexivity.
Qed.

(** The test of one argument never raises, and decides [positive_int_or_float]. *)
Lemma is_positive_number_spec (v : value) :
  is_positive_number v = Ok (positive_int_or_float v).
Proof.
  destruct v as [ | b | z | f | s | q]; unfold is_positive_number, py_gt; simpl;
    try reflexivity.
  - destruct b; reflexivity.
  - f_equal. destruct (z ?= 0) eqn:Hc; symmetry.
    + apply Z.compare_eq in Hc. apply Z.ltb_ge. lia.
    + rewrite Z.compare_lt_iff in Hc. apply Z.ltb_ge. lia.
    + rewrite Z.compare_gt_iff in Hc. apply Z.ltb_lt. lia.
  - f_equal. apply compare_Z_zero.
Qed.

Lemma all_positive_numbers_spec (args : list value) :
  all_positive_numbers args = Ok (forallb positive_int_or_float args).
Proof.
  induction args as [ | a args IH]; simpl; [reflexivity | ].
  rewrite is_positive_number_spec; simpl.
  destruct (positive_int_or_float a); simpl; [exact IH | reflexivity].
Qed.

Lemma validate_inputs_spec (p m t c : value) :
  validate_inputs p m t c =
  if forallb positive_int_or_float [p; m; t; c] then Ok tt
  else Raise (ValueError validation_message).
Proof.
  unfold validate_inputs. rewrite all_positive_numbers_spec.
  cbn [bind]. destruct (forallb positive_int_or_float [p; m; t; c]); reflexivity.
Qed.

Lemma init_spec (self : instance) (p m t c : value) :
  __init__ self p m t c =
  if forallb positive_int_or_float [p; m; t; c] then (built p m t c, Ok tt)
  else (self, Raise (ValueError validation_message)).
Proof.
  unfold __init__. rewrite validate_inputs_spec.
  destruct (forallb positive_int_or_float [p; m; t; c]); reflexivity.
Qed.

Lemma construct_spec (p m t c : value) :
  OpenAICostCalculator p m t c =
  if forallb positive_int_or_float [p; m; t; c] then Ok (built p m t c)
  else Raise (ValueError validation_message).
Proof.
  unfold OpenAICostCalculator. rewrite init_spec.
  destruct (forallb positive_int_or_float [p; m; t; c]); reflexivity.
Qed.

Lemma construct_ok_inv (p m t c : value) (self : instance) :
  OpenAICostCalculator p m t c = Ok self ->
  self = built p m t c /\
  positive_int_or_float p = true /\ positive_int_or_float m = true /\
  positive_int_or_float t = true /\ positive_int_or_float c = true.
Proof.
  rewrite construct_spec.
  destruct (forallb positive_int_or_float [p; m; t; c]) eqn:Hall; [ | discriminate].
  intros [= <-]. simpl in Hall.
  repeat (apply andb_prop in Hall; destruct Hall as [? Hall]). auto.
Qed.

(** What the validation does not admit: a type that is not numeric, a value
    at most zero, the float NaN, or a number that is neither an [int] nor a
    float. *)
Lemma not_admitted_cases (v : value) :
  positive_int_or_float v = false <->
  spec_non_numeric v = true \/ spec_le_zero v = true \/
  value_is_nan v = true \/ is_fraction v = true.
Proof.
  destruct v as [ | b | z | f | s | q]; simpl.
  - intuition.
  - destruct b; simpl; intuition discriminate.
  - rewrite Z.ltb_ge, Z.leb_le. intuition discriminate.
  - destruct f as [[] | [] | | [] m e]; simpl; unfold SFleb; simpl; intuition discriminate.
  - intuition.
  - intuition.
Qed.

(** What the validation admits is a positive number in the words of the
    specification; the converse fails exactly on NaN and on the positive
    [Fraction]s. *)
Lemma admitted_is_spec_positive (v : value) :
  (positive_int_or_float v = true -> spec_positive_number v = true) /\
  (spec_positive_number v = true ->
   positive_int_or_float v = true \/ value_is_nan v = true \/ is_fraction v = true).
Proof.
  unfold spec_positive_number.
  destruct v as [ | b | z | f | s | q]; simpl; try (split; [discriminate | discriminate]).
  - destruct b; simpl; split; auto; discriminate.
  - split.
    + intros H. apply Z.ltb_lt in H. now rewrite (proj2 (Z.leb_gt z 0)) by lia.
    + intros H. apply negb_true_iff, Z.leb_gt in H. left. now apply Z.ltb_lt.
  - destruct f as [[] | [] | | [] m e]; simpl; unfold SFleb; simpl; split; auto; discriminate.
  - split; [discriminate | auto].
Qed.

(** C1 as stated fails in the "only if" direction: [Fraction(1, 2)] is of a
    numeric type and above zero, and so are 5, 2000 and 0.06, but
    [OpenAICostCalculator(Fraction(1, 2), 5, 2000, 0.06)] raises; and so does
    the call with the float NaN, which is of a numeric type and not at most
    zero. *)
Lemma construct_rejects_positive_fraction :
  let half := fraction 1 2 in
  let c := VFloat (float_literal "0.06") in
  forallb spec_positive_number [half; VInt 5; VInt 2000; c] = true /\
  py_gt half (VInt 0) = Ok true /\
  OpenAICostCalculator half (VInt 5) (VInt 2000) c = Raise (ValueError validation_message) /\
  forallb spec_positive_number [VFloat F64.nan; VInt 5; VInt 2000; c] = true /\
  OpenAICostCalculator (VFloat F64.nan) (VInt 5) (VInt 2000) c
    = Raise (ValueError validation_message).
Proof. cbv zeta. repeat split; vm_compute; reflexivity. Qed.

(** C1, amended. [OpenAICostCalculator(p, m, t, c)] raises if and only if at
    least one of the four arguments is not an [int] or float above zero
    ([positive_int_or_float]; [not_admitted_cases] lists what is not); the
    exception is then the [ValueError] of the validation and [__init__] has
    assigned no attribute of the instance it was given; a bad value in any
    one position is enough, whatever the other three are; and for four [int]s
    or floats above zero the call returns the instance whose four attributes
    are the four arguments. *)
Theorem construct_fails_iff_not_positive (p m t c : value) :
  ((exists e, OpenAICostCalculator p m t c = Raise e) <->
   (exists a, In a [p; m; t; c] /\ positive_int_or_float a = false))
  /\ (forall e, OpenAICostCalculator p m t c = Raise e ->
        e = ValueError validation_message /\
        forall self, fst (__init__ self p m t c) = self)
  /\ (forall bad x y z, positive_int_or_float bad = false ->
        OpenAICostCalculator bad x y z = Raise (ValueError validation_message) /\
        OpenAICostCalculator x bad y z = Raise (ValueError validation_message) /\
        OpenAICostCalculator x y bad z = Raise (ValueError validation_message) /\
        OpenAICostCalculator x y z bad = Raise (ValueError validation_message))
  /\ (positive_int_or_float p = true -> positive_int_or_float m = true ->
      positive_int_or_float t = true -> positive_int_or_float c = true ->
      OpenAICostCalculator p m t c = Ok (built p m t c) /\
      __init__ empty_instance p m t c = (built p m t c, Ok tt)).
Proof.
  repeat split.
  - intros [e He]. rewrite construct_spec in He.
    destruct (forallb positive_int_or_float [p; m; t; c]) eqn:Hall; [discriminate | ].
    apply not_true_iff_false in Hall. rewrite forallb_forall in Hall.
    destruct (existsb (fun a => negb (positive_int_or_float a)) [p; m; t; c]) eqn:Hex.
    + apply existsb_exists in Hex. destruct Hex as [a [Hin Ha]].
      exists a. split; [exact Hin | ]. now apply negb_true_iff.
    + exfalso. apply Hall. intros a Hin.
      destruct (positive_int_or_float a) eqn:Ha; [reflexivity | ].
      assert (existsb (fun a => negb (positive_int_or_float a)) [p; m; t; c] = true).
      { apply existsb_exists. exists a. split; [exact Hin | now rewrite Ha]. }
      congruence.
  - intros [a [Hin Ha]]. rewrite construct_spec.
    destruct (forallb positive_int_or_float [p; m; t; c]) eqn:Hall.
    + rewrite forallb_forall in Hall. specialize (Hall a Hin). congruence.
    + eexists; reflexivity.
  - rewrite construct_spec in H.
    destruct (forallb positive_int_or_float [p; m; t; c]); congruence.
  - intros self. rewrite construct_spec in H. rewrite init_spec.
    destruct (forallb positive_int_or_float [p; m; t; c]); [discriminate | reflexivity].
  - rewrite construct_spec; simpl. now rewrite H.
  - rewrite construct_spec; simpl. rewrite H.
    destruct (positive_int_or_float x); reflexivity.
  - rewrite construct_spec; simpl. rewrite H.
    destruct (positive_int_or_float x), (positive_int_or_float y); reflexivity.
  - rewrite construct_spec; simpl. rewrite H.
    destruct (positive_int_or_float x), (positive_int_or_float y),
      (positive_int_or_float z); reflexivity.
  - rewrite construct_spec; simpl. now rewrite H, H0, H1, H2.
  - rewrite init_spec; simpl. now rewrite H, H0, H1, H2.
Qed.

Lemma construct_fails_iff_not_positive_witness :
  OpenAICostCalculator (VInt 50) (VInt 5) (VInt 2000) (VFloat (float_literal "0.06"))
  = Ok (built (VInt 50) (VInt 5) (VInt 2000) (VFloat (float_literal "0.06"))) /\
  OpenAICostCalculator (VInt 50) (VStr "5") (VInt 2000) (VFloat (float_literal "0.06"))
  = Raise (ValueError validation_message).
Proof.
  split.
  - exact (proj1 (proj2 (proj2 (proj2 (construct_fails_iff_not_positive
             (VInt 50) (VInt 5) (VInt 2000) (VFloat (float_literal "0.06")))))
             eq_refl eq_refl eq_refl eq_refl)).
  - exact (proj1 (proj2 (proj1 (proj2 (proj2 (construct_fails_iff_not_positive
             VNone VNone VNone VNone)))
             (VStr "5") (VInt 50) (VInt 2000) (VFloat (float_literal "0.06")) eq_refl))).
Defined.

(** C10. Booleans pass the validation: [OpenAICostCalculator(True, True,
    True, True)] returns an instance, because [bool] is a subclass of [int]
    and [True > 0]; on it [calculate_tokens_per_shift()] returns the [int] 1. *)
Theorem construct_accepts_booleans :
  isinstance_int_float (VBool true) = true /\
  py_gt (VBool true) (VInt 0) = Ok true /\
  OpenAICostCalculator (VBool true) (VBool true) (VBool true) (VBool true)
    = Ok (built (VBool true) (VBool true) (VBool true) (VBool true)) /\
  calculate_tokens_per_shift
    (built (VBool true) (VBool true) (VBool true) (VBool true)) = Ok (VInt 1).
Proof. repeat split; reflexivity. Qed.

(** ** The arithmetic chain *)

Arguments F64.mul : simpl never.
Arguments F64.div : simpl never.
Arguments F64.of_Z : simpl never.
Arguments F64.div_Z : simpl never.

Lemma py_mul_floats (f g : F64.float) :
  py_mul (VFloat f) (VFloat g) = Ok (VFloat (F64.mul f g)).
Proof. reflexivity. Qed.

Lemma py_mul_ints (x y : Z) : py_mul (VInt x) (VInt y) = Ok (VInt (x * y)).
Proof. reflexivity. Qed.

Lemma int_to_float_fits (z : Z) :
  fits_float z = true -> int_to_float z = Ok (F64.of_Z z).
Proof.
  unfold fits_float, int_to_float. intros H. apply negb_true_iff in H. now rewrite H.
Qed.

Lemma py_mul_float_int (f : F64.float) (z : Z) :
  fits_float z = true -> py_mul (VFloat f) (VInt z) = Ok (VFloat (F64.mul f (F64.of_Z z))).
Proof.
  intros H. unfold py_mul; cbn [as_number number_mul to_float bind].
  now rewrite (int_to_float_fits z H).
Qed.










(** ** Month and year *)

(** C5 as stated fails on floats: for the daily cost [0.01] the two
    multiplications round twice and return [3.5999999999999996]
    ([8106479329266892 * 2^-51]), while [0.01 * 360] is [3.6]
    ([8106479329266893 * 2^-51]). *)
Lemma annual_of_daily_not_times_360 :
  let x := VFloat (float_literal "0.01") in
  annual_of_daily empty_instance x = Ok (VFloat (S754_finite false 8106479329266892 (-51))) /\
  py_mul x (VInt 360) = Ok (VFloat (S754_finite false 8106479329266893 (-51))) /\
  annual_of_daily empty_instance x <> py_mul x (VInt 360).
Proof.
  cbv zeta. split; [ | split].
  - vm_compute. reflexivity.
  - vm_compute. reflexivity.
  - vm_compute. discriminate.
Qed.

(** C5, amended. [calculate_monthly_costs(x)] is [x * 30] and
    [calculate_annual_costs] of it is [(x * 30) * 12], whatever the instance:
    the two constants are fixed.  For an [int] [x] that is exactly [x * 360];
    for a float [x] it is the product rounded after each of the two
    multiplications. *)
Theorem monthly_and_annual_costs (self : instance) (x : value) :
  calculate_monthly_costs self x = py_mul x (VInt 30)
  /\ annual_of_daily self x = (mo <- py_mul x (VInt 30) ;; py_mul mo (VInt 12))%py
  /\ (forall z, x = VInt z ->
        calculate_monthly_costs self x = Ok (VInt (z * 30)) /\
        annual_of_daily self x = Ok (VInt (z * 360)) /\
        annual_of_daily self x = py_mul x (VInt 360))
  /\ (forall f, x = VFloat f ->
        calculate_monthly_costs self x = Ok (VFloat (F64.mul f (F64.of_Z 30))) /\
        annual_of_daily self x
          = Ok (VFloat (F64.mul (F64.mul f (F64.of_Z 30)) (F64.of_Z 12)))).
Proof.
  split; [reflexivity | split; [reflexivity | split]].
  - intros z ->. unfold annual_of_daily, calculate_monthly_costs, calculate_annual_costs,
      days_per_month, months_per_year.
    rewrite !py_mul_ints; cbn [bind]. rewrite !py_mul_ints.
    repeat split; f_equal; f_equal; lia.
  - intros f ->. split; reflexivity.
Qed.

Lemma monthly_and_annual_costs_witness :
  annual_of_daily empty_instance (VInt 900) = Ok (VInt (900 * 360)).
Proof.
  exact (proj1 (proj2 (proj1 (proj2 (proj2 (monthly_and_annual_costs empty_instance (VInt 900))))
                         900 eq_refl))).
Defined.

(** ** The scenario of the defaults *)

(** C6. With 50 prompts, multiplier 5, 2000 tokens per call, price 0.06,
    10 doctors and 3 shifts: tokens per shift 500000, cost per shift 30.0,
    per hospital and shift 300.0, per day 900.0, per month 27000.0, per year
    324000.0, each of them exactly that float; both when the class is called
    with the literals and when [main] runs on six empty lines, where the six
    values are floats. *)
Theorem default_scenario :
  let calc := built (VInt 50) (VInt 5) (VInt 2000) (VFloat (float_literal "0.06")) in
  OpenAICostCalculator (VInt 50) (VInt 5) (VInt 2000) (VFloat (float_literal "0.06")) = Ok calc
  /\ calculate_tokens_per_shift calc = Ok (VInt 500000)
  /\ calculate_cost_per_shift calc = Ok (VFloat (F64.of_Z 30))
  /\ calculate_cost_per_hospital_per_shift calc (VInt 10) = Ok (VFloat (F64.of_Z 300))
  /\ calculate_daily_costs calc (VInt 3) (VInt 10) = Ok (VFloat (F64.of_Z 900))
  /\ calculate_monthly_costs calc (VFloat (F64.of_Z 900)) = Ok (VFloat (F64.of_Z 27000))
  /\ calculate_annual_costs calc (VFloat (F64.of_Z 27000)) = Ok (VFloat (F64.of_Z 324000))
  /\ calculate_tokens_per_shift
       (built (VFloat (F64.of_Z 50)) (VFloat (F64.of_Z 5)) (VFloat (F64.of_Z 2000))
          (VFloat (float_literal "0.06"))) = Ok (VFloat (F64.of_Z 500000))
  /\ run [""; ""; ""; ""; ""; ""]%string =
     [ Prompted "Enter the number of prompts sent per doctor's shift" (VInt 50);
       Prompted "Enter the chain/interaction/augmentation multiplier" (VInt 5);
       Prompted "Enter the average tokens used per API call" (VInt 2000);
       Printed (Str "{}");
       Prompted "Enter the OpenAI price per 1000 tokens (GPT-4=$0.06) (in $)"
         (VFloat (float_literal "0.06"));
       Prompted "Enter the number of doctors on shift per hospital" (VInt 10);
       Prompted "Enter the number of shifts per day" (VInt 3);
       Printed (Str (append newline "Scenario Description:"));
       Printed (Scenario (VFloat (F64.of_Z 50)) (VFloat (F64.of_Z 5))
                  (VFloat (F64.of_Z 2000)) (VFloat (float_literal "0.06"))
                  (VFloat (F64.of_Z 10)) (VFloat (F64.of_Z 3)));
       Printed (CostTable (VFloat (F64.of_Z 30)) (VFloat (F64.of_Z 300))
                  (VFloat (F64.of_Z 900)) (VFloat (F64.of_Z 27000))
                  (VFloat (F64.of_Z 324000))) ].
Proof. cbv zeta. repeat split; vm_compute; reflexivity. Qed.

(** The floats of the scenario are the integers they are printed as:
    [m * 2^e] with [e < 0] is the integer [n] when [m = n * 2^(-e)]. *)
Lemma default_scenario_floats_exact :
  F64.of_Z 30 = S754_finite false (30 * 2 ^ 48) (-48) /\
  F64.of_Z 300 = S754_finite false (300 * 2 ^ 44) (-44) /\
  F64.of_Z 900 = S754_finite false (900 * 2 ^ 43) (-43) /\
  F64.of_Z 27000 = S754_finite false (27000 * 2 ^ 38) (-38) /\
  F64.of_Z 324000 = S754_finite false (324000 * 2 ^ 34) (-34) /\
  F64.of_Z 500000 = S754_finite false (500000 * 2 ^ 34) (-34).
Proof. repeat split; vm_compute; reflexivity. Qed.

(** ** The console *)




Lemma read_step (p : string) (d : value) (k : value -> io unit)
    (l : string) (rest : list string) (out : list output) :
  io_bind (io_bind (get_input p d) (fun v => lift (py_float v))) k
    {| stdin := l :: rest; stdout := out |} =
  match line_value l d with
  | Ok v => k v {| stdin := rest; stdout := out ++ [Prompted p d] |}
  | Raise e => (Raise e, {| stdin := rest; stdout := out ++ [Prompted p d] |})
  end.
Proof. reflexivity. Qed.

Lemma pricing_step (k : unit -> io unit) (w : world) :
  io_bind print_pricing k w =
  k tt {| stdin := stdin w; stdout := stdout w ++ [Printed (Str "{}")] |}.
Proof. reflexivity. Qed.

Lemma accepted_line_value (l : string) (d : value) (fd : F64.float) :
  accepted_line l = true -> py_float d = Ok (VFloat fd) ->
  exists f, line_value l d = Ok (VFloat f).
Proof.
  unfold accepted_line, line_value. intros Ha Hd.
  destruct (str_truthy l); cbn [negb orb] in Ha.
  - cbn [py_float]. destruct (Text.float_of_string l) as [f | ]; [eauto | discriminate].
  - eauto.
Qed.

Lemma malformed_line_value (l : string) (d : value) :
  malformed_line l = true ->
  line_value l d = Raise (ValueError (parse_error_message l)).
Proof.
  unfold malformed_line, line_value. intros Hm.
  apply andb_prop in Hm. destruct Hm as [-> Hm]. cbn [py_float].
  destruct (Text.float_of_string l); [discriminate | reflexivity].
Qed.

Ltac read_accepted H :=
  rewrite read_step;
  match goal with
  | |- context [line_value ?l ?d] =>
    let f := fresh "f" in
    let E := fresh "E" in
    destruct (accepted_line_value l d _ H eq_refl) as [f E];
    rewrite E; cbv beta
  end.

Ltac read_malformed H :=
  rewrite read_step; rewrite (malformed_line_value _ _ H); reflexivity.


Lemma last_output_app (out : list output) (o : output) :
  last_output (out ++ [o]) = Some o.
Proof.
  unfold last_output. rewrite map_app. cbn [map]. apply last_last.
Qed.

Lemma report_produced_app (out : list output) (o : output) :
  report_produced (out ++ [o]) = report_produced out || is_report o.
Proof.
  unfold report_produced. rewrite existsb_app. cbn [existsb]. now rewrite orb_false_r.
Qed.


(** The two handlers of [main]: whatever the [try] block raises, the run ends
    by printing [handler_line] of it, the [Invalid input: ...] form for a
    [ValueError] and the [An unexpected error occurred: ...] form for any
    other exception. *)
Lemma main_handlers (w w' : world) (e : exn) :
  main_try w = (Raise e, w') ->
  main w = (Ok tt, {| stdin := stdin w';
                      stdout := stdout w' ++ [Printed (Str (handler_line e))] |}).
Proof. intros E. unfold main. rewrite E. destruct e; reflexivity. Qed.



(** ** Rounding: the reference operations are monotone

    The reference operations of binary64 are shown to round the exact result
    of the operation to the nearest float, and rounding is shown monotone. *)

Module RoundFacts.
Import Round.
Local Open Scope Q_scope.

Local Abbreviation prec := F64.prec.
Local Abbreviation emax := F64.emax.
Local Abbreviation emin := (SpecFloat.emin F64.prec F64.emax).
Local Abbreviation fexp := (SpecFloat.fexp F64.prec F64.emax).

#[local] Instance pow2_proper : Proper (eq ==> Qeq) pow2.
Proof. intros a b ->. reflexivity. Qed.

Lemma pow2_pos (e : Z) : 0 < pow2 e.
Proof. unfold pow2. apply Qpower_0_lt. reflexivity. Qed.

Lemma pow2_add (a b : Z) : pow2 (a + b) == pow2 a * pow2 b.
Proof. unfold pow2. apply Qpower_plus. discriminate. Qed.

Lemma pow2_succ (e : Z) : pow2 (e + 1) == 2 * pow2 e.
Proof. rewrite pow2_add. unfold pow2 at 2. simpl. ring. Qed.

Lemma pow2_le (a b : Z) : (a <= b)%Z -> pow2 a <= pow2 b.
Proof. intros H. unfold pow2. apply Qpower_le_compat_l; [exact H | ]. discriminate. Qed.

Lemma pow2_lt (a b : Z) : (a < b)%Z -> pow2 a < pow2 b.
Proof. intros H. unfold pow2. apply Qpower_lt_compat_l; [exact H | ]. reflexivity. Qed.

Lemma pow2_Z (n : Z) : (0 <= n)%Z -> pow2 n == inject_Z (2 ^ n).
Proof. intros H. unfold pow2. rewrite Zpower_Qpower by exact H. reflexivity. Qed.

Lemma F2Q_succ (m e : Z) : F2Q (m + 1) e == F2Q m e + pow2 e.
Proof. unfold F2Q. rewrite inject_Z_plus. ring. Qed.


(** *** The number of binary digits *)

Lemma digits2_pos_bounds (p : positive) :
  (2 ^ (Zpos (digits2_pos p) - 1) <= Zpos p < 2 ^ Zpos (digits2_pos p))%Z.
Proof.
  induction p as [p IH | p IH | ]; cbn [digits2_pos].
  - rewrite Pos2Z.inj_succ.
    replace (Z.succ (Zpos (digits2_pos p)) - 1)%Z with (Z.succ (Zpos (digits2_pos p) - 1)) by lia.
    rewrite !Z.pow_succ_r by lia. lia.
  - rewrite Pos2Z.inj_succ.
    replace (Z.succ (Zpos (digits2_pos p)) - 1)%Z with (Z.succ (Zpos (digits2_pos p) - 1)) by lia.
    rewrite !Z.pow_succ_r by lia. lia.
  - simpl. lia.
Qed.

Lemma Zdigits2_bounds (m : Z) :
  (0 < m)%Z -> (0 < Zdigits2 m /\ 2 ^ (Zdigits2 m - 1) <= m < 2 ^ Zdigits2 m)%Z.
Proof.
  destruct m as [ | p | p]; try lia. intros _. cbn [Zdigits2].
  split; [lia | apply digits2_pos_bounds].
Qed.

(** The digits are determined by the two bounds. *)
Lemma Zdigits2_unique (m d : Z) :
  (2 ^ (d - 1) <= m < 2 ^ d)%Z -> (0 < m)%Z -> (0 < d)%Z -> Zdigits2 m = d.
Proof.
  intros [Hlo Hhi] Hm Hd.
  destruct (Zdigits2_bounds m Hm) as [Hd' [Hlo' Hhi']].
  destruct (Z.lt_trichotomy (Zdigits2 m) d) as [Hlt | [Heq | Hgt]]; [ | exact Heq | ].
  - assert (2 ^ Zdigits2 m <= 2 ^ (d - 1))%Z by (apply Z.pow_le_mono_r; lia). lia.
  - assert (2 ^ d <= 2 ^ (Zdigits2 m - 1))%Z by (apply Z.pow_le_mono_r; lia). lia.
Qed.

(** *** Integers among rationals *)

Lemma inject_Z_le (a b : Z) : (a <= b)%Z <-> inject_Z a <= inject_Z b.
Proof. rewrite Zle_Qle. tauto. Qed.

Lemma inject_Z_lt (a b : Z) : (a < b)%Z <-> inject_Z a < inject_Z b.
Proof. rewrite Zlt_Qlt. tauto. Qed.

Lemma Qfloor_unique (x : Q) (n : Z) :
  inject_Z n <= x -> x < inject_Z n + 1 -> Qfloor x = n.
Proof.
  intros Hlo Hhi.
  pose proof (Qfloor_le x) as H1. pose proof (Qlt_floor x) as H2.
  rewrite inject_Z_plus in H2. change (inject_Z 1) with 1 in H2.
  assert (inject_Z n < inject_Z (Qfloor x) + 1) as A by lra.
  assert (inject_Z (Qfloor x) < inject_Z n + 1) as B by lra.
  change 1 with (inject_Z 1) in A, B. rewrite <- inject_Z_plus in A, B.
  apply inject_Z_lt in A. apply inject_Z_lt in B. lia.
Qed.

#[local] Instance rne_proper : Proper (Qeq ==> eq) rne.
Proof.
  intros x y Hxy. unfold rne.
  assert (Qfloor x = Qfloor y) as -> by (now rewrite Hxy).
  now rewrite Hxy.
Qed.

Lemma rne_mono (x y : Q) : x <= y -> (rne x <= rne y)%Z.
Proof.
  intros Hxy. pose proof (Qfloor_resp_le x y Hxy) as Hf. unfold rne.
  destruct (Qcompare_spec (x - inject_Z (Qfloor x)) (1 # 2)) as [Hx | Hx | Hx];
  destruct (Qcompare_spec (y - inject_Z (Qfloor y)) (1 # 2)) as [Hy | Hy | Hy];
  repeat match goal with |- context [Z.even ?a] => destruct (Z.even a) eqn:? end;
  try lia;
  (assert (Qfloor x = Qfloor y \/ Qfloor x + 1 <= Qfloor y)%Z as [E | E] by lia;
   [ | lia]);
  try (rewrite E in *; congruence);
  rewrite E in Hx; exfalso; lra.
Qed.

Lemma rne_Z (n : Z) : rne (inject_Z n) = n.
Proof.
  unfold rne. rewrite Qfloor_Z.
  destruct (Qcompare_spec (inject_Z n - inject_Z n) (1 # 2)) as [H | H | H];
    [exfalso; lra | reflexivity | exfalso; lra].
Qed.


(** *** Shifting right keeps the location *)

Lemma loc_of_shr_record_of_loc (m : Z) (l : location) :
  loc_of_shr_record (shr_record_of_loc m l) = l.
Proof. destruct l as [ | []]; reflexivity. Qed.

Lemma shr_m_shr_record_of_loc (m : Z) (l : location) :
  shr_m (shr_record_of_loc m l) = m.
Proof. destruct l as [ | []]; reflexivity. Qed.


Lemma F2Q_double (p e : Z) : F2Q p (e + 1) == F2Q (2 * p) e.
Proof. unfold F2Q. rewrite pow2_succ, inject_Z_mult. change (inject_Z 2) with 2. ring. Qed.

Lemma F2Q_add (a b e : Z) : F2Q (a + b) e == F2Q a e + F2Q b e.
Proof. unfold F2Q. rewrite inject_Z_plus. ring. Qed.

Lemma F2Q_scale (k a e : Z) : F2Q (k * a) e == inject_Z k * F2Q a e.
Proof. unfold F2Q. rewrite inject_Z_mult. ring. Qed.

Lemma F2Q_one (e : Z) : F2Q 1 e == pow2 e.
Proof. unfold F2Q. change (inject_Z 1) with 1. ring. Qed.

Lemma shr_1_spec (m : Z) (r s : bool) :
  (0 <= m)%Z ->
  shr_1 (Build_shr_record m r s) = Build_shr_record (Z.div2 m) (Z.odd m) (r || s).
Proof. destruct m as [ | [p | p | ] | p]; try lia; reflexivity. Qed.

Ltac push_inject :=
  unfold F2Q in *;
  rewrite ?pow2_succ in *;
  rewrite ?inject_Z_plus, ?inject_Z_mult in *;
  change (inject_Z 2) with 2 in *; change (inject_Z 1) with 1 in *;
  change (inject_Z 0) with 0 in *.

Lemma shr_1_located (x : Q) (e : Z) (mrs : shr_record) :
  located_record x e mrs -> located_record x (e + 1) (shr_1 mrs).
Proof.
  destruct mrs as [m r s]. unfold located_record. cbn [shr_m]. intros [Hm Hl].
  rewrite (shr_1_spec m r s Hm). cbn [shr_m].
  pose proof (pow2_pos e) as Hu.
  pose proof (Z.div2_odd m) as Hdec.
  assert (Hq : (0 <= Z.div2 m)%Z) by (rewrite Z.div2_div; apply Z.div_pos; lia).
  split; [exact Hq | ].
  remember (Z.div2 m) as q eqn:Eq. remember (Z.odd m) as b eqn:Eb.
  clear Eq Eb Hq Hm. subst m.
  destruct b, r, s; cbn [loc_of_shr_record orb Z.b2z located cmp_spec] in *;
    push_inject; intros; repeat split; lra.
Qed.


Lemma iter_pos_shift {A : Type} (f : A -> A) (P : Z -> A -> Prop) :
  (forall e a, P e a -> P (e + 1)%Z (f a)) ->
  forall p e a, P e a -> P (e + Zpos p)%Z (iter_pos f p a).
Proof.
  intros Hstep. induction p as [p IH | p IH | ]; intros e a Ha; cbn [iter_pos].
  - replace (e + Zpos p~1)%Z with (e + 1 + Zpos p + Zpos p)%Z by lia. auto.
  - replace (e + Zpos p~0)%Z with (e + Zpos p + Zpos p)%Z by lia. auto.
  - auto.
Qed.

Lemma shr_located (x : Q) (e : Z) (mrs : shr_record) (n : Z) :
  located_record x e mrs ->
  located_record x (snd (shr mrs e n)) (fst (shr mrs e n)) /\
  snd (shr mrs e n) = (e + Z.max 0 n)%Z.
Proof.
  intros H. destruct n as [ | p | p]; cbn [shr fst snd].
  - split; [exact H | lia].
  - split; [ | lia].
    apply (iter_pos_shift shr_1 (located_record x)); [ | exact H].
    intros e' a. apply shr_1_located.
  - split; [exact H | lia].
Qed.

Lemma shr_fexp_located (x : Q) (m e : Z) (l : location) :
  (0 <= m)%Z -> located x m e l ->
  located_record x (snd (shr_fexp prec emax m e l))
    (fst (shr_fexp prec emax m e l)) /\
  snd (shr_fexp prec emax m e l)
    = Z.max e (fexp (Zdigits2 m + e)).
Proof.
  intros Hm Hl. unfold shr_fexp.
  destruct (shr_located x e (shr_record_of_loc m l)
              (fexp (Zdigits2 m + e) - e)) as [H1 H2].
  { split; [rewrite shr_m_shr_record_of_loc; exact Hm | ].
    now rewrite shr_m_shr_record_of_loc, loc_of_shr_record_of_loc. }
  split; [exact H1 | rewrite H2; lia].
Qed.

(** The integer that [round_nearest_even] returns is the nearest integer of
    the located number, scaled. *)
Lemma rne_located (x : Q) (m e : Z) (l : location) :
  located x m e l -> rne (x / pow2 e) = round_nearest_even m l.
Proof.
  intros Hl. pose proof (pow2_pos e) as Hu.
  assert (Hne : ~ pow2 e == 0) by lra.
  destruct l as [ | c]; cbn [located round_nearest_even] in *.
  - rewrite Hl. unfold F2Q. rewrite Qdiv_mult_l by exact Hne. apply rne_Z.
  - destruct Hl as [Hlo [Hhi Hc]]. unfold F2Q in *.
    rewrite inject_Z_plus, ?inject_Z_mult in *.
    change (inject_Z 1) with 1 in *. change (inject_Z 2) with 2 in *.
    set (y := x / pow2 e).
    assert (Hy : x == y * pow2 e) by (unfold y; field; exact Hne).
    assert (Hlo' : inject_Z m < y) by (apply Qlt_shift_div_l; assumption).
    assert (Hhi' : y < inject_Z m + 1) by (apply Qlt_shift_div_r; assumption).
    unfold rne. rewrite (Qfloor_unique y m) by lra.
    set (u := pow2 e) in *.
    destruct c; cbn [cmp_spec] in Hc; rewrite Hy in Hc.
    + assert (E : y - inject_Z m == 1 # 2).
      { apply Qle_antisym; nra. }
      destruct (Qcompare_spec (y - inject_Z m) (1 # 2)); [reflexivity | lra | lra].
    + assert (E : y - inject_Z m < 1 # 2) by nra.
      destruct (Qcompare_spec (y - inject_Z m) (1 # 2)); [lra | reflexivity | lra].
    + assert (E : y - inject_Z m > 1 # 2) by nra.
      destruct (Qcompare_spec (y - inject_Z m) (1 # 2)); [lra | lra | reflexivity].
Qed.

(** What [binary_round_aux] returns for a located number whose mantissa is
    long enough: the rounding of the number in its binade. *)
Lemma binary_round_aux_round_at (x : Q) (m e : Z) (l : location) :
  (0 <= m)%Z -> located x m e l ->
  (e <= fexp (Zdigits2 m + e))%Z ->
  binary_round_aux prec emax false m e l = round_at (Zdigits2 m + e) x.
Proof.
  intros Hm Hl He. unfold binary_round_aux, round_at.
  destruct (shr_fexp_located x m e l Hm Hl) as [[Hm' Hl'] He'].
  destruct (shr_fexp prec emax m e l) as [mrs' e'] eqn:Hs. cbn [fst snd] in *.
  rewrite Z.max_r in He' by exact He. subst e'.
  rewrite (rne_located _ _ _ _ Hl'). reflexivity.
Qed.


(** *** Canonical pairs and their order *)



Lemma F2Q_le (a b e : Z) : (a <= b)%Z -> F2Q a e <= F2Q b e.
Proof.
  intros H. unfold F2Q. apply Qmult_le_compat_r.
  - now apply (proj1 (inject_Z_le a b)).
  - apply Qlt_le_weak, pow2_pos.
Qed.

Lemma F2Q_lt (a b e : Z) : (a < b)%Z -> F2Q a e < F2Q b e.
Proof.
  intros H. unfold F2Q. apply Qmult_lt_compat_r.
  - apply pow2_pos.
  - now apply (proj1 (inject_Z_lt a b)).
Qed.

Lemma F2Q_pow2 (d e : Z) : (0 <= d)%Z -> F2Q (2 ^ d) e == pow2 (d + e).
Proof. intros H. unfold F2Q. rewrite pow2_add, (pow2_Z d H). reflexivity. Qed.

Lemma F2Q_lt_pow2 (n d e : Z) : (n < 2 ^ d)%Z -> (0 <= d)%Z -> F2Q n e < pow2 (d + e).
Proof. intros H Hd. rewrite <- F2Q_pow2 by exact Hd. now apply F2Q_lt. Qed.

Lemma F2Q_ge_pow2 (n d e : Z) : (2 ^ d <= n)%Z -> (0 <= d)%Z -> pow2 (d + e) <= F2Q n e.
Proof. intros H Hd. rewrite <- F2Q_pow2 by exact Hd. now apply F2Q_le. Qed.

Lemma F2Q_pos (n e : Z) : (0 < n)%Z -> 0 < F2Q n e.
Proof.
  intros H. unfold F2Q. apply Qmult_lt_0_compat; [ | apply pow2_pos].
  change 0 with (inject_Z 0). now apply (proj1 (inject_Z_lt 0 n)).
Qed.

(** Between canonical pairs a larger exponent means a larger number. *)
Lemma canon_exponent_lt (n1 e1 n2 e2 : Z) :
  canon n1 e1 -> canon n2 e2 -> (e1 < e2)%Z -> F2Q n1 e1 < F2Q n2 e2.
Proof.
  intros [[_ Hn1] [He1 _]] [_ [_ Hn2]] He.
  assert (H1 : F2Q n1 e1 < pow2 (prec + e1)) by (apply F2Q_lt_pow2; [exact Hn1 | discriminate]).
  assert (H2 : pow2 (prec - 1 + e2) <= F2Q n2 e2).
  { apply F2Q_ge_pow2; [apply Hn2; lia | discriminate]. }
  assert (H3 : pow2 (prec + e1) <= pow2 (prec - 1 + e2)) by (apply pow2_le; lia).
  lra.
Qed.

Lemma canon_order (n1 e1 n2 e2 : Z) :
  canon n1 e1 -> canon n2 e2 -> F2Q n1 e1 <= F2Q n2 e2 ->
  (e1 < e2 \/ (e1 = e2 /\ n1 <= n2))%Z.
Proof.
  intros C1 C2 Hv.
  destruct (Z.lt_trichotomy e1 e2) as [H | [H | H]]; [now left | right | exfalso].
  - split; [exact H | ]. subst e2.
    destruct (Z.le_gt_cases n1 n2) as [Hn | Hn]; [exact Hn | exfalso].
    pose proof (F2Q_lt n2 n1 e1 ltac:(lia)). lra.
  - pose proof (canon_exponent_lt n2 e2 n1 e1 C2 C1 H). lra.
Qed.

Lemma canon_digits (n e : Z) : canon n e -> fexp (Zdigits2 n + e) = e.
Proof.
  intros [[Hn0 Hn] [He Hnorm]].
  destruct (Zdigits2_bounds n Hn0) as [Hd [Hlo Hhi]].
  assert (Hdp : (Zdigits2 n <= prec)%Z).
  { destruct (Z.le_gt_cases (Zdigits2 n) prec) as [H | H]; [exact H | exfalso].
    assert (2 ^ prec <= 2 ^ (Zdigits2 n - 1))%Z by (apply Z.pow_le_mono_r; lia). lia. }
  unfold SpecFloat.fexp.
  destruct (Z.eq_dec e emin) as [-> | Hne]; [unfold SpecFloat.emin in *; lia | ].
  assert (Zdigits2 n = prec); [ | lia].
  apply Zdigits2_unique; [ | lia | reflexivity].
  split; [apply Hnorm; lia | exact Hn].
Qed.

(** A valid finite positive float is a canonical pair. *)
Lemma valid_canon (m : positive) (e : Z) :
  valid_binary prec emax (S754_finite false m e) = true ->
  canon (Zpos m) e /\ (e <= emax - prec)%Z.
Proof.
  cbn [valid_binary]. unfold bounded, canonical_mantissa. intros H.
  apply andb_prop in H. destruct H as [Hc He].
  apply Z.eqb_eq in Hc. apply Z.leb_le in He. split; [ | exact He].
  pose proof (digits2_pos_bounds m) as [Hlo Hhi].
  unfold SpecFloat.fexp, SpecFloat.emin in Hc.
  assert (Hdp : (Zpos (digits2_pos m) <= prec)%Z) by lia.
  repeat split.
  - assert (2 ^ Zpos (digits2_pos m) <= 2 ^ prec)%Z by (apply Z.pow_le_mono_r; lia). lia.
  - unfold SpecFloat.emin. lia.
  - unfold SpecFloat.emin. intros Hgt.
    assert (Zpos (digits2_pos m) = prec) as E by lia.
    rewrite E in Hlo. exact Hlo.
Qed.

(** [finish] on a canonical pair is the float of the pair, or [+inf]. *)
Lemma finish_canon (n e : Z) :
  canon n e ->
  finish n e = match n with
               | Zpos m => if (e <=? emax - prec)%Z then S754_finite false m e
                           else S754_infinity false
               | _ => S754_nan
               end.
Proof.
  intros C. pose proof (canon_digits n e C) as Hd.
  destruct C as [[Hn0 _] _]. destruct n as [ | m | m]; try lia.
  unfold finish, shr_fexp. cbn [shr_record_of_loc]. rewrite Hd, Z.sub_diag.
  reflexivity.
Qed.

Lemma iter_shr_1_zero (q : positive) :
  iter_pos shr_1 q (Build_shr_record 0 false false) = Build_shr_record 0 false false.
Proof.
  induction q as [q IH | q IH | ]; cbn [iter_pos shr_1 orb]; rewrite ?IH; reflexivity.
Qed.

Lemma finish_zero (e : Z) : finish 0 e = S754_zero false.
Proof.
  unfold finish, shr_fexp. cbn [Zdigits2 shr_record_of_loc].
  destruct (SpecFloat.fexp prec emax (0 + e) - e)%Z as [ | p | p]; cbn [shr];
    rewrite ?iter_shr_1_zero; reflexivity.
Qed.

(** When the rounding carried into bit [prec], one more shift renormalises. *)
Lemma finish_carry (e : Z) :
  (emin <= e)%Z -> finish (2 ^ prec) e = finish (2 ^ (prec - 1)) (e + 1).
Proof.
  intros He.
  assert (C : canon (2 ^ (prec - 1)) (e + 1)).
  { unfold canon. split; [split; reflexivity | split; [lia | intros _; reflexivity]]. }
  rewrite (finish_canon _ _ C).
  unfold finish, shr_fexp.
  replace (SpecFloat.fexp prec emax (Zdigits2 (2 ^ prec) + e) - e)%Z with 1%Z.
  2:{ change (Zdigits2 (2 ^ prec)) with 54%Z.
      unfold SpecFloat.fexp, SpecFloat.emin, F64.prec, F64.emax in *. lia. }
  reflexivity.
Qed.


Lemma scaled_lt (x : Q) (a e : Z) : x < pow2 (a + e) -> x / pow2 e < pow2 a.
Proof.
  intros H. apply Qlt_shift_div_r; [apply pow2_pos | ]. now rewrite <- pow2_add.
Qed.

Lemma scaled_ge (x : Q) (a e : Z) : pow2 (a + e) <= x -> pow2 a <= x / pow2 e.
Proof.
  intros H. apply Qle_shift_div_l; [apply pow2_pos | ]. now rewrite <- pow2_add.
Qed.

Lemma scaled_nonneg (x : Q) (e : Z) : 0 <= x -> 0 <= x / pow2 e.
Proof.
  intros H. apply Qle_shift_div_l; [apply pow2_pos | ]. lra.
Qed.

Lemma fexp_cases (k : Z) :
  (emin <= fexp k /\ k - prec <= fexp k /\ (fexp k = emin \/ fexp k = k - prec))%Z.
Proof. unfold SpecFloat.fexp. lia. Qed.

Lemma fexp_mono (a b : Z) : (a <= b)%Z -> (fexp a <= fexp b)%Z.
Proof. unfold SpecFloat.fexp. lia. Qed.

(** The integer that the rounding of [x] in its binade produces. *)
Lemma rne_scaled_bounds (x : Q) (k : Z) :
  0 <= x -> binade x k ->
  (0 <= rne (x / pow2 (fexp k)) <= 2 ^ prec)%Z /\
  ((emin < fexp k)%Z -> (2 ^ (prec - 1) <= rne (x / pow2 (fexp k)))%Z) /\
  F2Q (rne (x / pow2 (fexp k))) (fexp k) <= pow2 (Z.max k (fexp k)).
Proof.
  intros Hx [Hhi Hlo].
  destruct (fexp_cases k) as [He1 [He2 He3]].
  set (E := fexp k) in *. set (y := x / pow2 E).
  assert (H0 : (0 <= rne y)%Z).
  { rewrite <- (rne_Z 0). apply rne_mono. apply scaled_nonneg, Hx. }
  assert (Hup : (rne y <= 2 ^ prec)%Z /\ F2Q (rne y) E <= pow2 (Z.max k E)).
  { destruct (Z.le_gt_cases E k) as [HkE | HkE].
    - assert (Hy : y <= inject_Z (2 ^ (k - E))).
      { rewrite <- pow2_Z by lia. apply Qlt_le_weak, scaled_lt.
        now replace (k - E + E)%Z with k by lia. }
      apply rne_mono in Hy. rewrite rne_Z in Hy. split.
      + assert (2 ^ (k - E) <= 2 ^ prec)%Z by (apply Z.pow_le_mono_r; lia). lia.
      + rewrite Z.max_l by lia.
        apply Qle_trans with (F2Q (2 ^ (k - E)) E); [now apply F2Q_le | ].
        rewrite F2Q_pow2 by lia. replace (k - E + E)%Z with k by lia. apply Qle_refl.
    - assert (Hy : y <= inject_Z 1).
      { change (inject_Z 1) with (pow2 0). apply Qlt_le_weak, scaled_lt.
        apply Qlt_trans with (pow2 k); [exact Hhi | ]. apply pow2_lt. lia. }
      apply rne_mono in Hy. rewrite rne_Z in Hy. split.
      + assert (1 <= 2 ^ prec)%Z by discriminate. lia.
      + rewrite Z.max_r by lia.
        apply Qle_trans with (F2Q 1 E); [now apply F2Q_le | ].
        rewrite F2Q_one. apply Qle_refl. }
  split; [split; [exact H0 | apply Hup] | split; [ | apply Hup]].
  intros Hn.
  assert (Ek : E = (k - prec)%Z) by lia.
  destruct Hlo as [Hlo | Hlo]; [ | unfold F64.prec in *; lia].
  assert (Hy : inject_Z (2 ^ (prec - 1)) <= y).
  { rewrite <- pow2_Z by discriminate. apply scaled_ge.
    now replace (prec - 1 + E)%Z with (k - 1)%Z by lia. }
  apply rne_mono in Hy. now rewrite rne_Z in Hy.
Qed.



Lemma round_at_shape (x : Q) (k : Z) :
  0 <= x -> binade x k ->
  (rounded_value k x == 0 /\ round_at k x = S754_zero false) \/
  (exists n e, canon n e /\ F2Q n e == rounded_value k x /\
               round_at k x = float_of_pair n e).
Proof.
  intros Hx Hb.
  destruct (rne_scaled_bounds x k Hx Hb) as [[H0 Hp] [Hn _]].
  destruct (fexp_cases k) as [He1 _].
  unfold rounded_value, round_at.
  set (E := fexp k) in *. set (N := rne (x / pow2 E)) in *.
  assert (Hc : (N = 0 \/ 0 < N < 2 ^ prec \/ N = 2 ^ prec)%Z) by lia.
  destruct Hc as [-> | [Hc | Hc]].
  - left. split; [unfold F2Q; change (inject_Z 0) with 0; ring | apply finish_zero].
  - right. exists N, E.
    assert (C : canon N E) by (unfold canon; auto).
    split; [exact C | split; [reflexivity | ]].
    rewrite (finish_canon N E C). reflexivity.
  - right. exists (2 ^ (prec - 1))%Z, (E + 1)%Z.
    assert (C : canon (2 ^ (prec - 1)) (E + 1)).
    { unfold canon. split; [split; reflexivity | split; [lia | intros _; reflexivity]]. }
    split; [exact C | split].
    + rewrite Hc, !F2Q_pow2 by discriminate. apply pow2_proper. unfold F64.prec. lia.
    + rewrite Hc, (finish_carry E He1), (finish_canon _ _ C). reflexivity.
Qed.

(** Rounding is monotone on the numbers. *)
Lemma rounded_value_mono (x y : Q) (kx ky : Z) :
  0 <= x -> x <= y -> binade x kx -> binade y ky ->
  rounded_value kx x <= rounded_value ky y.
Proof.
  intros Hx Hxy Bx By.
  assert (Hy : 0 <= y) by lra.
  destruct (rne_scaled_bounds x kx Hx Bx) as [_ [_ Ux]].
  destruct (rne_scaled_bounds y ky Hy By) as [_ [Ly _]].
  destruct (fexp_cases kx) as [Ex1 [Ex2 Ex3]].
  destruct (fexp_cases ky) as [Ey1 [Ey2 Ey3]].
  unfold rounded_value.
  destruct (Z.lt_trichotomy (fexp kx) (fexp ky)) as [H | [H | H]].
  - (* the exponent of [y] is larger: a power of two separates the two *)
    assert (Hk : (kx < ky)%Z).
    { destruct (Z.lt_ge_cases kx ky) as [Hk | Hk]; [exact Hk | ].
      pose proof (fexp_mono ky kx Hk). lia. }
    assert (Ey : fexp ky = (ky - prec)%Z) by lia.
    assert (Hpow : pow2 (ky - 1) <= F2Q (rne (y / pow2 (fexp ky))) (fexp ky)).
    { replace (ky - 1)%Z with (prec - 1 + fexp ky)%Z by lia.
      apply F2Q_ge_pow2; [apply Ly; lia | discriminate]. }
    assert (Hmax : pow2 (Z.max kx (fexp kx)) <= pow2 (ky - 1)).
    { apply pow2_le. unfold F64.prec in *. lia. }
    lra.
  - rewrite H. apply F2Q_le, rne_mono.
    apply Qmult_le_compat_r; [exact Hxy | ].
    apply Qlt_le_weak, Qinv_lt_0_compat, pow2_pos.
  - (* impossible: [x] would be above [y] *)
    exfalso.
    assert (Hk : (ky < kx)%Z).
    { destruct (Z.lt_ge_cases ky kx) as [Hk | Hk]; [exact Hk | ].
      pose proof (fexp_mono kx ky Hk). lia. }
    destruct Bx as [_ [Bx | Bx]]; [ | unfold F64.prec in *; lia].
    destruct By as [By _].
    assert (pow2 ky <= pow2 (kx - 1)) by (apply pow2_le; lia).
    lra.
Qed.

Lemma float_of_pair_le (n1 e1 n2 e2 : Z) :
  canon n1 e1 -> canon n2 e2 -> F2Q n1 e1 <= F2Q n2 e2 ->
  SFleb (float_of_pair n1 e1) (float_of_pair n2 e2) = true.
Proof.
  intros C1 C2 Hv.
  destruct (canon_order n1 e1 n2 e2 C1 C2 Hv) as [He | [He Hn]];
    destruct C1 as [[P1 _] _], C2 as [[P2 _] _];
    destruct n1 as [ | m1 | m1], n2 as [ | m2 | m2]; try lia;
    unfold float_of_pair;
    destruct (e1 <=? emax - prec)%Z eqn:O1, (e2 <=? emax - prec)%Z eqn:O2;
    try reflexivity;
    try (apply Z.leb_le in O2; apply Z.leb_gt in O1; lia);
    unfold SFleb, SFcompare.
  - now rewrite (proj2 (Z.compare_lt_iff e1 e2) He).
  - subst e2. rewrite Z.compare_refl.
    change (Pos.compare_cont Eq m1 m2) with (Pos.compare m1 m2).
    destruct (Pos.compare_spec m1 m2); try reflexivity. lia.
Qed.

Lemma float_of_pair_nonzero (n e : Z) :
  canon n e -> SFleb (S754_zero false) (float_of_pair n e) = true.
Proof.
  intros [[P _] _]. destruct n as [ | m | m]; try lia. unfold float_of_pair.
  destruct (e <=? emax - prec)%Z; reflexivity.
Qed.

(** T2. Rounding is monotone on the floats. *)
Lemma round_at_mono (x y : Q) (kx ky : Z) :
  0 <= x -> x <= y -> binade x kx -> binade y ky ->
  SFleb (round_at kx x) (round_at ky y) = true.
Proof.
  intros Hx Hxy Bx By.
  assert (Hy : 0 <= y) by lra.
  pose proof (rounded_value_mono x y kx ky Hx Hxy Bx By) as Hv.
  destruct (round_at_shape x kx Hx Bx) as [[Vx ->] | [n1 [e1 [C1 [V1 ->]]]]];
    destruct (round_at_shape y ky Hy By) as [[Vy ->] | [n2 [e2 [C2 [V2 ->]]]]].
  - reflexivity.
  - now apply float_of_pair_nonzero.
  - exfalso. pose proof (F2Q_pos n1 e1 (proj1 (proj1 C1))). lra.
  - apply float_of_pair_le; [exact C1 | exact C2 | lra].
Qed.


(** *** The operations as roundings of their exact results *)

Lemma Zdigits2_lower (m a : Z) : (0 <= a)%Z -> (2 ^ a <= m)%Z -> (a + 1 <= Zdigits2 m)%Z.
Proof.
  intros Ha Hm.
  assert (Hpos : (0 < m)%Z) by (pose proof (Z.pow_pos_nonneg 2 a); lia).
  destruct (Zdigits2_bounds m Hpos) as [Hd [_ Hhi]].
  destruct (Z.lt_ge_cases a (Zdigits2 m)) as [H | H]; [lia | exfalso].
  assert (2 ^ Zdigits2 m <= 2 ^ a)%Z by (apply Z.pow_le_mono_r; lia). lia.
Qed.

Lemma binade_of_digits (m e : Z) : (0 < m)%Z -> binade (F2Q m e) (Zdigits2 m + e).
Proof.
  intros Hm. destruct (Zdigits2_bounds m Hm) as [Hd [Hlo Hhi]]. split.
  - apply F2Q_lt_pow2; [exact Hhi | lia].
  - left. replace (Zdigits2 m + e - 1)%Z with (Zdigits2 m - 1 + e)%Z by lia.
    apply F2Q_ge_pow2; [exact Hlo | lia].
Qed.

(** Rounding an exact number [m * 2^e]. *)
Lemma binary_round_aux_exact (m e : Z) :
  (0 < m)%Z -> (e <= fexp (Zdigits2 m + e))%Z ->
  binary_round_aux prec emax false m e loc_Exact = round_at (Zdigits2 m + e) (F2Q m e).
Proof.
  intros Hm He. apply binary_round_aux_round_at; [lia | | exact He].
  cbn [located]. reflexivity.
Qed.

Lemma F2Q_mul (m1 e1 m2 e2 : Z) : F2Q (m1 * m2) (e1 + e2) == F2Q m1 e1 * F2Q m2 e2.
Proof. unfold F2Q. rewrite inject_Z_mult, pow2_add. ring. Qed.

(** The product of two canonical pairs has a mantissa long enough to be
    rounded as it is. *)
Lemma canon_mul_long (m1 e1 m2 e2 : Z) :
  canon m1 e1 -> canon m2 e2 ->
  (e1 + e2 <= fexp (Zdigits2 (m1 * m2) + (e1 + e2)))%Z.
Proof.
  intros [[P1 _] [E1 N1]] [[P2 _] [E2 N2]].
  assert (Hlong : (prec <= Zdigits2 (m1 * m2) \/ e1 + e2 <= emin)%Z).
  { destruct (Z.eq_dec e1 emin) as [Q1 | Q1], (Z.eq_dec e2 emin) as [Q2 | Q2].
    - right. unfold SpecFloat.emin, F64.prec, F64.emax in *. lia.
    - destruct (Z.le_gt_cases e2 0) as [Z2 | Z2]; [right; lia | left].
      assert (2 ^ (prec - 1) <= m1 * m2)%Z by (specialize (N2 ltac:(lia)); nia).
      pose proof (Zdigits2_lower (m1 * m2) (prec - 1) ltac:(discriminate) H). lia.
    - destruct (Z.le_gt_cases e1 0) as [Z1 | Z1]; [right; lia | left].
      assert (2 ^ (prec - 1) <= m1 * m2)%Z by (specialize (N1 ltac:(lia)); nia).
      pose proof (Zdigits2_lower (m1 * m2) (prec - 1) ltac:(discriminate) H). lia.
    - left. specialize (N1 ltac:(lia)). specialize (N2 ltac:(lia)).
      assert (2 ^ (prec - 1) <= m1 * m2)%Z by nia.
      pose proof (Zdigits2_lower (m1 * m2) (prec - 1) ltac:(discriminate) H). lia. }
  unfold SpecFloat.fexp. lia.
Qed.

(** T4, multiplication. *)
Lemma mul_finite (m1 : positive) (e1 : Z) (m2 : positive) (e2 : Z) :
  valid_binary prec emax (S754_finite false m1 e1) = true ->
  valid_binary prec emax (S754_finite false m2 e2) = true ->
  let x := F2Q (Zpos m1) e1 * F2Q (Zpos m2) e2 in
  let k := (Zdigits2 (Zpos m1 * Zpos m2) + (e1 + e2))%Z in
  F64.mul (S754_finite false m1 e1) (S754_finite false m2 e2) = round_at k x
  /\ binade x k /\ 0 <= x.
Proof.
  intros V1 V2 x k.
  destruct (valid_canon m1 e1 V1) as [C1 _]. destruct (valid_canon m2 e2 V2) as [C2 _].
  assert (Hx : x == F2Q (Zpos m1 * Zpos m2) (e1 + e2)) by (unfold x; now rewrite F2Q_mul).
  split; [ | split].
  - unfold F64.mul, SFmul. cbn [xorb].
    change (Zpos (m1 * m2)) with (Zpos m1 * Zpos m2)%Z.
    rewrite binary_round_aux_exact; [ | lia | now apply canon_mul_long].
    unfold round_at. now rewrite Hx.
  - unfold binade. rewrite Hx. apply binade_of_digits. lia.
  - rewrite Hx. apply Qlt_le_weak, F2Q_pos. lia.
Qed.


Lemma located_bounds (x : Q) (m e : Z) (l : location) :
  located x m e l -> F2Q m e <= x /\ x < F2Q (m + 1) e.
Proof.
  pose proof (pow2_pos e) as Hu.
  destruct l as [ | c]; cbn [located].
  - intros ->. rewrite F2Q_succ. split; lra.
  - intros [H1 [H2 _]]. split; lra.
Qed.

Lemma pow2_lt_inv (a b : Z) : pow2 a < pow2 b -> (a < b)%Z.
Proof.
  intros H. destruct (Z.lt_ge_cases a b) as [Hab | Hab]; [exact Hab | exfalso].
  pose proof (pow2_le b a Hab). lra.
Qed.

Lemma new_location_spec (m2 r : Z) :
  (0 <= r < m2)%Z ->
  match new_location m2 r with
  | loc_Exact => r = 0%Z
  | loc_Inexact Lt => (0 < r /\ 2 * r < m2)%Z
  | loc_Inexact Eq => (0 < r /\ 2 * r = m2)%Z
  | loc_Inexact Gt => (0 < r /\ m2 < 2 * r)%Z
  end.
Proof.
  intros Hr. unfold new_location, new_location_even, new_location_odd.
  destruct (Z.even m2) eqn:Hev.
  - destruct (Z.eqb_spec r 0) as [-> | Hne]; [reflexivity | ].
    destruct (Z.compare_spec (2 * r) m2); lia.
  - destruct (Z.eqb_spec r 0) as [-> | Hne]; [reflexivity | ].
    assert (Hodd : m2 <> (2 * r)%Z).
    { intros ->. rewrite Z.even_mul in Hev. discriminate. }
    destruct (Z.compare_spec (2 * r + 1) m2); lia.
Qed.

(** T4, the core of the division: the quotient of [m1 * 2^e1] by
    [m2 * 2^e2] is located by what [SFdiv_core_binary] returns, with a
    mantissa long enough. *)
Lemma div_core_located (m1 e1 m2 e2 : Z) :
  (0 < m1)%Z -> (0 < m2)%Z ->
  let x := F2Q m1 e1 / F2Q m2 e2 in
  let '(q, e', l) := SFdiv_core_binary prec emax m1 e1 m2 e2 in
  (0 <= q)%Z /\ located x q e' l /\
  (e' <= fexp (Zdigits2 q + e'))%Z /\ binade x (Zdigits2 q + e') /\ 0 < x.
Proof.
  intros H1 H2 x. unfold SFdiv_core_binary.
  destruct (Zdigits2_bounds m1 H1) as [D1 [L1 U1]].
  destruct (Zdigits2_bounds m2 H2) as [D2 [L2 U2]].
  set (k0 := (Zdigits2 m1 + e1 - (Zdigits2 m2 + e2))%Z).
  set (e' := Z.min (fexp k0) (e1 - e2)).
  set (s := (e1 - e2 - e')%Z).
  assert (Hs : (0 <= s)%Z) by (unfold s, e'; lia).
  set (m' := match s with Zpos _ => Z.shiftl m1 s | Z0 => m1 | Zneg _ => 0%Z end).
  assert (Hm' : m' = (m1 * 2 ^ s)%Z).
  { unfold m'. destruct s as [ | p | p]; [rewrite Z.pow_0_r; lia | | lia].
    apply Z.shiftl_mul_pow2. lia. }
  pose proof (Z_div_mod m' m2 ltac:(lia)) as Hdiv.
  destruct (Z.div_eucl m' m2) as [q r]. destruct Hdiv as [Hqr Hr].
  assert (Hq : (0 <= q)%Z).
  { assert (0 < 2 ^ s)%Z by (apply Z.pow_pos_nonneg; lia). nia. }
  (* the quotient, on rationals *)
  pose proof (pow2_pos e') as Ht. pose proof (pow2_pos e2) as Hu2.
  assert (HB : 0 < inject_Z m2) by (change 0 with (inject_Z 0); now apply (proj1 (inject_Z_lt 0 m2))).
  assert (HD : 0 < F2Q m2 e2) by now apply F2Q_pos.
  assert (HN : 0 < F2Q m1 e1) by now apply F2Q_pos.
  assert (Hx0 : 0 < x) by (unfold x; apply Qlt_shift_div_l; [exact HD | lra]).
  assert (Hxd : x * F2Q m2 e2 == F2Q m1 e1) by (unfold x; field; lra).
  assert (KE : x * inject_Z m2 == (inject_Z m2 * inject_Z q + inject_Z r) * pow2 e').
  { assert (E1 : F2Q m1 e1 == (inject_Z m2 * inject_Z q + inject_Z r) * pow2 e' * pow2 e2).
    { rewrite <- inject_Z_mult, <- inject_Z_plus, <- Hqr, Hm'.
      unfold F2Q. rewrite inject_Z_mult, <- (pow2_Z s Hs).
      replace e1 with (s + e' + e2)%Z at 1 by (unfold s; lia).
      rewrite !pow2_add. ring. }
    rewrite E1 in Hxd. unfold F2Q in Hxd.
    apply (Qmult_inj_r _ _ (pow2 e2)); [lra | ]. rewrite <- Hxd. ring. }
  assert (HR : 0 <= inject_Z r < inject_Z m2).
  { split; [change 0 with (inject_Z 0); apply (proj1 (inject_Z_le 0 r)) |
            apply (proj1 (inject_Z_lt r m2))]; lia. }
  assert (Hloc : located x q e' (new_location m2 r)).
  { pose proof (new_location_spec m2 r Hr) as Hnl.
    destruct (new_location m2 r) as [ | c]; cbn [located].
    - subst r. change (inject_Z 0) with 0 in KE. unfold F2Q.
      apply (Qmult_inj_r _ _ (inject_Z m2)); [lra | ]. rewrite KE. ring.
    - assert (Hr0 : 0 < inject_Z r).
      { change 0 with (inject_Z 0). apply (proj1 (inject_Z_lt 0 r)). destruct c; lia. }
      unfold F2Q. rewrite !inject_Z_plus, !inject_Z_mult.
      change (inject_Z 1) with 1. change (inject_Z 2) with 2.
      set (B := inject_Z m2) in *. set (Qq := inject_Z q) in *.
      set (R := inject_Z r) in *. set (t := pow2 e') in *.
      assert (Hc : cmp_spec c (2 * R) B).
      { unfold R, B. change 2 with (inject_Z 2). rewrite <- inject_Z_mult.
        destruct c; cbn [cmp_spec].
        - destruct Hnl as [_ <-]. reflexivity.
        - apply (proj1 (inject_Z_lt _ _)). lia.
        - apply (proj1 (inject_Z_lt _ _)). lia. }
      repeat split.
      + apply (Qmult_lt_r _ _ B); [exact HB | ]. rewrite KE. nra.
      + apply (Qmult_lt_r _ _ B); [exact HB | ]. rewrite KE. nra.
      + destruct c; cbn [cmp_spec] in *.
        * apply (Qmult_inj_r _ _ B); [lra | ].
          setoid_replace (2 * x * B) with (2 * (x * B)) by ring. rewrite KE. nra.
        * apply (Qmult_lt_r _ _ B); [exact HB | ].
          setoid_replace (2 * x * B) with (2 * (x * B)) by ring. rewrite KE. nra.
        * apply (Qmult_lt_r _ _ B); [exact HB | ].
          setoid_replace (2 * x * B) with (2 * (x * B)) by ring. rewrite KE. nra. }
  destruct (located_bounds x q e' _ Hloc) as [Blo Bhi].
  (* the quotient is above [2^(k0 - 1)] *)
  assert (Hk0 : pow2 (k0 - 1) < x).
  { assert (A1 : pow2 (Zdigits2 m1 - 1 + e1) <= F2Q m1 e1) by (apply F2Q_ge_pow2; lia).
    assert (A2 : F2Q m2 e2 < pow2 (Zdigits2 m2 + e2)) by (apply F2Q_lt_pow2; lia).
    assert (A3 : pow2 (k0 - 1) * pow2 (Zdigits2 m2 + e2) == pow2 (Zdigits2 m1 - 1 + e1)).
    { rewrite <- pow2_add. apply pow2_proper. unfold k0. lia. }
    pose proof (pow2_pos (k0 - 1)) as P0.
    apply (Qmult_lt_r _ _ (F2Q m2 e2)); [exact HD | ]. rewrite Hxd. nra. }
  assert (Hfk : (e' <= fexp k0)%Z) by (unfold e'; lia).
  split; [exact Hq | split; [exact Hloc | ]].
  destruct (Z.eq_dec q 0) as [-> | Hq0].
  - cbn [Zdigits2]. rewrite F2Q_one in Bhi.
    assert (Hke : (k0 - 1 < e')%Z) by (apply pow2_lt_inv; lra).
    assert (Hemin : (e' <= emin)%Z).
    { revert Hfk. unfold SpecFloat.fexp, F64.prec. lia. }
    split; [unfold SpecFloat.fexp; lia | split; [ | exact Hx0]].
    split; [exact Bhi | right; lia].
  - assert (Hqp : (0 < q)%Z) by lia.
    destruct (Zdigits2_bounds q Hqp) as [Dq [Lq Uq]].
    assert (Ux : x < pow2 (Zdigits2 q + e')).
    { apply Qlt_le_trans with (F2Q (q + 1) e'); [exact Bhi | ].
      rewrite <- F2Q_pow2 by lia. apply F2Q_le. lia. }
    assert (Lx : pow2 (Zdigits2 q + e' - 1) <= x).
    { apply Qle_trans with (F2Q q e'); [ | exact Blo].
      replace (Zdigits2 q + e' - 1)%Z with (Zdigits2 q - 1 + e')%Z by lia.
      apply F2Q_ge_pow2; lia. }
    assert (Hke : (k0 - 1 < Zdigits2 q + e')%Z) by (apply pow2_lt_inv; lra).
    split; [ | split; [split; [exact Ux | left; exact Lx] | exact Hx0]].
    pose proof (fexp_mono k0 (Zdigits2 q + e') ltac:(lia)). lia.
Qed.


(** T4, division of two valid positive finite floats. *)
Lemma div_finite (m1 : positive) (e1 : Z) (m2 : positive) (e2 : Z) :
  exists k,
    F64.div (S754_finite false m1 e1) (S754_finite false m2 e2)
      = round_at k (F2Q (Zpos m1) e1 / F2Q (Zpos m2) e2)
    /\ binade (F2Q (Zpos m1) e1 / F2Q (Zpos m2) e2) k.
Proof.
  pose proof (div_core_located (Zpos m1) e1 (Zpos m2) e2 ltac:(lia) ltac:(lia)) as H.
  cbv zeta in H. unfold F64.div, SFdiv. cbn [xorb].
  destruct (SFdiv_core_binary prec emax (Zpos m1) e1 (Zpos m2) e2) as [[q e'] l].
  destruct H as [Hq [Hl [He [Hb _]]]].
  exists (Zdigits2 q + e')%Z. split; [ | exact Hb].
  now apply binary_round_aux_round_at.
Qed.

(** T4, true division of two positive integers. *)
Lemma div_Z_pos (a b : Z) :
  (0 < a)%Z -> (0 < b)%Z ->
  exists k, F64.div_Z a b = round_at k (inject_Z a / inject_Z b)
            /\ binade (inject_Z a / inject_Z b) k.
Proof.
  intros Ha Hb.
  pose proof (div_core_located a 0 b 0 Ha Hb) as H. cbv zeta in H.
  unfold F64.div_Z.
  assert (Hs : xorb (a <? 0)%Z (b <? 0)%Z = false).
  { rewrite (proj2 (Z.ltb_ge a 0)), (proj2 (Z.ltb_ge b 0)) by lia. reflexivity. }
  rewrite Hs, (Z.abs_eq a), (Z.abs_eq b) by lia.
  destruct a as [ | pa | pa]; try lia.
  destruct (SFdiv_core_binary prec emax (Zpos pa) 0 b 0) as [[q e'] l].
  destruct H as [Hq [Hl [He [Hbin _]]]].
  assert (Hx : F2Q (Zpos pa) 0 / F2Q b 0 == inject_Z (Zpos pa) / inject_Z b).
  { unfold F2Q, pow2. cbn [Qpower]. now rewrite !Qmult_1_r. }
  exists (Zdigits2 q + e')%Z. split.
  - rewrite (binary_round_aux_round_at _ q e' l Hq Hl He).
    unfold round_at. now rewrite Hx.
  - unfold binade in *. now rewrite <- Hx.
Qed.

Lemma iter_xO (m d : positive) : Zpos (Pos.iter xO m d) = (Zpos m * 2 ^ Zpos d)%Z.
Proof.
  induction d as [ | d IH] using Pos.peano_ind.
  - cbn [Pos.iter]. lia.
  - rewrite Pos.iter_succ, Pos2Z.inj_xO, IH, Pos2Z.inj_succ, Z.pow_succ_r by lia. lia.
Qed.

Lemma Zdigits2_shift (m d : Z) :
  (0 < m)%Z -> (0 <= d)%Z -> Zdigits2 (m * 2 ^ d) = (Zdigits2 m + d)%Z.
Proof.
  intros Hm Hd. destruct (Zdigits2_bounds m Hm) as [D [L U]].
  assert (P : (0 < 2 ^ d)%Z) by (apply Z.pow_pos_nonneg; lia).
  apply Zdigits2_unique; [ | nia | lia].
  replace (Zdigits2 m + d - 1)%Z with (Zdigits2 m - 1 + d)%Z by lia.
  rewrite !Z.pow_add_r by lia. nia.
Qed.

(** T4, conversion of a positive integer: [binary_round] aligns and rounds. *)
Lemma binary_round_pos (m : positive) (e : Z) :
  binary_round prec emax false m e = round_at (Zdigits2 (Zpos m) + e) (F2Q (Zpos m) e).
Proof.
  unfold binary_round, shl_align.
  change (Zpos (digits2_pos m)) with (Zdigits2 (Zpos m)).
  set (e' := fexp (Zdigits2 (Zpos m) + e)).
  destruct (e' - e)%Z as [ | d | d] eqn:Hd.
  - rewrite binary_round_aux_exact; [reflexivity | lia | fold e'; lia].
  - rewrite binary_round_aux_exact; [reflexivity | lia | fold e'; lia].
  - rewrite iter_xO.
    assert (Hdig : (Zdigits2 (Zpos m * 2 ^ Zpos d) + e' = Zdigits2 (Zpos m) + e)%Z).
    { rewrite Zdigits2_shift by lia. lia. }
    rewrite binary_round_aux_exact; [ | | rewrite Hdig; fold e'; lia].
    2:{ assert (0 < 2 ^ Zpos d)%Z by (apply Z.pow_pos_nonneg; lia). nia. }
    rewrite Hdig. unfold round_at.
    assert (Hv : F2Q (Zpos m * 2 ^ Zpos d) e' == F2Q (Zpos m) e).
    { assert (Hp : pow2 e == pow2 (Zpos d) * pow2 e').
      { rewrite <- pow2_add. apply pow2_proper. lia. }
      unfold F2Q. rewrite inject_Z_mult, <- pow2_Z, Hp by lia. ring. }
    now rewrite Hv.
Qed.

Lemma of_Z_pos (z : Z) :
  (0 < z)%Z ->
  F64.of_Z z = round_at (Zdigits2 z) (inject_Z z) /\ binade (inject_Z z) (Zdigits2 z).
Proof.
  intros Hz. destruct z as [ | m | m]; try lia.
  assert (Hv : F2Q (Zpos m) 0 == inject_Z (Zpos m)).
  { unfold F2Q, pow2. cbn [Qpower]. now rewrite Qmult_1_r. }
  split.
  - unfold F64.of_Z, binary_normalize. rewrite binary_round_pos, Z.add_0_r.
    unfold round_at. now rewrite Hv.
  - pose proof (binade_of_digits (Zpos m) 0 ltac:(lia)) as B.
    rewrite Z.add_0_r in B. unfold binade in *. now rewrite <- Hv.
Qed.


(** *** Order and closure on the floats of the chain *)

Lemma canon_valid (m : positive) (e : Z) :
  canon (Zpos m) e -> (e <= emax - prec)%Z ->
  valid_binary prec emax (S754_finite false m e) = true.
Proof.
  intros C He. cbn [valid_binary]. unfold bounded, canonical_mantissa.
  change (Zpos (digits2_pos m)) with (Zdigits2 (Zpos m)).
  rewrite (canon_digits _ _ C), Z.eqb_refl. now apply Z.leb_le.
Qed.

Lemma round_at_nonneg_valid (x : Q) (k : Z) :
  0 <= x -> binade x k -> nonneg_valid (round_at k x) = true.
Proof.
  intros Hx Hb.
  destruct (round_at_shape x k Hx Hb) as [[_ ->] | [n [e [C [_ ->]]]]]; [reflexivity | ].
  pose proof C as [[P _] _]. destruct n as [ | m | m]; try lia.
  unfold float_of_pair. destruct (e <=? emax - prec)%Z eqn:O; [ | reflexivity].
  cbn [nonneg_valid]. apply canon_valid; [exact C | now apply Z.leb_le].
Qed.

Lemma SFleb_value (m1 : positive) (e1 : Z) (m2 : positive) (e2 : Z) :
  valid_binary prec emax (S754_finite false m1 e1) = true ->
  valid_binary prec emax (S754_finite false m2 e2) = true ->
  SFleb (S754_finite false m1 e1) (S754_finite false m2 e2) = true ->
  F2Q (Zpos m1) e1 <= F2Q (Zpos m2) e2.
Proof.
  intros V1 V2. destruct (valid_canon _ _ V1) as [C1 _]. destruct (valid_canon _ _ V2) as [C2 _].
  unfold SFleb, SFcompare.
  destruct (Z.compare_spec e1 e2) as [-> | He | He]; [ | | discriminate].
  - change (Pos.compare_cont Eq m1 m2) with (Pos.compare m1 m2).
    destruct (Pos.compare_spec m1 m2); intros; try discriminate; apply F2Q_le; lia.
  - intros _. apply Qlt_le_weak. now apply canon_exponent_lt.
Qed.

Lemma SFleb_zero_nonneg (f : F64.float) :
  nonneg_valid f = true -> SFleb (S754_zero false) f = true.
Proof. destruct f as [[] | [] | | [] m e]; try discriminate; reflexivity. Qed.

Lemma SFleb_nonneg_inf (f : F64.float) :
  nonneg_valid f = true -> SFleb f (S754_infinity false) = true.
Proof. destruct f as [[] | [] | | [] m e]; try discriminate; reflexivity. Qed.

Lemma SFleb_inf_inv (f : F64.float) :
  nonneg_valid f = true -> SFleb (S754_infinity false) f = true -> f = S754_infinity false.
Proof. destruct f as [[] | [] | | [] m e]; try discriminate; reflexivity. Qed.

Lemma SFleb_zero_inv (f : F64.float) :
  nonneg_valid f = true -> SFleb f (S754_zero false) = true -> f = S754_zero false.
Proof. destruct f as [[] | [] | | [] m e]; try discriminate; reflexivity. Qed.

Lemma SFleb_refl (f : F64.float) : nonneg_valid f = true -> SFleb f f = true.
Proof.
  destruct f as [[] | [] | | [] m e]; try discriminate; try reflexivity.
  intros _. unfold SFleb, SFcompare. rewrite Z.compare_refl.
  change (Pos.compare_cont Eq m m) with (Pos.compare m m). now rewrite Pos.compare_refl.
Qed.

(** A product of two floats of the chain is NaN or a float of the chain. *)
Lemma mul_nonneg (a b : F64.float) :
  nonneg_valid a = true -> nonneg_valid b = true ->
  F64.is_nan (F64.mul a b) = true \/ nonneg_valid (F64.mul a b) = true.
Proof.
  destruct a as [[] | [] | | [] m1 e1]; try discriminate;
    destruct b as [[] | [] | | [] m2 e2]; try discriminate;
    cbn [nonneg_valid]; intros Va Vb; try (left; reflexivity); try (right; reflexivity).
  right. destruct (mul_finite m1 e1 m2 e2 Va Vb) as [-> [Hb Hx]].
  now apply round_at_nonneg_valid.
Qed.

(** Multiplication is monotone in its first argument. *)
Lemma mul_mono_l (a a' b : F64.float) :
  nonneg_valid a = true -> nonneg_valid a' = true -> nonneg_valid b = true ->
  SFleb a a' = true ->
  F64.is_nan (F64.mul a b) = true \/ F64.is_nan (F64.mul a' b) = true \/
  SFleb (F64.mul a b) (F64.mul a' b) = true.
Proof.
  intros Va Va' Vb Hle.
  destruct (mul_nonneg a b Va Vb) as [N | P]; [now left | ].
  destruct (mul_nonneg a' b Va' Vb) as [N' | P']; [now right; left | ].
  right; right.
  destruct b as [[] | [] | | [] m2 e2]; try discriminate.
  - (* b = 0 *)
    destruct a as [[] | [] | | [] m1 e1]; try discriminate;
      destruct a' as [[] | [] | | [] m1' e1']; try discriminate; reflexivity.
  - (* b = inf *)
    destruct a as [[] | [] | | [] m1 e1]; try discriminate;
      destruct a' as [[] | [] | | [] m1' e1']; try discriminate; reflexivity.
  - (* b finite *)
    destruct a as [[] | [] | | [] m1 e1]; try discriminate.
    + change (F64.mul (S754_zero false) (S754_finite false m2 e2)) with (S754_zero false).
      now apply SFleb_zero_nonneg.
    + rewrite (SFleb_inf_inv a' Va' Hle). apply SFleb_refl. reflexivity.
    + destruct a' as [[] | [] | | [] m1' e1']; try discriminate.
      * change (F64.mul (S754_infinity false) (S754_finite false m2 e2))
          with (S754_infinity false).
        now apply SFleb_nonneg_inf.
      * cbn [nonneg_valid] in Va, Va', Vb.
        destruct (mul_finite m1 e1 m2 e2 Va Vb) as [-> [B1 X1]].
        destruct (mul_finite m1' e1' m2 e2 Va' Vb) as [-> [B2 X2]].
        apply round_at_mono; [exact X1 | | exact B1 | exact B2].
        apply Qmult_le_compat_r; [now apply SFleb_value | ].
        apply Qlt_le_weak, F2Q_pos. lia.
Qed.

Lemma mul_comm (a b : F64.float) : F64.mul a b = F64.mul b a.
Proof.
  unfold F64.mul, SFmul.
  destruct a as [s1 | s1 | | s1 m1 e1], b as [s2 | s2 | | s2 m2 e2];
    rewrite ?(xorb_comm s1 s2); try reflexivity.
  now rewrite (Pos.mul_comm m1 m2), (Z.add_comm e1 e2).
Qed.

(** Division by a valid positive finite float keeps the chain and is
    monotone. *)
Lemma div_nonneg (a d : F64.float) :
  nonneg_valid a = true -> Round.positive_valid d = true -> F64.is_finite d = true ->
  nonneg_valid (F64.div a d) = true.
Proof.
  intros Va Vd Fd.
  destruct d as [[] | [] | | [] m2 e2]; try discriminate.
  destruct a as [[] | [] | | [] m1 e1]; try discriminate; try reflexivity.
  destruct (div_finite m1 e1 m2 e2) as [k [-> Hb]].
  apply round_at_nonneg_valid; [ | exact Hb].
  apply Qlt_le_weak, Qlt_shift_div_l; [apply F2Q_pos; lia | ].
  rewrite Qmult_0_l. apply F2Q_pos. lia.
Qed.

Lemma div_mono_l (a a' d : F64.float) :
  nonneg_valid a = true -> nonneg_valid a' = true ->
  Round.positive_valid d = true -> F64.is_finite d = true ->
  SFleb a a' = true -> SFleb (F64.div a d) (F64.div a' d) = true.
Proof.
  intros Va Va' Vd Fd Hle.
  pose proof (div_nonneg a d Va Vd Fd) as P.
  pose proof (div_nonneg a' d Va' Vd Fd) as P'.
  destruct d as [[] | [] | | [] m2 e2]; try discriminate.
  destruct a as [[] | [] | | [] m1 e1]; try discriminate.
  - change (F64.div (S754_zero false) (S754_finite false m2 e2)) with (S754_zero false).
    now apply SFleb_zero_nonneg.
  - rewrite (SFleb_inf_inv a' Va' Hle). reflexivity.
  - destruct a' as [[] | [] | | [] m1' e1']; try discriminate.
    + change (F64.div (S754_infinity false) (S754_finite false m2 e2))
        with (S754_infinity false).
      now apply SFleb_nonneg_inf.
    + cbn [nonneg_valid] in Va, Va'.
      assert (HD : 0 < F2Q (Zpos m2) e2) by (apply F2Q_pos; lia).
      destruct (div_finite m1 e1 m2 e2) as [k [-> B1]].
      destruct (div_finite m1' e1' m2 e2) as [k' [-> B2]].
      apply round_at_mono; [ | | exact B1 | exact B2].
      * apply Qlt_le_weak, Qlt_shift_div_l; [exact HD | ].
        rewrite Qmult_0_l. apply F2Q_pos. lia.
      * apply Qmult_le_compat_r; [now apply SFleb_value | ].
        apply Qlt_le_weak, Qinv_lt_0_compat, HD.
Qed.

End RoundFacts.

(** ** The chain is monotone *)

Module ChainFacts.
Import Round RoundFacts.

Lemma of_Z_nonneg (z : Z) : 0 <= z -> nonneg_valid (F64.of_Z z) = true.
Proof.
  intros Hz. destruct (Z.eq_dec z 0) as [-> | Hne]; [reflexivity | ].
  destruct (of_Z_pos z ltac:(lia)) as [-> Hb].
  apply round_at_nonneg_valid; [ | exact Hb].
  change 0%Q with (inject_Z 0). apply (proj1 (inject_Z_le 0 z)). lia.
Qed.

Lemma of_Z_mono (z z' : Z) : 0 <= z <= z' -> SFleb (F64.of_Z z) (F64.of_Z z') = true.
Proof.
  intros Hz. destruct (Z.eq_dec z 0) as [-> | Hne].
  - apply SFleb_zero_nonneg, of_Z_nonneg. lia.
  - destruct (of_Z_pos z ltac:(lia)) as [-> Hb].
    destruct (of_Z_pos z' ltac:(lia)) as [-> Hb'].
    apply round_at_mono; [ | | exact Hb | exact Hb'].
    + change 0%Q with (inject_Z 0). apply (proj1 (inject_Z_le 0 z)). lia.
    + apply (proj1 (inject_Z_le z z')). lia.
Qed.

Lemma div_Z_nonneg (a b : Z) : 0 <= a -> 0 < b -> nonneg_valid (F64.div_Z a b) = true.
Proof.
  intros Ha Hb. destruct (Z.eq_dec a 0) as [-> | Hne].
  - unfold F64.div_Z. rewrite (proj2 (Z.ltb_ge b 0)) by lia. reflexivity.
  - destruct (div_Z_pos a b ltac:(lia) Hb) as [k [-> Hbin]].
    apply round_at_nonneg_valid; [ | exact Hbin].
    apply Qle_shift_div_l.
    + change 0%Q with (inject_Z 0). apply (proj1 (inject_Z_lt 0 b)). lia.
    + rewrite Qmult_0_l. change 0%Q with (inject_Z 0). apply (proj1 (inject_Z_le 0 a)). lia.
Qed.

Lemma div_Z_mono (a a' b : Z) :
  0 <= a <= a' -> 0 < b -> SFleb (F64.div_Z a b) (F64.div_Z a' b) = true.
Proof.
  intros Ha Hb. destruct (Z.eq_dec a 0) as [-> | Hne].
  - replace (F64.div_Z 0 b) with (S754_zero false).
    + apply SFleb_zero_nonneg, div_Z_nonneg; lia.
    + unfold F64.div_Z. rewrite (proj2 (Z.ltb_ge b 0)) by lia. reflexivity.
  - assert (HB : (0 < inject_Z b)%Q).
    { change 0%Q with (inject_Z 0). apply (proj1 (inject_Z_lt 0 b)). lia. }
    destruct (div_Z_pos a b ltac:(lia) Hb) as [k [-> Hbin]].
    destruct (div_Z_pos a' b ltac:(lia) Hb) as [k' [-> Hbin']].
    apply round_at_mono; [ | | exact Hbin | exact Hbin'].
    + apply Qle_shift_div_l; [exact HB | ].
      rewrite Qmult_0_l. change 0%Q with (inject_Z 0). apply (proj1 (inject_Z_le 0 a)). lia.
    + apply Qmult_le_compat_r.
      * apply (proj1 (inject_Z_le a a')). lia.
      * apply Qlt_le_weak, Qinv_lt_0_compat, HB.
Qed.


(** *** The operations on the numbers of the chain *)

Lemma to_float_chain (x : number) (f : F64.float) :
  chain_or_nan x = true -> to_float x = Ok f ->
  F64.is_nan f = true \/ nonneg_valid f = true.
Proof.
  destruct x as [z | g]; cbn [to_float chain_or_nan number_is_nan chain_number orb].
  - intros Hz. unfold int_to_float. cbv zeta.
    destruct (F64.is_inf (F64.of_Z z)); [discriminate | ].
    intros [= <-]. right. apply of_Z_nonneg. now apply Z.leb_le.
  - intros H [= <-]. apply orb_prop in H. exact H.
Qed.

Lemma mul_nan_l (f g : F64.float) : F64.is_nan f = true -> F64.mul f g = S754_nan.
Proof. destruct f; try discriminate. reflexivity. Qed.

Lemma mul_nan_r (f g : F64.float) : F64.is_nan g = true -> F64.mul f g = S754_nan.
Proof. intros H. rewrite mul_comm. now apply mul_nan_l. Qed.

Lemma div_nan_l (f g : F64.float) : F64.is_nan f = true -> F64.div f g = S754_nan.
Proof. destruct f; try discriminate. reflexivity. Qed.

Lemma number_mul_comm (x y : number) : number_mul x y = number_mul y x.
Proof.
  destruct x as [a | f], y as [b | g]; cbn [number_mul to_float bind].
  - now rewrite Z.mul_comm.
  - destruct (int_to_float a); cbn [bind]; [now rewrite mul_comm | reflexivity].
  - destruct (int_to_float b); cbn [bind]; [now rewrite mul_comm | reflexivity].
  - now rewrite mul_comm.
Qed.

(** The product of two numbers of the chain, when there is one, is NaN or a
    number of the chain. *)
Lemma number_mul_closed (x y w : number) :
  chain_or_nan x = true -> chain_or_nan y = true ->
  number_mul x y = Ok w -> chain_or_nan w = true.
Proof.
  intros Cx Cy.
  destruct x as [a | f], y as [b | g];
    try (cbn [number_mul]; cbn [chain_or_nan number_is_nan chain_number orb] in Cx, Cy;
         intros [= <-]; cbn [chain_or_nan number_is_nan chain_number orb];
         apply Z.leb_le in Cx, Cy; apply Z.leb_le; now apply Z.mul_nonneg_nonneg).
  all: unfold number_mul;
    destruct (to_float _) as [fx | ] eqn:Ex in |- *; cbn [bind]; [ | discriminate];
    destruct (to_float _) as [fy | ] eqn:Ey in |- *; cbn [bind]; [ | discriminate];
    intros [= <-]; unfold chain_or_nan; cbn [number_is_nan chain_number];
    destruct (to_float_chain _ _ Cx Ex) as [Nx | Vx];
      [rewrite (mul_nan_l _ _ Nx); reflexivity | ];
    destruct (to_float_chain _ _ Cy Ey) as [Ny | Vy];
      [rewrite (mul_nan_r _ _ Ny); reflexivity | ];
    destruct (mul_nonneg fx fy Vx Vy) as [-> | ->]; [reflexivity | apply orb_true_r].
Qed.


Lemma nonneg_valid_not_nan (f : F64.float) : nonneg_valid f = true -> F64.is_nan f = false.
Proof. destruct f as [[] | [] | | [] m e]; try discriminate; reflexivity. Qed.

Lemma SFleb_not_nan (f g : F64.float) :
  SFleb f g = true -> F64.is_nan f = false /\ F64.is_nan g = false.
Proof.
  destruct f as [s | s | | s m e], g as [s' | s' | | s' m' e'];
    try discriminate; split; reflexivity.
Qed.

Lemma chain_float (f : F64.float) :
  chain_or_nan (NFloat f) = true -> F64.is_nan f = false -> nonneg_valid f = true.
Proof.
  unfold chain_or_nan. cbn [number_is_nan chain_number]. intros H N. now rewrite N in H.
Qed.

(** Two numbers in order are, as floats, NaN or two floats in order. *)
Lemma to_float_related (x x' : number) (f f' : F64.float) :
  related x x' -> to_float x = Ok f -> to_float x' = Ok f' ->
  F64.is_nan f = true \/ F64.is_nan f' = true \/
  (nonneg_valid f = true /\ nonneg_valid f' = true /\ SFleb f f' = true).
Proof.
  intros [Cx [Cx' R]] E E'.
  destruct (to_float_chain x f Cx E) as [N | V]; [now left | ].
  destruct (to_float_chain x' f' Cx' E') as [N' | V']; [now right; left | ].
  right; right. split; [exact V | split; [exact V' | ]].
  pose proof (nonneg_valid_not_nan f V) as Nf.
  pose proof (nonneg_valid_not_nan f' V') as Nf'.
  destruct x as [a | g], x' as [a' | g']; cbn [to_float number_is_nan number_le] in *.
  - destruct R as [R | [R | R]]; try discriminate.
    revert E E'. unfold int_to_float. cbv zeta.
    destruct (F64.is_inf (F64.of_Z a)); [discriminate | ].
    destruct (F64.is_inf (F64.of_Z a')); [discriminate | ].
    intros [= <-] [= <-]. apply of_Z_mono.
    cbn [chain_or_nan number_is_nan chain_number orb] in Cx.
    apply Z.leb_le in Cx, R. lia.
  - injection E' as <-. destruct R as [R | [R | R]]; congruence.
  - injection E as <-. destruct R as [R | [R | R]]; congruence.
  - injection E as <-. injection E' as <-.
    destruct R as [R | [R | R]]; [congruence | congruence | exact R].
Qed.

Lemma float_product_related (fx fx' fy : F64.float) :
  F64.is_nan fx = true \/ F64.is_nan fx' = true \/
  (nonneg_valid fx = true /\ nonneg_valid fx' = true /\ SFleb fx fx' = true) ->
  F64.is_nan fy = true \/ nonneg_valid fy = true ->
  number_is_nan (NFloat (F64.mul fx fy)) = true \/
  number_is_nan (NFloat (F64.mul fx' fy)) = true \/
  number_le (NFloat (F64.mul fx fy)) (NFloat (F64.mul fx' fy)) = true.
Proof.
  cbn [number_is_nan number_le].
  intros [N | [N | [V [V' L]]]] [Ny | Vy];
    try (left; now rewrite mul_nan_l);
    try (right; left; now rewrite mul_nan_l);
    try (left; now rewrite mul_nan_r).
  now apply mul_mono_l.
Qed.

(** Multiplication is monotone in its first argument on the numbers of the
    chain. *)
Lemma number_mul_mono_l (x x' y w w' : number) :
  related x x' -> chain_or_nan y = true ->
  number_mul x y = Ok w -> number_mul x' y = Ok w' -> related w w'.
Proof.
  intros R Cy E E'. pose proof R as [Cx [Cx' Ord]].
  split; [exact (number_mul_closed x y w Cx Cy E) | ].
  split; [exact (number_mul_closed x' y w' Cx' Cy E') | ].
  assert (Float : forall fx fx' fy,
             to_float x = Ok fx -> to_float x' = Ok fx' -> to_float y = Ok fy ->
             w = NFloat (F64.mul fx fy) -> w' = NFloat (F64.mul fx' fy) ->
             number_is_nan w = true \/ number_is_nan w' = true \/ number_le w w' = true).
  { intros fx fx' fy Ex Ex' Ey -> ->.
    apply float_product_related; [exact (to_float_related x x' fx fx' R Ex Ex') | ].
    exact (to_float_chain y fy Cy Ey). }
  destruct x as [a | f], x' as [a' | f'], y as [b | g];
    cbn [number_mul number_is_nan number_le] in E, E', Ord.
  - (* three [int]s: the exact products *)
    injection E as <-. injection E' as <-. right; right. cbn [number_le].
    destruct Ord as [Ord | [Ord | Ord]]; try discriminate.
    cbn [chain_or_nan number_is_nan chain_number orb] in Cx, Cy.
    apply Z.leb_le in Cx, Cy, Ord. apply Z.leb_le. now apply Z.mul_le_mono_nonneg_r.
  - destruct (to_float (NInt a)) as [fx | ] eqn:Ex; cbn [bind] in E; [ | discriminate].
    destruct (to_float (NInt a')) as [fx' | ] eqn:Ex'; cbn [bind] in E'; [ | discriminate].
    injection E as <-. injection E' as <-. now apply (Float fx fx' g).
  - injection E as <-.
    destruct (to_float (NInt b)) as [fy | ] eqn:Ey; cbn [to_float bind] in E';
      [ | discriminate].
    injection E' as <-. right; left.
    destruct Ord as [Ord | [Ord | Ord]]; try discriminate.
    cbn [number_is_nan]. now rewrite mul_nan_l.
  - destruct (to_float (NInt a)) as [fx | ] eqn:Ex; cbn [bind] in E; [ | discriminate].
    cbn [to_float bind] in E, E'.
    injection E as <-. injection E' as <-. now apply (Float fx f' g).
  - injection E' as <-.
    destruct (to_float (NInt b)) as [fy | ] eqn:Ey; cbn [to_float bind] in E;
      [ | discriminate].
    injection E as <-. left.
    destruct Ord as [Ord | [Ord | Ord]]; try discriminate.
    cbn [number_is_nan]. now rewrite mul_nan_l.
  - destruct (to_float (NInt a')) as [fx' | ] eqn:Ex'; cbn [to_float bind] in E';
      [ | discriminate].
    cbn [to_float bind] in E.
    injection E as <-. injection E' as <-. now apply (Float f fx' g).
  - destruct (to_float (NInt b)) as [fy | ] eqn:Ey; cbn [to_float bind] in E, E';
      [ | discriminate].
    injection E as <-. injection E' as <-. now apply (Float f f' fy).
  - cbn [to_float bind] in E, E'.
    injection E as <-. injection E' as <-. now apply (Float f f' g).
Qed.

Lemma number_mul_mono_r (x y y' w w' : number) :
  related y y' -> chain_or_nan x = true ->
  number_mul x y = Ok w -> number_mul x y' = Ok w' -> related w w'.
Proof.
  intros R Cx E E'. rewrite number_mul_comm in E, E'.
  exact (number_mul_mono_l y y' x w w' R Cx E E').
Qed.


(** *** The division by 1000 *)

Lemma number_truediv_float_1000 (f : F64.float) :
  number_truediv (NFloat f) (NInt 1000) = Ok (NFloat (F64.div f (F64.of_Z 1000))).
Proof. reflexivity. Qed.

Lemma thousand_valid :
  Round.positive_valid (F64.of_Z 1000) = true /\ F64.is_finite (F64.of_Z 1000) = true.
Proof. split; reflexivity. Qed.

Lemma number_div_closed (x w : number) :
  chain_or_nan x = true -> number_truediv x (NInt 1000) = Ok w -> chain_or_nan w = true.
Proof.
  intros Cx. destruct x as [a | f].
  - cbn [number_truediv Z.eqb]. cbv zeta.
    destruct (F64.is_inf (F64.div_Z a 1000)); [discriminate | ].
    intros [= <-]. unfold chain_or_nan. cbn [number_is_nan chain_number].
    cbn [chain_or_nan number_is_nan chain_number orb] in Cx. apply Z.leb_le in Cx.
    rewrite div_Z_nonneg by lia. apply orb_true_r.
  - rewrite number_truediv_float_1000. intros [= <-].
    unfold chain_or_nan in *. cbn [number_is_nan chain_number] in *.
    destruct (F64.is_nan f) eqn:N.
    + now rewrite (div_nan_l f _ N).
    + cbn [orb] in Cx. destruct thousand_valid as [V F].
      rewrite (div_nonneg f _ Cx V F). apply orb_true_r.
Qed.

Lemma number_div_mono (x x' w w' : number) :
  related x x' ->
  number_truediv x (NInt 1000) = Ok w -> number_truediv x' (NInt 1000) = Ok w' ->
  related w w'.
Proof.
  intros R E E'. pose proof R as [Cx [Cx' Ord]].
  split; [exact (number_div_closed x w Cx E) | ].
  split; [exact (number_div_closed x' w' Cx' E') | ].
  destruct x as [a | f], x' as [a' | f'];
    rewrite ?number_truediv_float_1000 in E, E'; cbn [number_is_nan number_le] in Ord.
  - revert E E'. cbn [number_truediv Z.eqb]. cbv zeta.
    destruct (F64.is_inf (F64.div_Z a 1000)); [discriminate | ].
    destruct (F64.is_inf (F64.div_Z a' 1000)); [discriminate | ].
    intros [= <-] [= <-]. right; right. cbn [number_le].
    destruct Ord as [Ord | [Ord | Ord]]; try discriminate.
    cbn [chain_or_nan number_is_nan chain_number orb] in Cx.
    apply Z.leb_le in Cx, Ord. apply div_Z_mono; lia.
  - injection E' as <-. right; left.
    destruct Ord as [Ord | [Ord | Ord]]; try discriminate.
    cbn [number_is_nan]. now rewrite div_nan_l.
  - injection E as <-. left.
    destruct Ord as [Ord | [Ord | Ord]]; try discriminate.
    cbn [number_is_nan]. now rewrite div_nan_l.
  - injection E as <-. injection E' as <-. cbn [number_is_nan number_le].
    destruct Ord as [N | [N | L]].
    + left. now rewrite div_nan_l.
    + right; left. now rewrite div_nan_l.
    + right; right. destruct (SFleb_not_nan f f' L) as [N N'].
      destruct thousand_valid as [V F].
      apply div_mono_l; [now apply chain_float | now apply chain_float | exact V | exact F | exact L].
Qed.

(** *** The cost per shift on numbers is monotone in each of the four *)

Ltac chain_step E :=
  match type of E with
  | bind ?r _ = Ok _ =>
    let x := fresh "x" in
    let Ex := fresh "Ex" in
    destruct r as [x | ] eqn:Ex; cbn [bind] in E; [ | discriminate E]
  end.

Lemma related_refl (x : number) : chain_or_nan x = true -> related x x.
Proof.
  intros C. split; [exact C | split; [exact C | ]].
  destruct x as [a | f]; cbn [number_is_nan number_le].
  - right; right. apply Z.leb_refl.
  - destruct (F64.is_nan f) eqn:N; [now left | right; right].
    apply SFleb_refl. now apply chain_float.
Qed.

Lemma number_cost_mono (p m t c p' m' t' c' w w' : number) :
  chain_or_nan p = true -> chain_or_nan m = true ->
  chain_or_nan t = true -> chain_or_nan c = true ->
  (related p p' /\ m' = m /\ t' = t /\ c' = c) \/
  (p' = p /\ related m m' /\ t' = t /\ c' = c) \/
  (p' = p /\ m' = m /\ related t t' /\ c' = c) \/
  (p' = p /\ m' = m /\ t' = t /\ related c c') ->
  number_cost p m t c = Ok w -> number_cost p' m' t' c' = Ok w' ->
  related w w'.
Proof.
  intros Cp Cm Ct Cc H E E'. unfold number_cost in E, E'.
  chain_step E. chain_step E. chain_step E.
  chain_step E'. chain_step E'. chain_step E'.
  destruct H as [[R [-> [-> ->]]] | [[-> [R [-> ->]]] | [[-> [-> [R ->]]] | [-> [-> [-> R]]]]]].
  - pose proof (number_mul_mono_l _ _ _ _ _ R Cm Ex Ex2) as R1.
    pose proof (number_mul_mono_l _ _ _ _ _ R1 Ct Ex0 Ex3) as R2.
    pose proof (number_div_mono _ _ _ _ R2 Ex1 Ex4) as R3.
    exact (number_mul_mono_l _ _ _ _ _ R3 Cc E E').
  - pose proof (number_mul_mono_r _ _ _ _ _ R Cp Ex Ex2) as R1.
    pose proof (number_mul_mono_l _ _ _ _ _ R1 Ct Ex0 Ex3) as R2.
    pose proof (number_div_mono _ _ _ _ R2 Ex1 Ex4) as R3.
    exact (number_mul_mono_l _ _ _ _ _ R3 Cc E E').
  - rewrite Ex in Ex2. injection Ex2 as <-.
    pose proof (number_mul_closed _ _ _ Cp Cm Ex) as C1.
    pose proof (number_mul_mono_r _ _ _ _ _ R C1 Ex0 Ex3) as R2.
    pose proof (number_div_mono _ _ _ _ R2 Ex1 Ex4) as R3.
    exact (number_mul_mono_l _ _ _ _ _ R3 Cc E E').
  - rewrite Ex in Ex2. injection Ex2 as <-.
    rewrite Ex0 in Ex3. injection Ex3 as <-.
    rewrite Ex1 in Ex4. injection Ex4 as <-.
    pose proof (number_mul_closed _ _ _ Cp Cm Ex) as C1.
    pose proof (number_mul_closed _ _ _ C1 Ct Ex0) as C2.
    pose proof (number_div_closed _ _ C2 Ex1) as C3.
    exact (number_mul_mono_r _ _ _ _ _ R C3 E E').
Qed.


(** *** From numbers back to values *)

Lemma as_number_value_of_number (n : number) : as_number (value_of_number n) = Some n.
Proof. destruct n; reflexivity. Qed.

Lemma py_mul_numbers (a b : value) (x y : number) :
  as_number a = Some x -> as_number b = Some y ->
  py_mul a b = (n <- number_mul x y ;; Ok (value_of_number n))%py.
Proof. intros Ha Hb. unfold py_mul. now rewrite Ha, Hb. Qed.

Lemma py_truediv_numbers (a b : value) (x y : number) :
  as_number a = Some x -> as_number b = Some y ->
  py_truediv a b = (n <- number_truediv x y ;; Ok (value_of_number n))%py.
Proof. intros Ha Hb. unfold py_truediv. now rewrite Ha, Hb. Qed.

(** [calculate_cost_per_shift] is [number_cost] on the numbers of the four
    attributes. *)
Lemma cost_per_shift_numbers (p m t c : value) (xp xm xt xc : number) :
  as_number p = Some xp -> as_number m = Some xm ->
  as_number t = Some xt -> as_number c = Some xc ->
  calculate_cost_per_shift (built p m t c)
  = (n <- number_cost xp xm xt xc ;; Ok (value_of_number n))%py.
Proof.
  intros Hp Hm Ht Hc.
  unfold calculate_cost_per_shift, calculate_tokens_per_shift, number_cost.
  cbn [built getattr bind prompts_per_shift multiplier avg_tokens_per_call
       token_cost_per_thousand].
  rewrite (py_mul_numbers p m xp xm Hp Hm).
  destruct (number_mul xp xm) as [pm | ]; cbn [bind]; [ | reflexivity].
  rewrite (py_mul_numbers _ t pm xt (as_number_value_of_number pm) Ht).
  destruct (number_mul pm xt) as [tk | ]; cbn [bind]; [ | reflexivity].
  rewrite (py_truediv_numbers _ (VInt 1000) tk (NInt 1000)
             (as_number_value_of_number tk) eq_refl).
  destruct (number_truediv tk (NInt 1000)) as [q | ]; cbn [bind]; [ | reflexivity].
  exact (py_mul_numbers _ c q xc (as_number_value_of_number q) Hc).
Qed.

(** A validated, well-formed value is a number of the chain. *)
Lemma positive_chain (v : value) :
  positive_int_or_float v = true -> well_formed v = true ->
  exists x, as_number v = Some x /\ chain_number x = true.
Proof.
  destruct v as [ | b | z | f | s | q]; cbn [positive_int_or_float well_formed as_number];
    try discriminate.
  - intros -> _. eexists; split; reflexivity.
  - intros Hz _. eexists; split; [reflexivity | ].
    cbn [chain_number]. apply Z.ltb_lt in Hz. apply Z.leb_le. lia.
  - intros Hf Hv. eexists; split; [reflexivity | ]. cbn [chain_number].
    destruct f as [[] | [] | | [] m e]; try discriminate; [reflexivity | exact Hv].
Qed.

Lemma chain_number_or_nan (x : number) : chain_number x = true -> chain_or_nan x = true.
Proof. intros H. unfold chain_or_nan. rewrite H. apply orb_true_r. Qed.

Lemma value_le_related (v v' : value) (x x' : number) :
  as_number v = Some x -> as_number v' = Some x' ->
  chain_number x = true -> chain_number x' = true ->
  value_le v v' = true -> related x x'.
Proof.
  intros Hv Hv' C C'. unfold value_le. rewrite Hv, Hv'. intros L.
  split; [now apply chain_number_or_nan | split; [now apply chain_number_or_nan | ]].
  now right; right.
Qed.

(** Of two related numbers the first is not greater than the second, and
    they are in order unless one of them is NaN. *)
Lemma related_not_gt (w w' : number) :
  related w w' ->
  py_gt (value_of_number w) (value_of_number w') = Ok false /\
  (number_is_nan w = false -> number_is_nan w' = false ->
   value_le (value_of_number w) (value_of_number w') = true).
Proof.
  intros [_ [_ Ord]]. split.
  - unfold py_gt. rewrite !as_number_value_of_number. f_equal.
    destruct w as [a | f], w' as [a' | f']; cbn [number_is_nan number_le] in Ord;
      cbn [number_compare].
    + destruct Ord as [Ord | [Ord | Ord]]; try discriminate.
      apply Z.leb_le in Ord. destruct (Z.compare_spec a a'); try reflexivity. lia.
    + destruct Ord as [Ord | [Ord | Ord]]; try discriminate.
      destruct f'; try discriminate. reflexivity.
    + destruct Ord as [Ord | [Ord | Ord]]; try discriminate.
      destruct f; try discriminate. reflexivity.
    + destruct Ord as [Ord | [Ord | Ord]].
      * destruct f; try discriminate. reflexivity.
      * destruct f'; try discriminate. now destruct f.
      * revert Ord. unfold SFleb. now destruct (SFcompare f f') as [[] | ].
  - intros N N'. unfold value_le. rewrite !as_number_value_of_number.
    destruct Ord as [Ord | [Ord | Ord]]; congruence.
Qed.


(** *** No NaN on finite parameters *)

Lemma mul_finite_positive (a b : F64.float) :
  nonneg_valid a = true -> Round.positive_valid b = true -> F64.is_finite b = true ->
  nonneg_valid (F64.mul a b) = true.
Proof.
  intros Va Vb Fb.
  destruct b as [[] | [] | | [] m2 e2]; try discriminate.
  assert (Vb' : nonneg_valid (S754_finite false m2 e2) = true) by exact Vb.
  destruct (mul_nonneg a _ Va Vb') as [N | P]; [ | exact P].
  destruct a as [[] | [] | | [] m1 e1]; try discriminate.
  cbn [nonneg_valid] in Va, Vb'.
  destruct (mul_finite m1 e1 m2 e2 Va Vb') as [E [Hb Hx]].
  rewrite E in N |- *. now apply round_at_nonneg_valid.
Qed.

Lemma round_at_zero_inv (x : Q) (k : Z) :
  (0 <= x)%Q -> binade x k -> round_at k x = S754_zero false ->
  rne (x / pow2 (SpecFloat.fexp F64.prec F64.emax k)) = 0.
Proof.
  intros Hx Hb Hz.
  destruct (rne_scaled_bounds x k Hx Hb) as [[P0 _] _].
  destruct (round_at_shape x k Hx Hb) as [[Z0 _] | [n [e [C [_ E]]]]].
  - unfold rounded_value in Z0.
    destruct (Z.eq_dec (rne (x / pow2 (SpecFloat.fexp F64.prec F64.emax k))) 0)
      as [e0 | n0]; [exact e0 | exfalso].
    pose proof (F2Q_pos (rne (x / pow2 (SpecFloat.fexp F64.prec F64.emax k)))
                  (SpecFloat.fexp F64.prec F64.emax k) ltac:(lia)) as Hpos.
    rewrite Z0 in Hpos. now apply Qlt_irrefl in Hpos.
  - exfalso. rewrite Hz in E. destruct C as [[Pn _] _].
    destruct n as [ | mn | mn]; try lia. unfold float_of_pair in E.
    destruct (e <=? F64.emax - F64.prec); discriminate.
Qed.

(** A positive [int] that converts is a positive finite float. *)
Lemma of_Z_positive (b : Z) :
  0 < b -> F64.is_inf (F64.of_Z b) = false ->
  Round.positive_valid (F64.of_Z b) = true /\ F64.is_finite (F64.of_Z b) = true.
Proof.
  intros Hb I.
  pose proof (of_Z_nonneg b ltac:(lia)) as V.
  destruct (of_Z_pos b Hb) as [E Hbin].
  assert (Hx : (0 <= inject_Z b)%Q).
  { change 0%Q with (inject_Z 0). apply (proj1 (inject_Z_le 0 b)). lia. }
  destruct (F64.of_Z b) as [[] | [] | | [] mb eb] eqn:F; try discriminate.
  - exfalso. symmetry in E. apply (round_at_zero_inv _ _ Hx Hbin) in E.
    assert (One : (1 <= rne (inject_Z b / pow2 (SpecFloat.fexp F64.prec F64.emax (Zdigits2 b))))%Z).
    { rewrite <- (rne_Z 1). apply rne_mono.
      apply Qle_shift_div_l; [apply pow2_pos | ].
      rewrite Qmult_1_l. destruct (Zdigits2_bounds b Hb) as [D [Lo _]].
      destruct (fexp_cases (Zdigits2 b)) as [_ [_ [Ee | Ee]]]; rewrite Ee.
      - apply Qle_trans with (pow2 0); [apply pow2_le; discriminate | ].
        change (pow2 0) with (inject_Z 1). apply (proj1 (inject_Z_le 1 b)). lia.
      - apply Qle_trans with (pow2 (Zdigits2 b - 1)).
        + apply pow2_le. unfold F64.prec. lia.
        + rewrite pow2_Z by lia. now apply (proj1 (inject_Z_le _ b)). }
    lia.
  - split; [exact V | reflexivity].
Qed.

Lemma finite_positive_to_float (y : number) (f : F64.float) :
  finite_positive y = true -> to_float y = Ok f ->
  Round.positive_valid f = true /\ F64.is_finite f = true.
Proof.
  destruct y as [b | g]; cbn [finite_positive to_float].
  - intros Hb. unfold int_to_float. cbv zeta.
    destruct (F64.is_inf (F64.of_Z b)) eqn:I; [discriminate | ]. intros [= <-].
    apply Z.ltb_lt in Hb. now apply of_Z_positive.
  - intros H [= <-]. apply andb_prop in H. exact H.
Qed.

Lemma chain_to_float (x : number) (f : F64.float) :
  chain_number x = true -> to_float x = Ok f -> nonneg_valid f = true.
Proof.
  destruct x as [a | g]; cbn [chain_number to_float].
  - intros Ha. unfold int_to_float. cbv zeta.
    destruct (F64.is_inf (F64.of_Z a)); [discriminate | ]. intros [= <-].
    apply of_Z_nonneg. now apply Z.leb_le.
  - now intros H [= <-].
Qed.

Lemma number_mul_finite (x y w : number) :
  chain_number x = true -> finite_positive y = true ->
  number_mul x y = Ok w -> chain_number w = true.
Proof.
  intros Cx Fy.
  assert (Float : forall fx fy, to_float x = Ok fx -> to_float y = Ok fy ->
                                chain_number (NFloat (F64.mul fx fy)) = true).
  { intros fx fy Ex Ey. cbn [chain_number].
    destruct (finite_positive_to_float y fy Fy Ey) as [V F].
    apply mul_finite_positive; [exact (chain_to_float x fx Cx Ex) | exact V | exact F]. }
  destruct x as [a | f], y as [b | g]; cbn [number_mul].
  - intros [= <-]. cbn [chain_number finite_positive] in *.
    apply Z.leb_le in Cx. apply Z.ltb_lt in Fy. apply Z.leb_le. nia.
  - destruct (to_float (NInt a)) as [fx | ] eqn:Ex; cbn [bind]; [ | discriminate].
    cbn [to_float bind]. intros [= <-]. now apply Float.
  - cbn [to_float bind].
    destruct (int_to_float b) as [fy | ] eqn:Ey; cbn [bind]; [ | discriminate].
    intros [= <-]. now apply Float.
  - cbn [to_float bind]. intros [= <-]. now apply Float.
Qed.

Lemma number_div_chain (x w : number) :
  chain_number x = true -> number_truediv x (NInt 1000) = Ok w -> chain_number w = true.
Proof.
  intros Cx. destruct x as [a | f].
  - cbn [number_truediv Z.eqb]. cbv zeta.
    destruct (F64.is_inf (F64.div_Z a 1000)); [discriminate | ].
    intros [= <-]. cbn [chain_number] in *. apply Z.leb_le in Cx.
    apply div_Z_nonneg; lia.
  - rewrite number_truediv_float_1000. intros [= <-]. cbn [chain_number] in *.
    destruct thousand_valid as [V F]. now apply div_nonneg.
Qed.

(** On finite positive parameters the cost, when there is one, is a float of
    the chain: it is not NaN. *)
Lemma number_cost_chain (p m t c w : number) :
  finite_positive p = true -> finite_positive m = true ->
  finite_positive t = true -> finite_positive c = true ->
  number_cost p m t c = Ok w -> chain_number w = true.
Proof.
  intros Fp Fm Ft Fc E. unfold number_cost in E.
  chain_step E. chain_step E. chain_step E.
  assert (Cp : chain_number p = true).
  { destruct p as [a | f]; cbn [finite_positive chain_number] in *.
    - apply Z.ltb_lt in Fp. apply Z.leb_le. lia.
    - apply andb_prop in Fp. destruct Fp as [V _].
      unfold Round.positive_valid in V. apply andb_prop in V. destruct V as [P V].
      destruct f as [[] | [] | | [] mf ef]; try discriminate; [reflexivity | exact V]. }
  pose proof (number_mul_finite _ _ _ Cp Fm Ex) as C1.
  pose proof (number_mul_finite _ _ _ C1 Ft Ex0) as C2.
  pose proof (number_div_chain _ _ C2 Ex1) as C3.
  exact (number_mul_finite _ _ _ C3 Fc E).
Qed.

Lemma chain_number_not_nan (x : number) : chain_number x = true -> number_is_nan x = false.
Proof.
  destruct x as [a | f]; cbn [chain_number number_is_nan]; [reflexivity | ].
  apply nonneg_valid_not_nan.
Qed.

Lemma finite_positive_value (v : value) :
  positive_int_or_float v = true -> well_formed v = true -> finite_value v = true ->
  exists x, as_number v = Some x /\ finite_positive x = true.
Proof.
  destruct v as [ | b | z | f | s | q];
    cbn [positive_int_or_float well_formed finite_value as_number]; try discriminate.
  - intros -> _ _. eexists; split; reflexivity.
  - intros Hz _ _. eexists; split; [reflexivity | exact Hz].
  - intros P V F. eexists; split; [reflexivity | ].
    cbn [finite_positive]. unfold Round.positive_valid. now rewrite P, V, F.
Qed.

End ChainFacts.

(** The order of the two costs when one parameter is increased within its
    kind and both calls return. *)
Lemma cost_order_of_increase (p m t c p' m' t' c' : value)
    (self self' : instance) (v v' : value) :
  OpenAICostCalculator p m t c = Ok self ->
  OpenAICostCalculator p' m' t' c' = Ok self' ->
  forallb well_formed [p; m; t; c; p'; m'; t'; c'] = true ->
  (value_le p p' = true /\ m' = m /\ t' = t /\ c' = c) \/
  (p' = p /\ value_le m m' = true /\ t' = t /\ c' = c) \/
  (p' = p /\ m' = m /\ value_le t t' = true /\ c' = c) \/
  (p' = p /\ m' = m /\ t' = t /\ value_le c c' = true) ->
  calculate_cost_per_shift self = Ok v ->
  calculate_cost_per_shift self' = Ok v' ->
  py_gt v v' = Ok false
  /\ (value_is_nan v = false -> value_is_nan v' = false -> value_le v v' = true)
  /\ (forallb finite_value [p; m; t; c; p'; m'; t'; c'] = true -> value_le v v' = true).
Proof.
  intros Hs Hs' Hwf Hinc Hv Hv'.
  apply construct_ok_inv in Hs. destruct Hs as [-> [Pp [Pm [Pt Pc]]]].
  apply construct_ok_inv in Hs'. destruct Hs' as [-> [Pp' [Pm' [Pt' Pc']]]].
  cbn [forallb] in Hwf.
  repeat match type of Hwf with
         | (_ && _)%bool = true =>
           let W := fresh "W" in apply andb_prop in Hwf; destruct Hwf as [W Hwf]
         end.
  destruct (ChainFacts.positive_chain p Pp W) as [xp [Ep Cp]].
  destruct (ChainFacts.positive_chain m Pm W0) as [xm [Em Cm]].
  destruct (ChainFacts.positive_chain t Pt W1) as [xt [Et Ct]].
  destruct (ChainFacts.positive_chain c Pc W2) as [xc [Ec Cc]].
  destruct (ChainFacts.positive_chain p' Pp' W3) as [xp' [Ep' Cp']].
  destruct (ChainFacts.positive_chain m' Pm' W4) as [xm' [Em' Cm']].
  destruct (ChainFacts.positive_chain t' Pt' W5) as [xt' [Et' Ct']].
  destruct (ChainFacts.positive_chain c' Pc' W6) as [xc' [Ec' Cc']].
  rewrite (ChainFacts.cost_per_shift_numbers p m t c xp xm xt xc Ep Em Et Ec) in Hv.
  rewrite (ChainFacts.cost_per_shift_numbers p' m' t' c' xp' xm' xt' xc' Ep' Em' Et' Ec') in Hv'.
  destruct (number_cost xp xm xt xc) as [w | ] eqn:Ew; cbn [bind] in Hv; [ | discriminate].
  destruct (number_cost xp' xm' xt' xc') as [w' | ] eqn:Ew'; cbn [bind] in Hv'; [ | discriminate].
  injection Hv as <-. injection Hv' as <-.
  assert (R : related w w').
  { apply (ChainFacts.number_cost_mono xp xm xt xc xp' xm' xt' xc' w w');
      try (now apply ChainFacts.chain_number_or_nan); try assumption.
    destruct Hinc as [[L [-> [-> ->]]] | [[-> [L [-> ->]]] | [[-> [-> [L ->]]] | [-> [-> [-> L]]]]]].
    - left. split; [now apply (ChainFacts.value_le_related p p') | ].
      repeat split; congruence.
    - right; left. split; [congruence | ].
      split; [now apply (ChainFacts.value_le_related m m') | split; congruence].
    - right; right; left. split; [congruence | split; [congruence | ]].
      split; [now apply (ChainFacts.value_le_related t t') | congruence].
    - right; right; right. split; [congruence | split; [congruence | split; [congruence | ]]].
      now apply (ChainFacts.value_le_related c c'). }
  destruct (ChainFacts.related_not_gt w w' R) as [G L].
  assert (Nan : forall n, value_is_nan (value_of_number n) = number_is_nan n)
    by (intros []; reflexivity).
  split; [exact G | split].
  - rewrite !Nan. exact L.
  - intros Hfin. cbn [forallb] in Hfin.
    repeat match type of Hfin with
           | (_ && _)%bool = true =>
             let F := fresh "F" in apply andb_prop in Hfin; destruct Hfin as [F Hfin]
           end.
    destruct (ChainFacts.finite_positive_value p Pp W F) as [yp [Yp Fp]].
    destruct (ChainFacts.finite_positive_value m Pm W0 F0) as [ym [Ym Fm]].
    destruct (ChainFacts.finite_positive_value t Pt W1 F1) as [yt [Yt Ft]].
    destruct (ChainFacts.finite_positive_value c Pc W2 F2) as [yc [Yc Fc]].
    destruct (ChainFacts.finite_positive_value p' Pp' W3 F3) as [yp' [Yp' Fp']].
    destruct (ChainFacts.finite_positive_value m' Pm' W4 F4) as [ym' [Ym' Fm']].
    destruct (ChainFacts.finite_positive_value t' Pt' W5 F5) as [yt' [Yt' Ft']].
    destruct (ChainFacts.finite_positive_value c' Pc' W6 F6) as [yc' [Yc' Fc']].
    assert (yp = xp) by congruence. assert (ym = xm) by congruence.
    assert (yt = xt) by congruence. assert (yc = xc) by congruence.
    assert (yp' = xp') by congruence. assert (ym' = xm') by congruence.
    assert (yt' = xt') by congruence. assert (yc' = xc') by congruence.
    subst.
    apply L; apply ChainFacts.chain_number_not_nan.
    + exact (ChainFacts.number_cost_chain _ _ _ _ _ Fp Fm Ft Fc Ew).
    + exact (ChainFacts.number_cost_chain _ _ _ _ _ Fp' Fm' Ft' Fc' Ew').
Qed.

Lemma SFcompare_antisym (f g : F64.float) :
  SFcompare g f = option_map CompOpp (SFcompare f g).
Proof.
  destruct f as [s1 | s1 | | s1 m1 e1], g as [s2 | s2 | | s2 m2 e2]; cbn [SFcompare option_map];
    try (destruct s1, s2; reflexivity); try (destruct s1; reflexivity);
    try (destruct s2; reflexivity); try reflexivity.
  change (Pos.compare_cont Eq m2 m1) with (Pos.compare m2 m1).
  change (Pos.compare_cont Eq m1 m2) with (Pos.compare m1 m2).
  rewrite (Z.compare_antisym e1 e2), (Pos.compare_antisym m1 m2).
  destruct s1, s2, (e1 ?= e2), (m1 ?= m2)%positive; reflexivity.
Qed.

(** When [f > f'] is false, so is [f' < f]. *)
Lemma not_gt_not_lt (f f' : F64.float) :
  py_gt (VFloat f) (VFloat f') = Ok false -> F64.ltb f' f = false.
Proof.
  unfold py_gt. cbn [as_number number_compare]. unfold F64.ltb, SFltb.
  rewrite (SFcompare_antisym f f').
  destruct (SFcompare f f') as [[] | ]; cbn [option_map CompOpp]; congruence.
Qed.

(** C7 as stated fails when the increase changes the type of the parameter:
    with the [int]s 353185804281 and 934959146830 and the price 1.0, going
    from the [int] 131070 to the larger float 131070.00000000001 takes the
    cost from 4.328118807071409e+25 down to 4.328118807071408e+25.  On
    [int]s the product is exact and rounded once by the division; on a float
    every operation rounds. *)
Lemma cost_per_shift_decreases_from_int_to_float :
  let p := VInt 131070 in
  let p' := VFloat (float_literal "131070.00000000001") in
  let m := VInt 353185804281 in
  let t := VInt 934959146830 in
  let c := VFloat (float_literal "1.0") in
  py_gt p' p = Ok true /\
  OpenAICostCalculator p m t c = Ok (built p m t c) /\
  OpenAICostCalculator p' m t c = Ok (built p' m t c) /\
  calculate_cost_per_shift (built p m t c)
    = Ok (VFloat (float_literal "4.328118807071409e+25")) /\
  calculate_cost_per_shift (built p' m t c)
    = Ok (VFloat (float_literal "4.328118807071408e+25")) /\
  py_gt (VFloat (float_literal "4.328118807071409e+25"))
        (VFloat (float_literal "4.328118807071408e+25")) = Ok true.
Proof. cbv zeta. repeat split; vm_compute; reflexivity. Qed.

(** C7, amended. [calculate_cost_per_shift()] does not decrease when one of
    the four parameters is replaced by a larger value of its own kind (an
    [int] by an [int], a float by a float) and the other three are kept.  For
    two models built from validated, well-formed parameters, equal in three
    positions and in order in the fourth: whenever the two calls return [v]
    and [v'], [v > v'] is false; [v <= v'] unless one of the two is NaN
    (which takes a parameter [inf]), and [v <= v'] always when the
    parameters are finite.  When the parameters are floats, as [main] passes
    them, both calls do return, floats [f] and [f'] with [f' < f] false. *)
Theorem cost_per_shift_monotone (p m t c p' m' t' c' : value)
    (self self' : instance) :
  OpenAICostCalculator p m t c = Ok self ->
  OpenAICostCalculator p' m' t' c' = Ok self' ->
  forallb well_formed [p; m; t; c; p'; m'; t'; c'] = true ->
  (value_le p p' = true /\ m' = m /\ t' = t /\ c' = c) \/
  (p' = p /\ value_le m m' = true /\ t' = t /\ c' = c) \/
  (p' = p /\ m' = m /\ value_le t t' = true /\ c' = c) \/
  (p' = p /\ m' = m /\ t' = t /\ value_le c c' = true) ->
  (forall v v',
     calculate_cost_per_shift self = Ok v ->
     calculate_cost_per_shift self' = Ok v' ->
     py_gt v v' = Ok false
     /\ (value_is_nan v = false -> value_is_nan v' = false -> value_le v v' = true)
     /\ (forallb finite_value [p; m; t; c; p'; m'; t'; c'] = true -> value_le v v' = true))
  /\ (forallb is_float [p; m; t; c; p'; m'; t'; c'] = true ->
      exists f f',
        calculate_cost_per_shift self = Ok (VFloat f) /\
        calculate_cost_per_shift self' = Ok (VFloat f') /\
        F64.ltb f' f = false).
Proof.
  intros Hs Hs' Hwf Hinc. split.
  - intros v v'. now apply (cost_order_of_increase p m t c p' m' t' c').
  - intros Hfl.
    assert (Ret : forall a b d e s, OpenAICostCalculator a b d e = Ok s ->
                    forallb is_float [a; b; d; e] = true ->
                    exists f, calculate_cost_per_shift s = Ok (VFloat f)).
    { intros a b d e s Hc Hf. apply construct_ok_inv in Hc. destruct Hc as [-> _].
      destruct a, b, d, e; try discriminate. eexists. reflexivity. }
    cbn [forallb] in Hfl.
    repeat match type of Hfl with
           | (_ && _)%bool = true =>
             let F := fresh "F" in apply andb_prop in Hfl; destruct Hfl as [F Hfl]
           end.
    destruct (Ret p m t c self Hs) as [f Ef]; [cbn [forallb]; now rewrite F, F0, F1, F2 | ].
    destruct (Ret p' m' t' c' self' Hs') as [f' Ef'];
      [cbn [forallb]; now rewrite F3, F4, F5, F6 | ].
    exists f, f'. split; [exact Ef | split; [exact Ef' | ]].
    destruct (cost_order_of_increase p m t c p' m' t' c' self self' _ _
                Hs Hs' Hwf Hinc Ef Ef') as [G _].
    now apply not_gt_not_lt.
Qed.

Lemma cost_per_shift_monotone_witness :
  exists f f',
    calculate_cost_per_shift
      (built (VFloat (F64.of_Z 50)) (VFloat (F64.of_Z 5)) (VFloat (F64.of_Z 2000))
         (VFloat (float_literal "0.06"))) = Ok (VFloat f) /\
    calculate_cost_per_shift
      (built (VFloat (F64.of_Z 60)) (VFloat (F64.of_Z 5)) (VFloat (F64.of_Z 2000))
         (VFloat (float_literal "0.06"))) = Ok (VFloat f') /\
    F64.ltb f' f = false.
Proof.
  exact (proj2 (cost_per_shift_monotone
    (VFloat (F64.of_Z 50)) (VFloat (F64.of_Z 5)) (VFloat (F64.of_Z 2000))
    (VFloat (float_literal "0.06"))
    (VFloat (F64.of_Z 60)) (VFloat (F64.of_Z 5)) (VFloat (F64.of_Z 2000))
    (VFloat (float_literal "0.06"))
    _ _ eq_refl eq_refl eq_refl
    (or_introl (conj eq_refl (conj eq_refl (conj eq_refl eq_refl))))) eq_refl).
Defined.

(** ** Further properties of the calculator *)

Module CalcFacts.
Import Round RoundFacts ChainFacts.

Lemma to_float_raises (x : number) (e : exn) :
  to_float x = Raise e -> is_overflow e = true /\ exists z, x = NInt z.
Proof.
  destruct x as [z | f]; cbn [to_float]; [ | discriminate].
  unfold int_to_float; cbv zeta. destruct (F64.is_inf _); [ | discriminate].
  intros [= <-]. split; [reflexivity | eauto].
Qed.

Lemma number_mul_raises (x y : number) (e : exn) :
  number_mul x y = Raise e -> is_overflow e = true.
Proof.
  destruct x as [a | f], y as [b | g]; cbn [number_mul]; try discriminate.
  - destruct (to_float (NInt a)) as [fa | e1] eqn:E1; cbn [bind].
    + cbn [to_float]; discriminate.
    + intros [= <-]. now apply to_float_raises in E1.
  - cbn [to_float bind].
    destruct (int_to_float b) as [fb | e1] eqn:E1; cbn [bind]; [discriminate | ].
    intros [= <-]. now apply (to_float_raises (NInt b)) in E1.
Qed.

Lemma number_mul_float_l (f : F64.float) (y w : number) :
  number_mul (NFloat f) y = Ok w -> exists g, w = NFloat g.
Proof.
  destruct y as [b | g]; cbn [number_mul to_float bind].
  - destruct (int_to_float b); cbn [bind]; [ | discriminate]. intros [= <-]; eauto.
  - intros [= <-]; eauto.
Qed.

Lemma number_truediv_1000_cases (x : number) :
  (exists f, number_truediv x (NInt 1000) = Ok (NFloat f)) \/
  (exists msg, number_truediv x (NInt 1000) = Raise (OverflowError msg)).
Proof.
  destruct x as [a | f].
  - cbn [number_truediv]. change (1000 =? 0) with false. cbv iota zeta.
    destruct (F64.is_inf _); eauto.
  - left. eexists. reflexivity.
Qed.

Lemma overflow_inv (e : exn) : is_overflow e = true -> exists msg, e = OverflowError msg.
Proof. destruct e; try discriminate; eauto. Qed.

Lemma number_cost_cases (p m t c : number) :
  (exists f, number_cost p m t c = Ok (NFloat f)) \/
  (exists msg, number_cost p m t c = Raise (OverflowError msg)).
Proof.
  unfold number_cost.
  destruct (number_mul p m) as [pm | e] eqn:E1; cbn [bind].
  2:{ right. apply number_mul_raises, overflow_inv in E1. destruct E1 as [msg ->]. eauto. }
  destruct (number_mul pm t) as [tk | e] eqn:E2; cbn [bind].
  2:{ right. apply number_mul_raises, overflow_inv in E2. destruct E2 as [msg ->]. eauto. }
  destruct (number_truediv_1000_cases tk) as [[q ->] | [msg ->]]; cbn [bind]; [ | eauto].
  destruct (number_mul (NFloat q) c) as [w | e] eqn:E4.
  - left. apply number_mul_float_l in E4. destruct E4 as [g ->]. eauto.
  - right. apply number_mul_raises, overflow_inv in E4. destruct E4 as [msg ->]. eauto.
Qed.

Lemma admitted_number (v : value) :
  positive_int_or_float v = true -> exists x, as_number v = Some x.
Proof. destruct v; try discriminate; cbn [as_number]; eauto. Qed.

Lemma admitted_not_int (v : value) :
  positive_int_or_float v = true -> is_int v = false -> exists f, v = VFloat f.
Proof. destruct v; try discriminate; eauto. Qed.

(** A valid finite positive float is the rounding of its own value. *)
Lemma round_at_canon (m : positive) (e : Z) :
  canon (Zpos m) e -> (e <= F64.emax - F64.prec)%Z ->
  round_at (Zdigits2 (Zpos m) + e) (F2Q (Zpos m) e) = S754_finite false m e.
Proof.
  intros C He. unfold round_at. rewrite (canon_digits _ _ C).
  assert (Hq : (F2Q (Zpos m) e / pow2 e == inject_Z (Zpos m))%Q).
  { unfold F2Q. field. apply Qnot_eq_sym, Qlt_not_eq, pow2_pos. }
  rewrite (rne_proper _ _ Hq), rne_Z, (finish_canon _ _ C).
  apply Z.leb_le in He. now rewrite He.
Qed.

Lemma mul_one (f : F64.float) :
  F64.is_nan f = true \/ nonneg_valid f = true -> F64.mul f one = f.
Proof.
  intros [N | V].
  - destruct f; try discriminate. reflexivity.
  - destruct f as [[] | [] | | [] m e]; try discriminate; try reflexivity.
    cbn [nonneg_valid] in V.
    change one with (S754_finite false 4503599627370496 (-52)).
    assert (V1 : valid_binary F64.prec F64.emax (S754_finite false 4503599627370496 (-52)) = true)
      by reflexivity.
    destruct (mul_finite m e _ _ V V1) as [E _]. rewrite E. clear E.
    destruct (valid_canon m e V) as [C He].
    change (Zpos 4503599627370496) with (2 ^ 52)%Z.
    rewrite Zdigits2_shift by lia.
    replace (Zdigits2 (Zpos m) + 52 + (e + -52))%Z with (Zdigits2 (Zpos m) + e)%Z by lia.
    rewrite <- (round_at_canon m e C He).
    unfold round_at. apply f_equal2; [ | reflexivity]. apply rne_proper.
    apply Qdiv_comp; [ | reflexivity].
    assert (P : (F2Q (2 ^ 52) (-52) == 1)%Q) by (rewrite F2Q_pow2 by lia; reflexivity).
    rewrite P. ring.
Qed.


Lemma number_cost_closed (p m t c w : number) :
  chain_or_nan p = true -> chain_or_nan m = true ->
  chain_or_nan t = true -> chain_or_nan c = true ->
  number_cost p m t c = Ok w -> chain_or_nan w = true.
Proof.
  intros Cp Cm Ct Cc. unfold number_cost.
  destruct (number_mul p m) as [pm | e] eqn:E1; cbn [bind]; [ | discriminate].
  pose proof (number_mul_closed _ _ _ Cp Cm E1) as Cpm.
  destruct (number_mul pm t) as [tk | e] eqn:E2; cbn [bind]; [ | discriminate].
  pose proof (number_mul_closed _ _ _ Cpm Ct E2) as Ctk.
  destruct (number_truediv tk (NInt 1000)) as [q | e] eqn:E3; cbn [bind]; [ | discriminate].
  pose proof (number_div_closed _ _ Ctk E3) as Cq.
  intros E4. exact (number_mul_closed _ _ _ Cq Cc E4).
Qed.

Lemma py_mul_comm_numbers (a b : value) (x y : number) :
  as_number a = Some x -> as_number b = Some y -> py_mul a b = py_mul b a.
Proof.
  intros Ha Hb. rewrite (py_mul_numbers a b x y Ha Hb), (py_mul_numbers b a y x Hb Ha).
  now rewrite number_mul_comm.
Qed.

Lemma py_mul_float_one (f : F64.float) :
  F64.is_nan f = true \/ nonneg_valid f = true ->
  py_mul (VFloat f) (VInt 1) = Ok (VFloat f) /\ py_mul (VFloat f) (VFloat one) = Ok (VFloat f).
Proof.
  intros H. split.
  - rewrite py_mul_float_int by reflexivity. fold one. now rewrite mul_one.
  - rewrite py_mul_floats. now rewrite mul_one.
Qed.

(** A product by a finite positive float keeps the order and makes no NaN. *)
Lemma mul_positive_mono (a a' b : F64.float) :
  nonneg_valid a = true -> nonneg_valid a' = true -> SFleb a a' = true ->
  positive_valid b = true -> F64.is_finite b = true ->
  nonneg_valid (F64.mul a b) = true /\ nonneg_valid (F64.mul a' b) = true /\
  SFleb (F64.mul a b) (F64.mul a' b) = true.
Proof.
  intros Va Va' L Pb Fb.
  pose proof (mul_finite_positive a b Va Pb Fb) as V.
  pose proof (mul_finite_positive a' b Va' Pb Fb) as V'.
  split; [exact V | split; [exact V' | ]].
  assert (Vb : nonneg_valid b = true).
  { destruct b as [[] | [] | | [] mb eb]; try discriminate.
    unfold positive_valid in Pb. cbn [positive_float andb] in Pb. exact Pb. }
  destruct (mul_mono_l a a' b Va Va' Vb L) as [N | [N | R]]; [ | | exact R].
  - rewrite (nonneg_valid_not_nan _ V) in N. discriminate.
  - rewrite (nonneg_valid_not_nan _ V') in N. discriminate.
Qed.

End CalcFacts.

(** X1. On a constructed calculator [calculate_cost_per_shift()] returns a
    float or raises [OverflowError], nothing else; and it raises only when
    one of the four parameters is an [int] (a product of [int]s, or an [int]
    itself, beyond the range of a float): on floats the overflow is [inf]. *)
Theorem cost_per_shift_float_or_overflow (p m t c : value) (self : instance) :
  OpenAICostCalculator p m t c = Ok self ->
  ((exists f, calculate_cost_per_shift self = Ok (VFloat f)) \/
   (exists msg, calculate_cost_per_shift self = Raise (OverflowError msg)))
  /\ (forall e, calculate_cost_per_shift self = Raise e ->
        existsb is_int [p; m; t; c] = true).
Proof.
  intros H. apply construct_ok_inv in H. destruct H as [-> [Pp [Pm [Pt Pc]]]].
  split.
  - destruct (CalcFacts.admitted_number p Pp) as [xp Hp].
    destruct (CalcFacts.admitted_number m Pm) as [xm Hm].
    destruct (CalcFacts.admitted_number t Pt) as [xt Ht].
    destruct (CalcFacts.admitted_number c Pc) as [xc Hc].
    rewrite (ChainFacts.cost_per_shift_numbers p m t c _ _ _ _ Hp Hm Ht Hc).
    destruct (CalcFacts.number_cost_cases xp xm xt xc) as [[f ->] | [msg ->]]; cbn [bind].
    + left. eexists. reflexivity.
    + right. eexists. reflexivity.
  - intros e He.
    destruct (existsb is_int [p; m; t; c]) eqn:Hi; [reflexivity | exfalso].
    cbn [existsb] in Hi. rewrite !orb_false_iff in Hi.
    destruct Hi as [Ip [Im [It [Ic _]]]].
    destruct (CalcFacts.admitted_not_int p Pp Ip) as [fp ->].
    destruct (CalcFacts.admitted_not_int m Pm Im) as [fm ->].
    destruct (CalcFacts.admitted_not_int t Pt It) as [ft ->].
    destruct (CalcFacts.admitted_not_int c Pc Ic) as [fc ->].
    discriminate He.
Qed.

Lemma cost_per_shift_float_or_overflow_witness :
  existsb is_int [VInt (10 ^ 400); VInt 1; VInt 1; VFloat one] = true /\
  calculate_cost_per_shift (built (VInt (10 ^ 400)) (VInt 1) (VInt 1) (VFloat one))
    = Raise (OverflowError "integer division result too large for a float").
Proof.
  assert (E : calculate_cost_per_shift (built (VInt (10 ^ 400)) (VInt 1) (VInt 1) (VFloat one))
              = Raise (OverflowError "integer division result too large for a float"))
    by (vm_compute; reflexivity).
  split; [ | exact E].
  exact (proj2 (cost_per_shift_float_or_overflow
                  (VInt (10 ^ 400)) (VInt 1) (VInt 1) (VFloat one) _ eq_refl) _ E).
Defined.

(** With an infinite parameter the cost can be NaN: [1e-200 * 1e-200]
    underflows to zero, and zero times [inf] is NaN. *)
Lemma cost_per_shift_nan_of_infinite :
  calculate_cost_per_shift
    (built (VFloat (float_literal "1e-200")) (VFloat (float_literal "1e-200"))
       (VFloat F64.inf) (VFloat one)) = Ok (VFloat F64.nan) /\
  OpenAICostCalculator (VFloat (float_literal "1e-200")) (VFloat (float_literal "1e-200"))
    (VFloat F64.inf) (VFloat one)
  = Ok (built (VFloat (float_literal "1e-200")) (VFloat (float_literal "1e-200"))
          (VFloat F64.inf) (VFloat one)).
Proof. split; vm_compute; reflexivity. Qed.

(** X2. With four finite parameters the cost per shift is never negative and
    never NaN: when the method returns, the result is a float that is [+0.0]
    (the product underflowed), positive and finite, or [+inf] (it
    overflowed), and [0 > cost] is false. *)
Theorem cost_per_shift_nonnegative (p m t c : value) (self : instance) (v : value) :
  OpenAICostCalculator p m t c = Ok self ->
  forallb well_formed [p; m; t; c] = true ->
  forallb finite_value [p; m; t; c] = true ->
  calculate_cost_per_shift self = Ok v ->
  exists f, v = VFloat f /\ nonneg_valid f = true /\ F64.is_nan f = false /\
            py_gt (VInt 0) v = Ok false.
Proof.
  intros H W F Hv. apply construct_ok_inv in H. destruct H as [-> [Pp [Pm [Pt Pc]]]].
  cbn [forallb] in W, F. rewrite !andb_true_iff in W, F.
  destruct W as [Wp [Wm [Wt [Wc _]]]]. destruct F as [Fp [Fm [Ft [Fc _]]]].
  destruct (ChainFacts.finite_positive_value p Pp Wp Fp) as [xp [Hp Cp]].
  destruct (ChainFacts.finite_positive_value m Pm Wm Fm) as [xm [Hm Cm]].
  destruct (ChainFacts.finite_positive_value t Pt Wt Ft) as [xt [Ht Ct]].
  destruct (ChainFacts.finite_positive_value c Pc Wc Fc) as [xc [Hc Cc]].
  rewrite (ChainFacts.cost_per_shift_numbers p m t c _ _ _ _ Hp Hm Ht Hc) in Hv.
  destruct (CalcFacts.number_cost_cases xp xm xt xc) as [[f E] | [msg E]];
    rewrite E in Hv; cbn [bind] in Hv; [ | discriminate].
  injection Hv as <-.
  pose proof (ChainFacts.number_cost_chain _ _ _ _ _ Cp Cm Ct Cc E) as V.
  cbn [chain_number] in V.
  exists f. split; [reflexivity | split; [exact V | split]].
  - now apply ChainFacts.nonneg_valid_not_nan.
  - unfold py_gt. cbn [as_number value_of_number number_compare].
    pose proof (compare_Z_zero f) as Z0.
    destruct f as [[] | [] | | [] mf ef]; try discriminate; try reflexivity.
    cbn [positive_float] in Z0.
    destruct (F64.compare_Z (S754_finite false mf ef) 0) as [[] | ]; try discriminate.
    reflexivity.
Qed.

Lemma cost_per_shift_nonnegative_witness :
  exists f, VFloat (F64.of_Z 30) = VFloat f /\ nonneg_valid f = true /\
            F64.is_nan f = false /\ py_gt (VInt 0) (VFloat (F64.of_Z 30)) = Ok false.
Proof.
  apply (cost_per_shift_nonnegative (VInt 50) (VInt 5) (VInt 2000)
           (VFloat (float_literal "0.06")) _ (VFloat (F64.of_Z 30)) eq_refl).
  - reflexivity.
  - reflexivity.
  - vm_compute. reflexivity.
Defined.

(** Swapping the multiplier and the tokens per call can change the tokens
    per shift: the products are rounded in another order. *)
Lemma multiplier_and_tokens_do_not_commute :
  calculate_tokens_per_shift
    (built (VFloat (float_literal "0.1")) (VFloat (float_literal "0.2"))
       (VFloat (float_literal "0.3")) (VFloat one))
  <> calculate_tokens_per_shift
       (built (VFloat (float_literal "0.1")) (VFloat (float_literal "0.3"))
          (VFloat (float_literal "0.2")) (VFloat one)).
Proof. vm_compute. discriminate. Qed.

(** X3. The prompts per shift and the multiplier can be exchanged: the
    calculator built with the two swapped is accepted as well and returns the
    same tokens per shift and the same cost per shift, to the last bit and
    with the same exception if any (the first product is commutative also on
    floats); no other two parameters can
    ([multiplier_and_tokens_do_not_commute]). *)
Theorem prompts_and_multiplier_commute (p m t c : value) (self : instance) :
  OpenAICostCalculator p m t c = Ok self ->
  exists self',
    OpenAICostCalculator m p t c = Ok self' /\
    calculate_tokens_per_shift self' = calculate_tokens_per_shift self /\
    calculate_cost_per_shift self' = calculate_cost_per_shift self /\
    (forall d s, calculate_daily_costs self' s d = calculate_daily_costs self s d).
Proof.
  intros H. apply construct_ok_inv in H. destruct H as [-> [Pp [Pm [Pt Pc]]]].
  exists (built m p t c).
  assert (T : calculate_tokens_per_shift (built m p t c)
              = calculate_tokens_per_shift (built p m t c)).
  { destruct (CalcFacts.admitted_number p Pp) as [xp Hp].
    destruct (CalcFacts.admitted_number m Pm) as [xm Hm].
    unfold calculate_tokens_per_shift.
    cbn [built getattr bind prompts_per_shift multiplier avg_tokens_per_call].
    now rewrite (CalcFacts.py_mul_comm_numbers m p xm xp Hm Hp). }
  assert (K : calculate_cost_per_shift (built m p t c)
              = calculate_cost_per_shift (built p m t c)).
  { unfold calculate_cost_per_shift. rewrite T. reflexivity. }
  split; [ | split; [exact T | split; [exact K | ]]].
  - rewrite construct_spec. cbn [forallb]. now rewrite Pp, Pm, Pt, Pc.
  - intros d s. unfold calculate_daily_costs, calculate_cost_per_hospital_per_shift.
    now rewrite K.
Qed.

Lemma prompts_and_multiplier_commute_witness :
  exists self',
    OpenAICostCalculator (VInt 5) (VFloat (float_literal "0.1")) (VInt 2000) (VFloat one)
      = Ok self' /\
    calculate_tokens_per_shift self'
      = calculate_tokens_per_shift
          (built (VFloat (float_literal "0.1")) (VInt 5) (VInt 2000) (VFloat one)).
Proof.
  destruct (prompts_and_multiplier_commute (VFloat (float_literal "0.1")) (VInt 5)
              (VInt 2000) (VFloat one) _ eq_refl) as [self' [H1 [H2 _]]].
  exists self'. split; [exact H1 | exact H2].
Defined.

(** X4. One doctor and one shift: on a constructed calculator, the cost per
    hospital and shift for one doctor and the daily cost for one doctor and
    one shift are the cost per shift itself, the same float or the same
    exception, whether the 1 is the [int] or the float. *)
Theorem one_doctor_one_shift (p m t c : value) (self : instance) :
  OpenAICostCalculator p m t c = Ok self ->
  forallb well_formed [p; m; t; c] = true ->
  calculate_cost_per_hospital_per_shift self (VInt 1) = calculate_cost_per_shift self /\
  calculate_daily_costs self (VInt 1) (VInt 1) = calculate_cost_per_shift self /\
  calculate_cost_per_hospital_per_shift self (VFloat one) = calculate_cost_per_shift self /\
  calculate_daily_costs self (VFloat one) (VFloat one) = calculate_cost_per_shift self.
Proof.
  intros H W. apply construct_ok_inv in H. destruct H as [-> [Pp [Pm [Pt Pc]]]].
  cbn [forallb] in W. rewrite !andb_true_iff in W. destruct W as [Wp [Wm [Wt [Wc _]]]].
  destruct (ChainFacts.positive_chain p Pp Wp) as [xp [Hp Cp]].
  destruct (ChainFacts.positive_chain m Pm Wm) as [xm [Hm Cm]].
  destruct (ChainFacts.positive_chain t Pt Wt) as [xt [Ht Ct]].
  destruct (ChainFacts.positive_chain c Pc Wc) as [xc [Hc Cc]].
  apply ChainFacts.chain_number_or_nan in Cp, Cm, Ct, Cc.
  unfold calculate_daily_costs, calculate_cost_per_hospital_per_shift.
  rewrite (ChainFacts.cost_per_shift_numbers p m t c _ _ _ _ Hp Hm Ht Hc).
  destruct (CalcFacts.number_cost_cases xp xm xt xc) as [[f E] | [msg E]];
    rewrite E; cbn [bind value_of_number]; [ | repeat split; reflexivity].
  pose proof (CalcFacts.number_cost_closed _ _ _ _ _ Cp Cm Ct Cc E) as Cf.
  assert (Hf : F64.is_nan f = true \/ nonneg_valid f = true).
  { unfold chain_or_nan in Cf. cbn [number_is_nan chain_number] in Cf.
    apply orb_prop in Cf. exact Cf. }
  destruct (CalcFacts.py_mul_float_one f Hf) as [E1 E2].
  rewrite E1, E2; cbn [bind]. now rewrite E1, E2.
Qed.

Lemma one_doctor_one_shift_witness :
  calculate_daily_costs
    (built (VInt 50) (VInt 5) (VInt 2000) (VFloat (float_literal "0.06"))) (VInt 1) (VInt 1)
  = calculate_cost_per_shift
      (built (VInt 50) (VInt 5) (VInt 2000) (VFloat (float_literal "0.06"))).
Proof.
  exact (proj1 (proj2 (one_doctor_one_shift (VInt 50) (VInt 5) (VInt 2000)
                         (VFloat (float_literal "0.06")) _ eq_refl eq_refl))).
Defined.

(** X5. The figures of the report follow the cost per shift: for a number
    of doctors and a number of shifts that are positive finite floats, when
    the cost per shift of one calculator is at most that of another (two
    floats that are not negative), so are the cost per hospital and shift,
    the daily, the monthly and the annual cost, none of them negative or
    NaN. *)
Theorem report_follows_cost_per_shift (self self' : instance) (k k' d s : F64.float) :
  calculate_cost_per_shift self = Ok (VFloat k) ->
  calculate_cost_per_shift self' = Ok (VFloat k') ->
  nonneg_valid k = true -> nonneg_valid k' = true -> SFleb k k' = true ->
  Round.positive_valid d = true -> F64.is_finite d = true ->
  Round.positive_valid s = true -> F64.is_finite s = true ->
  exists h h' y y' mo mo' an an',
    calculate_cost_per_hospital_per_shift self (VFloat d) = Ok (VFloat h) /\
    calculate_cost_per_hospital_per_shift self' (VFloat d) = Ok (VFloat h') /\
    calculate_daily_costs self (VFloat s) (VFloat d) = Ok (VFloat y) /\
    calculate_daily_costs self' (VFloat s) (VFloat d) = Ok (VFloat y') /\
    calculate_monthly_costs self (VFloat y) = Ok (VFloat mo) /\
    calculate_monthly_costs self' (VFloat y') = Ok (VFloat mo') /\
    calculate_annual_costs self (VFloat mo) = Ok (VFloat an) /\
    calculate_annual_costs self' (VFloat mo') = Ok (VFloat an') /\
    SFleb h h' = true /\ SFleb y y' = true /\ SFleb mo mo' = true /\ SFleb an an' = true /\
    forallb nonneg_valid [h; h'; y; y'; mo; mo'; an; an'] = true.
Proof.
  intros E E' V V' L Pd Fd Ps Fs.
  destruct (CalcFacts.mul_positive_mono k k' d V V' L Pd Fd) as [Vh [Vh' Lh]].
  destruct (CalcFacts.mul_positive_mono _ _ s Vh Vh' Lh Ps Fs) as [Vy [Vy' Ly]].
  destruct (CalcFacts.mul_positive_mono _ _ (F64.of_Z 30) Vy Vy' Ly eq_refl eq_refl)
    as [Vm [Vm' Lm]].
  destruct (CalcFacts.mul_positive_mono _ _ (F64.of_Z 12) Vm Vm' Lm eq_refl eq_refl)
    as [Va [Va' La]].
  do 8 eexists.
  unfold calculate_daily_costs, calculate_cost_per_hospital_per_shift,
    calculate_monthly_costs, calculate_annual_costs, days_per_month, months_per_year.
  rewrite E, E'; cbn [bind]. rewrite !py_mul_floats; cbn [bind]. rewrite !py_mul_floats.
  rewrite !py_mul_float_int by reflexivity.
  repeat (split; [reflexivity | ]).
  repeat (split; [eassumption | ]).
  cbn [forallb]. now rewrite Vh, Vh', Vy, Vy', Vm, Vm', Va, Va'.
Qed.

Lemma report_follows_cost_per_shift_witness :
  exists h h' y y' mo mo' an an',
    calculate_cost_per_hospital_per_shift
      (built (VInt 50) (VInt 5) (VInt 2000) (VFloat (float_literal "0.06")))
      (VFloat (F64.of_Z 10)) = Ok (VFloat h) /\
    calculate_cost_per_hospital_per_shift
      (built (VInt 50) (VInt 5) (VInt 2000) (VFloat (float_literal "0.07")))
      (VFloat (F64.of_Z 10)) = Ok (VFloat h') /\
    calculate_daily_costs
      (built (VInt 50) (VInt 5) (VInt 2000) (VFloat (float_literal "0.06")))
      (VFloat (F64.of_Z 3)) (VFloat (F64.of_Z 10)) = Ok (VFloat y) /\
    calculate_daily_costs
      (built (VInt 50) (VInt 5) (VInt 2000) (VFloat (float_literal "0.07")))
      (VFloat (F64.of_Z 3)) (VFloat (F64.of_Z 10)) = Ok (VFloat y') /\
    calculate_monthly_costs
      (built (VInt 50) (VInt 5) (VInt 2000) (VFloat (float_literal "0.06")))
      (VFloat y) = Ok (VFloat mo) /\
    calculate_monthly_costs
      (built (VInt 50) (VInt 5) (VInt 2000) (VFloat (float_literal "0.07")))
      (VFloat y') = Ok (VFloat mo') /\
    calculate_annual_costs
      (built (VInt 50) (VInt 5) (VInt 2000) (VFloat (float_literal "0.06")))
      (VFloat mo) = Ok (VFloat an) /\
    calculate_annual_costs
      (built (VInt 50) (VInt 5) (VInt 2000) (VFloat (float_literal "0.07")))
      (VFloat mo') = Ok (VFloat an') /\
    SFleb h h' = true /\ SFleb y y' = true /\ SFleb mo mo' = true /\ SFleb an an' = true /\
    forallb nonneg_valid [h; h'; y; y'; mo; mo'; an; an'] = true.
Proof.
  apply (report_follows_cost_per_shift
           (built (VInt 50) (VInt 5) (VInt 2000) (VFloat (float_literal "0.06")))
           (built (VInt 50) (VInt 5) (VInt 2000) (VFloat (float_literal "0.07")))
           (F64.of_Z 30) (S754_finite false 4925812092436480 (-47))
           (F64.of_Z 10) (F64.of_Z 3));
    vm_compute; reflexivity.
Defined.

(** ** Further properties of the console *)

Module ConsoleFacts.

Lemma read_step_eof (p : string) (d : value) (k : value -> io unit) (out : list output) :
  io_bind (io_bind (get_input p d) (fun v => lift (py_float v))) k
    {| stdin := []; stdout := out |} =
  (Raise (EOFError "EOF when reading a line"),
   {| stdin := []; stdout := out ++ [Prompted p d] |}).
Proof. reflexivity. Qed.

Lemma not_accepted_malformed (s : string) :
  accepted_line s = false -> malformed_line s = true.
Proof.
  unfold accepted_line, malformed_line.
  destruct (str_truthy s), (Text.float_of_string s); cbn; congruence.
Qed.

Lemma malformed_not_accepted (s : string) :
  malformed_line s = true -> accepted_line s = false.
Proof.
  unfold accepted_line, malformed_line.
  destruct (str_truthy s), (Text.float_of_string s); cbn; congruence.
Qed.

(** The lines of a run: a first line that is not accepted among the first
    [n], or fewer than [n] lines, all accepted, or [n] accepted lines and
    the rest. *)
Lemma lines_cases (n : nat) (lines : list string) :
  (exists before s after,
     lines = before ++ s :: after /\ (List.length before < n)%nat /\
     forallb accepted_line before = true /\ malformed_line s = true) \/
  ((List.length lines < n)%nat /\ forallb accepted_line lines = true) \/
  (exists first rest,
     lines = first ++ rest /\ List.length first = n /\ forallb accepted_line first = true).
Proof.
  revert lines. induction n as [ | n IH]; intros lines.
  - right; right. exists [], lines. repeat split.
  - destruct lines as [ | l lines].
    + right; left. split; [cbn; lia | reflexivity].
    + destruct (accepted_line l) eqn:A.
      * destruct (IH lines) as [[b [s [a [-> [L [F M]]]]]] | [[L F] | [f [r [-> [L F]]]]]].
        -- left. exists (l :: b), s, a. cbn [List.length forallb app]. rewrite A, F.
           repeat split; [lia | exact M].
        -- right; left. cbn [List.length forallb]. rewrite A, F. split; [lia | reflexivity].
        -- right; right. exists (l :: f), r. cbn [List.length forallb app]. rewrite A, F.
           repeat split. lia.
      * left. exists [], l, lines. cbn [List.length forallb app].
        repeat split; [lia | now apply not_accepted_malformed].
Qed.

Ltac split_accepted Hacc :=
  cbn [forallb] in Hacc;
  repeat match type of Hacc with
         | (_ && _)%bool = true =>
           let H := fresh "H" in
           apply andb_prop in Hacc; destruct Hacc as [H Hacc]
         end.

(** Where [main_try] stops at a malformed line, and what it has written. *)
Lemma main_try_stops (before : list string) (s : string) (after : list string) :
  (List.length before < 6)%nat ->
  forallb accepted_line before = true ->
  malformed_line s = true ->
  main_try {| stdin := before ++ s :: after; stdout := [] |}
  = (Raise (ValueError (parse_error_message s)),
     {| stdin := after; stdout := asked (List.length before) |}).
Proof.
  intros Hlen Hacc Hs.
  destruct before as [ | l1 [ | l2 [ | l3 [ | l4 [ | l5 [ | l6 before]]]]]];
    cbn [List.length] in Hlen; try lia; split_accepted Hacc; cbn [app List.length];
    unfold main_try.
  - read_malformed Hs.
  - read_accepted H; read_malformed Hs.
  - read_accepted H; read_accepted H0; read_malformed Hs.
  - read_accepted H; read_accepted H0; read_accepted H1;
      rewrite pricing_step; cbn [stdin stdout]; read_malformed Hs.
  - read_accepted H; read_accepted H0; read_accepted H1;
      rewrite pricing_step; cbn [stdin stdout];
      read_accepted H2; read_malformed Hs.
  - read_accepted H; read_accepted H0; read_accepted H1;
      rewrite pricing_step; cbn [stdin stdout];
      read_accepted H2; read_accepted H3; read_malformed Hs.
Qed.

(** Where [main_try] stops when the lines run out. *)
Lemma main_try_end_of_input (lines : list string) :
  (List.length lines < 6)%nat ->
  forallb accepted_line lines = true ->
  main_try {| stdin := lines; stdout := [] |}
  = (Raise (EOFError "EOF when reading a line"),
     {| stdin := []; stdout := asked (List.length lines) |}).
Proof.
  intros Hlen Hacc.
  destruct lines as [ | l1 [ | l2 [ | l3 [ | l4 [ | l5 [ | l6 lines]]]]]];
    cbn [List.length] in Hlen; try lia; split_accepted Hacc; cbn [List.length];
    unfold main_try.
  - reflexivity.
  - read_accepted H; reflexivity.
  - read_accepted H; read_accepted H0; reflexivity.
  - read_accepted H; read_accepted H0; read_accepted H1; reflexivity.
  - read_accepted H; read_accepted H0; read_accepted H1;
      rewrite pricing_step; cbn [stdin stdout]; read_accepted H2; reflexivity.
  - read_accepted H; read_accepted H0; read_accepted H1;
      rewrite pricing_step; cbn [stdin stdout];
      read_accepted H2; read_accepted H3; reflexivity.
Qed.

(** What [main_try] does with six numbers. *)
Lemma main_try_six (l1 l2 l3 l4 l5 l6 : string) (rest : list string)
    (p m t c d s : F64.float) :
  line_value l1 default_prompts_per_shift = Ok (VFloat p) ->
  line_value l2 default_multiplier = Ok (VFloat m) ->
  line_value l3 default_avg_tokens_per_call = Ok (VFloat t) ->
  line_value l4 default_token_cost_per_thousand = Ok (VFloat c) ->
  line_value l5 default_doctors_per_shift = Ok (VFloat d) ->
  line_value l6 default_shifts_per_day = Ok (VFloat s) ->
  main_try {| stdin := l1 :: l2 :: l3 :: l4 :: l5 :: l6 :: rest; stdout := [] |}
  = if forallb positive_float [p; m; t; c]
    then (Ok tt, {| stdin := rest; stdout := console_prefix ++ report_of p m t c d s |})
    else (Raise (ValueError validation_message),
          {| stdin := rest; stdout := console_prefix |}).
Proof.
  intros E1 E2 E3 E4 E5 E6. unfold main_try.
  rewrite read_step, E1. rewrite read_step, E2. rewrite read_step, E3.
  rewrite pricing_step; cbn [stdin stdout].
  rewrite read_step, E4. rewrite read_step, E5. rewrite read_step, E6.
  unfold io_bind at 1. unfold lift at 1. rewrite construct_spec.
  change (forallb positive_int_or_float [VFloat p; VFloat m; VFloat t; VFloat c])
    with (forallb positive_float [p; m; t; c]).
  destruct (forallb positive_float [p; m; t; c]); reflexivity.
Qed.

Lemma accepted_six (l1 l2 l3 l4 l5 l6 : string) :
  forallb accepted_line [l1; l2; l3; l4; l5; l6] = true ->
  exists p m t c d s,
    line_value l1 default_prompts_per_shift = Ok (VFloat p) /\
    line_value l2 default_multiplier = Ok (VFloat m) /\
    line_value l3 default_avg_tokens_per_call = Ok (VFloat t) /\
    line_value l4 default_token_cost_per_thousand = Ok (VFloat c) /\
    line_value l5 default_doctors_per_shift = Ok (VFloat d) /\
    line_value l6 default_shifts_per_day = Ok (VFloat s).
Proof.
  intros Hacc. split_accepted Hacc.
  destruct (accepted_line_value l1 default_prompts_per_shift _ H eq_refl) as [p E1].
  destruct (accepted_line_value l2 default_multiplier _ H0 eq_refl) as [m E2].
  destruct (accepted_line_value l3 default_avg_tokens_per_call _ H1 eq_refl) as [t E3].
  destruct (accepted_line_value l4 default_token_cost_per_thousand _ H2 eq_refl) as [c E4].
  destruct (accepted_line_value l5 default_doctors_per_shift _ H3 eq_refl) as [d E5].
  destruct (accepted_line_value l6 default_shifts_per_day _ H4 eq_refl) as [s E6].
  exists p, m, t, c, d, s. auto 10.
Qed.

Lemma main_ok (w w' : world) : main_try w = (Ok tt, w') -> main w = (Ok tt, w').
Proof. intros E. unfold main. now rewrite E. Qed.

Lemma asked_prompts (i : nat) :
  (i < 6)%nat -> prompts_written (asked i) = S i /\ report_produced (asked i) = false.
Proof.
  intros H.
  destruct i as [ | [ | [ | [ | [ | [ | i]]]]]]; try lia; split; reflexivity.
Qed.

Lemma prompts_written_app (out : list output) (o : output) :
  prompts_written (out ++ [o]) = (prompts_written out + if is_prompt o then 1 else 0)%nat.
Proof.
  unfold prompts_written. rewrite filter_app, length_app. cbn [filter].
  destruct (is_prompt o); reflexivity.
Qed.

Lemma skipn_app_exact {A : Type} (l r : list A) : skipn (List.length l) (l ++ r) = r.
Proof. induction l as [ | a l IH]; [reflexivity | exact IH]. Qed.

End ConsoleFacts.



(** X7. A run always ends, and never with an exception: whatever the lines
    are, [main] returns; it has asked between one and six questions and has
    read a line for each question asked (no line beyond the sixth); and the
    last thing written is the table of the report, or an [Invalid input: ...]
    line, or the [An unexpected error occurred: ...] line of the end of the
    input; in the last two cases no report was written. *)
Theorem run_ends_in_report_or_error (lines : list string) :
  fst (main {| stdin := lines; stdout := [] |}) = Ok tt
  /\ (1 <= prompts_written (run lines) <= 6)%nat
  /\ unread lines = skipn (prompts_written (run lines)) lines
  /\ ((report_produced (run lines) = true /\
       exists a b c d e, last_output (run lines) = Some (Printed (CostTable a b c d e)))
      \/ (report_produced (run lines) = false /\
          exists msg, last_output (run lines)
                      = Some (Printed (Str (append "Invalid input: " msg))))
      \/ (report_produced (run lines) = false /\
          last_output (run lines)
          = Some (Printed (Str "An unexpected error occurred: EOF when reading a line")))).
Proof.
  destruct (ConsoleFacts.lines_cases 6 lines)
    as [[b [s [a [-> [L [F M]]]]]] | [[L F] | [f [r [-> [L F]]]]]].
  - pose proof (ConsoleFacts.main_try_stops b s a L F M) as E.
    destruct (ConsoleFacts.asked_prompts _ L) as [P R].
    unfold run, unread. rewrite (main_handlers _ _ _ E). cbn [fst snd stdin stdout].
    rewrite ConsoleFacts.prompts_written_app, P. cbn [is_prompt].
    rewrite Nat.add_0_r.
    split; [reflexivity | split; [lia | split]].
    + replace (S (List.length b)) with (List.length (b ++ [s]))
        by (rewrite length_app; cbn [List.length]; lia).
      replace (b ++ s :: a) with ((b ++ [s]) ++ a) by (rewrite <- app_assoc; reflexivity).
      now rewrite ConsoleFacts.skipn_app_exact.
    + right; left. rewrite report_produced_app, R. split; [reflexivity | ].
      exists (parse_error_message s). apply last_output_app.
  - pose proof (ConsoleFacts.main_try_end_of_input lines L F) as E.
    destruct (ConsoleFacts.asked_prompts _ L) as [P R].
    unfold run, unread. rewrite (main_handlers _ _ _ E). cbn [fst snd stdin stdout].
    rewrite ConsoleFacts.prompts_written_app, P. cbn [is_prompt].
    rewrite Nat.add_0_r.
    split; [reflexivity | split; [lia | split]].
    + rewrite skipn_all2 by lia. reflexivity.
    + right; right. rewrite report_produced_app, R. split; [reflexivity | ].
      apply last_output_app.
  - destruct f as [ | l1 [ | l2 [ | l3 [ | l4 [ | l5 [ | l6 [ | l7 f]]]]]]];
      try discriminate L.
    destruct (ConsoleFacts.accepted_six _ _ _ _ _ _ F)
      as [p [m [t [c [d [s [E1 [E2 [E3 [E4 [E5 E6]]]]]]]]]]].
    pose proof (ConsoleFacts.main_try_six l1 l2 l3 l4 l5 l6 r p m t c d s
                  E1 E2 E3 E4 E5 E6) as E.
    cbn [app]. unfold run, unread.
    destruct (forallb positive_float [p; m; t; c]).
    + rewrite (ConsoleFacts.main_ok _ _ E). cbn [fst snd stdin stdout].
      split; [reflexivity | split; [cbn; lia | split; [reflexivity | ]]].
      left. split; [reflexivity | ]. do 5 eexists. reflexivity.
    + rewrite (main_handlers _ _ _ E). cbn [fst snd stdin stdout].
      split; [reflexivity | split; [cbn; lia | split; [reflexivity | ]]].
      right; left. split; [reflexivity | ]. eexists. reflexivity.
Qed.


Module ParseFacts.
Import Text.
















End ParseFacts.






(** ** The report as text *)

Module FormatFacts.
Import Format.

Lemma length_string_of_list (l : list ascii) :
  String.length (string_of_list_ascii l) = List.length l.
Proof. induction l as [ | c l IH]; [reflexivity | cbn; now rewrite IH]. Qed.

Lemma string_length_append (s t : string) :
  String.length (append s t) = (String.length s + String.length t)%nat.
Proof. induction s as [ | c s IH]; [reflexivity | cbn; now rewrite IH]. Qed.

Lemma pad_left_length (w : nat) (s : list ascii) :
  List.length (pad_left w s) = Nat.max w (List.length s).
Proof. unfold pad_left. rewrite length_app, repeat_length. lia. Qed.

Lemma pad_left_zero (s : list ascii) : pad_left 0 s = s.
Proof. reflexivity. Qed.

(** A text padded to more than its length starts with a space. *)
Lemma pad_left_space (w : nat) (s : list ascii) :
  (List.length s < w)%nat ->
  exists rest, string_of_list_ascii (pad_left w s) = String " " rest.
Proof.
  intros H. unfold pad_left.
  destruct (w - List.length s)%nat as [ | k] eqn:E; [lia | ].
  cbn [repeat app string_of_list_ascii]. eexists. reflexivity.
Qed.

Lemma max_list_bound (l : list nat) (x : nat) :
  In x l -> (x <= fold_right Nat.max 0 l)%nat.
Proof.
  induction l as [ | a l IH]; [intros [] | ].
  cbn [fold_right]. intros [-> | H]; [lia | ]. specialize (IH H). lia.
Qed.

End FormatFacts.

(** X11. The cost table is aligned.  On five floats (finite or not)
    [display_results] formats without an exception; with [n] the length of
    the longest of the five amounts, every cell is its amount padded on the
    left to [n + 1] characters, so that it starts with a space after the
    [$]; the five rows of the table all have [n + 48] characters, their
    closing bars in one column (the column of the ruler's end when
    [n = 9]). *)
Theorem display_results_rows_aligned (a b c d e : F64.float) :
  let amount := Format.float_fixed2 true in
  let n := fold_right Nat.max 0%nat
             (map (fun f => List.length (amount f)) [a; b; c; d; e]) in
  let cell f := string_of_list_ascii (Format.pad_left (n + 1) (amount f)) in
  display_results_text (VFloat a) (VFloat b) (VFloat c) (VFloat d) (VFloat e)
  = Ok (String.concat newline (table_lines (cell a) (cell b) (cell c) (cell d) (cell e)))
  /\ Forall (fun f => String.length (cell f) = (n + 1)%nat /\
                      exists rest, cell f = String " " rest) [a; b; c; d; e]
  /\ Forall (fun row => String.length row = (n + 48)%nat)
       (firstn 5 (skipn 4 (table_lines (cell a) (cell b) (cell c) (cell d) (cell e))))
  /\ String.length ruler = 57%nat.
Proof.
  intros amount n cell.
  assert (Hcell : forall f, In f [a; b; c; d; e] ->
            String.length (cell f) = (n + 1)%nat /\ exists rest, cell f = String " " rest).
  { intros f Hf.
    assert (Hlen : (List.length (amount f) <= n)%nat).
    { apply FormatFacts.max_list_bound.
      apply (in_map (fun f => List.length (amount f))) in Hf. exact Hf. }
    unfold cell. split.
    - rewrite FormatFacts.length_string_of_list, FormatFacts.pad_left_length. lia.
    - apply FormatFacts.pad_left_space. lia. }
  split; [ | split; [apply Forall_forall; exact Hcell | split; [ | reflexivity]]].
  - unfold display_results_text. cbn [py_format bind].
    rewrite !FormatFacts.pad_left_zero.
    cbn [map fold_right]. rewrite !FormatFacts.length_string_of_list.
    reflexivity.
  - cbn [table_lines skipn firstn].
    repeat constructor; rewrite !FormatFacts.string_length_append;
      match goal with
      | |- context [String.length (cell ?f)] =>
        rewrite (proj1 (Hcell f ltac:(cbn; tauto)))
      end; cbn [String.length]; lia.
Qed.

(** ** Amounts: the text of a number and what [float] reads from it *)

Module AmountFacts.
Import Text Format.

Ltac ascii_cases c := destruct c as [[] [] [] [] [] [] [] []].

Lemma digit_char_spec (d : Z) :
  0 <= d < 10 -> is_digit (digit_char d) = true /\ digit_value (digit_char d) = d.
Proof.
  intros H.
  assert (C : d = 0 \/ d = 1 \/ d = 2 \/ d = 3 \/ d = 4 \/ d = 5 \/ d = 6 \/ d = 7 \/
              d = 8 \/ d = 9) by lia.
  repeat (destruct C as [-> | C]; [split; reflexivity | ]). subst d. split; reflexivity.
Qed.

Lemma digits_value_app (a : Z) (l r : list ascii) :
  digits_value a (l ++ r) = digits_value (digits_value a l) r.
Proof. unfold digits_value. apply fold_left_app. Qed.

(** The digits that [digits_of] puts before the accumulator. *)
Lemma digits_of_single (fuel : nat) (n : Z) (acc : list ascii) :
  0 <= n < 10 ->
  exists ds, digits_of (S fuel) n acc = ds ++ acc /\ ds <> [] /\
             forallb is_digit ds = true /\
             forall a, digits_value a ds = a * 10 ^ Z.of_nat (List.length ds) + n.
Proof.
  intros Hn. destruct (digit_char_spec n Hn) as [D V].
  exists [digit_char n]. cbn [digits_of]. cbv zeta.
  rewrite Z.mod_small by lia. rewrite (proj2 (Z.ltb_lt n 10)) by lia.
  split; [reflexivity | split; [discriminate | split]].
  - cbn [forallb]. now rewrite D.
  - intros a. cbn [digits_value fold_left List.length]. rewrite V.
    change (10 ^ Z.of_nat 1) with 10. lia.
Qed.

Lemma digits_of_spec (fuel : nat) (n : Z) (acc : list ascii) :
  0 <= n < 10 ^ Z.of_nat (S fuel) ->
  exists ds, digits_of (S fuel) n acc = ds ++ acc /\ ds <> [] /\
             forallb is_digit ds = true /\
             forall a, digits_value a ds = a * 10 ^ Z.of_nat (List.length ds) + n.
Proof.
  revert n acc. induction fuel as [ | fuel IH]; intros n acc Hn.
  - apply digits_of_single. change (10 ^ Z.of_nat 1) with 10 in Hn. exact Hn.
  - destruct (Z_lt_dec n 10) as [Lt | Ge]; [apply digits_of_single; lia | ].
    assert (Hm : 0 <= n mod 10 < 10) by (apply Z.mod_pos_bound; lia).
    destruct (digit_char_spec _ Hm) as [D V].
    assert (Hq : 0 <= n / 10 < 10 ^ Z.of_nat (S fuel)).
    { split; [apply Z.div_pos; lia | ].
      apply Z.div_lt_upper_bound; [lia | ].
      rewrite (Nat2Z.inj_succ (S fuel)), Z.pow_succ_r in Hn by lia. lia. }
    destruct (IH (n / 10) (digit_char (n mod 10) :: acc) Hq) as [ds [E [Ne [F Val]]]].
    exists (ds ++ [digit_char (n mod 10)]).
    split; [ | split; [ | split]].
    + change (digits_of (S (S fuel)) n acc)
        with (if n <? 10 then digit_char (n mod 10) :: acc
              else digits_of (S fuel) (n / 10) (digit_char (n mod 10) :: acc)).
      rewrite (proj2 (Z.ltb_ge n 10)) by lia.
      rewrite E, <- app_assoc. reflexivity.
    + destruct ds; discriminate.
    + rewrite forallb_app, F. cbn [forallb]. now rewrite D.
    + intros a. rewrite digits_value_app, Val.
      cbn [digits_value fold_left]. rewrite V.
      rewrite length_app. cbn [List.length].
      rewrite Nat2Z.inj_add. change (Z.of_nat 1) with 1.
      rewrite Z.pow_add_r by lia. change (10 ^ 1) with 10.
      pose proof (Z.div_mod n 10 ltac:(lia)). lia.
Qed.

Lemma decimal_digits_spec (n : Z) :
  0 <= n ->
  decimal_digits n <> [] /\ forallb is_digit (decimal_digits n) = true /\
  forall a, digits_value a (decimal_digits n)
            = a * 10 ^ Z.of_nat (List.length (decimal_digits n)) + n.
Proof.
  intros Hn. unfold decimal_digits.
  assert (Hb : 0 <= n < 10 ^ Z.of_nat (S (Z.to_nat (Z.log2 n)))).
  { split; [exact Hn | ].
    rewrite Nat2Z.inj_succ, Z2Nat.id by apply Z.log2_nonneg.
    destruct (Z.eq_dec n 0) as [-> | Hz]; [reflexivity | ].
    apply Z.lt_le_trans with (2 ^ Z.succ (Z.log2 n)).
    - apply Z.log2_spec. lia.
    - apply Z.pow_le_mono_l. lia. }
  destruct (digits_of_spec _ n [] Hb) as [ds [E [Ne [F V]]]].
  rewrite E, app_nil_r. auto.
Qed.

(** What the reader of digits makes of a run of digits. *)
Lemma digits_run (ds rest : list ascii) (a k : Z) :
  forallb is_digit ds = true ->
  match rest with [] => True | c :: _ => is_digit c = false end ->
  digits a k (ds ++ rest) = (digits_value a ds, k + Z.of_nat (List.length ds), rest).
Proof.
  revert a k. induction ds as [ | d ds IH]; intros a k F R.
  - cbn [app digits_value fold_left List.length]. rewrite Z.add_0_r.
    destruct rest as [ | c rest]; [reflexivity | ]. cbn [digits]. now rewrite R.
  - cbn [forallb] in F. apply andb_prop in F. destruct F as [D F].
    cbn [app digits]. rewrite D. rewrite (IH _ _ F R).
    cbn [digits_value fold_left List.length]. f_equal. f_equal.
    rewrite Nat2Z.inj_succ. lia.
Qed.

Lemma digit_facts (c : ascii) :
  is_digit c = true ->
  is_space c = false /\ lower c = c /\
  Ascii.eqb c "_" = false /\ Ascii.eqb c "," = false /\ Ascii.eqb c "." = false /\
  Ascii.eqb c "-" = false /\ Ascii.eqb c "+" = false /\
  Ascii.eqb c "i" = false /\ Ascii.eqb c "n" = false.
Proof. ascii_cases c; try discriminate; intros _; repeat split; reflexivity. Qed.

Lemma filter_all {A : Type} (p : A -> bool) (l : list A) :
  forallb p l = true -> filter p l = l.
Proof.
  induction l as [ | a l IH]; [reflexivity | ].
  cbn [forallb filter]. intros H. apply andb_prop in H. destruct H as [-> H].
  now rewrite IH.
Qed.

Lemma commas_removed (k : nat) (l : list ascii) :
  forallb no_comma l = true -> filter no_comma (commas k l) = l.
Proof.
  revert k. induction l as [ | d l IH]; intros k F; [reflexivity | ].
  cbn [forallb] in F. apply andb_prop in F. destruct F as [D F].
  cbn [commas]. destruct (k =? 3)%nat; cbn [filter]; rewrite ?D; cbn [no_comma Ascii.eqb];
    now rewrite IH.
Qed.

Lemma group_removed (ds : list ascii) :
  forallb no_comma ds = true -> filter no_comma (group ds) = ds.
Proof.
  intros F. unfold group. rewrite filter_rev, commas_removed.
  - apply rev_involutive.
  - rewrite forallb_forall in F |- *. intros c Hc. apply F. now apply in_rev.
Qed.

Lemma digits_no_comma (ds : list ascii) :
  forallb is_digit ds = true -> forallb no_comma ds = true.
Proof.
  rewrite !forallb_forall. intros F c Hc. unfold no_comma.
  destruct (digit_facts c (F c Hc)) as [_ [_ [_ [-> _]]]]. reflexivity.
Qed.


Lemma lstrip_clean (l : list ascii) : starts_clean l -> lstrip l = l.
Proof. destruct l as [ | h t]; [reflexivity | ]. cbn. now intros ->. Qed.

Lemma lstrip_spaces (k : nat) (l : list ascii) : lstrip (repeat " "%char k ++ l) = lstrip l.
Proof. induction k as [ | k IH]; [reflexivity | exact IH]. Qed.

Lemma strip_padded (k : nat) (l : list ascii) :
  starts_clean l -> starts_clean (rev l) -> strip (repeat " "%char k ++ l) = l.
Proof.
  intros H1 H2. unfold strip.
  rewrite lstrip_spaces, (lstrip_clean l H1), (lstrip_clean _ H2).
  apply rev_involutive.
Qed.

Lemma underscores_ok_none (prev : ascii) (l : list ascii) :
  Ascii.eqb prev "_" = false ->
  forallb (fun c => negb (Ascii.eqb c "_")) l = true ->
  underscores_ok prev l = true.
Proof.
  revert prev. induction l as [ | c l IH]; intros prev P F.
  - cbn. now rewrite P.
  - cbn [forallb] in F. apply andb_prop in F. destruct F as [C F].
    apply negb_true_iff in C. cbn [underscores_ok]. rewrite C, P. cbn [negb orb andb].
    now apply IH.
Qed.

(** What [float] reads from a sign, digits, a point and two digits, after
    any number of spaces. *)
Lemma read_fixed (k : nat) (neg : bool) (ds : list ascii) (c1 c2 : ascii) :
  ds <> [] -> forallb is_digit ds = true -> is_digit c1 = true -> is_digit c2 = true ->
  float_of_string
    (string_of_list_ascii
       (repeat " "%char k ++ (if neg then ["-"%char] else []) ++ ds ++ ["."%char; c1; c2]))
  = Some (F64.of_decimal neg (digits_value (digits_value 0 ds) [c1; c2]) (-2)).
Proof.
  intros Ne F D1 D2.
  destruct ds as [ | d ds]; [congruence | ]. clear Ne.
  cbn [forallb] in F. apply andb_prop in F. destruct F as [D F].
  destruct (digit_facts d D) as [Sd [Ld [Ud [_ [_ [Md [Pd [Id Nd]]]]]]]].
  destruct (digit_facts c1 D1) as [_ [_ [U1 _]]].
  destruct (digit_facts c2 D2) as [S2 [_ [U2 _]]].
  set (body := (d :: ds) ++ ["."%char; c1; c2]).
  assert (Hstrip : strip (repeat " "%char k ++ (if neg then ["-"%char] else []) ++ body)
                   = (if neg then ["-"%char] else []) ++ body).
  { apply strip_padded.
    - destruct neg; cbn; [reflexivity | exact Sd].
    - unfold body. rewrite !rev_app_distr. cbn. exact S2. }
  assert (Hsign : sign ((if neg then ["-"%char] else []) ++ body) = (neg, body)).
  { destruct neg; [reflexivity | ].
    unfold body. cbn [app sign].
    clear - D. ascii_cases d; try discriminate; reflexivity. }
  assert (Hund : forallb (fun c => negb (Ascii.eqb c "_")) body = true).
  { unfold body. rewrite forallb_app. cbn [forallb]. rewrite Ud, U1, U2. cbn.
    rewrite andb_true_r. rewrite forallb_forall in F |- *. intros c Hc.
    destruct (digit_facts c (F c Hc)) as [_ [_ [-> _]]]. reflexivity. }
  unfold float_of_string. rewrite list_ascii_of_string_of_list_ascii, Hstrip, Hsign.
  assert (W : forall w r, String.eqb (string_of_list_ascii (map lower body)) (String w r)
                          = if Ascii.eqb d w then String.eqb
                              (string_of_list_ascii (map lower (ds ++ ["."%char; c1; c2]))) r
                            else false).
  { intros w r. unfold body. cbn [app map string_of_list_ascii String.eqb]. now rewrite Ld. }
  rewrite !W, Id, Nd. cbn [orb].
  rewrite (underscores_ok_none " " body eq_refl Hund).
  unfold drop_underscores. rewrite (filter_all _ _ Hund).
  unfold decimal, body.
  rewrite (digits_run (d :: ds) ["."%char; c1; c2] 0 0);
    [ | cbn [forallb]; now rewrite D, F | reflexivity].
  cbn [Ascii.eqb].
  rewrite (digits_run [c1; c2] [] _ 0 ltac:(cbn [forallb]; now rewrite D1, D2) I).
  cbn [List.length exponent].
  replace (0 <? 0 + Z.of_nat (S (List.length ds)) + (0 + Z.of_nat 2)) with true
    by (symmetry; apply Z.ltb_lt; lia).
  reflexivity.
Qed.

(** The distance between a number and the nearest integer. *)
Lemma rne_error (x : Q) :
  (- (1 # 2) <= inject_Z (Round.rne x) - x <= 1 # 2)%Q.
Proof.
  unfold Round.rne.
  pose proof (Qfloor_le x) as Lo. pose proof (Qlt_floor x) as Hi.
  rewrite inject_Z_plus in Hi. change (inject_Z 1) with 1%Q in Hi.
  destruct (Qcompare_spec (x - inject_Z (Qfloor x)) (1 # 2)) as [E | L | G].
  - destruct (Z.even (Qfloor x)).
    + lra.
    + rewrite inject_Z_plus. change (inject_Z 1) with 1%Q. lra.
  - lra.
  - rewrite inject_Z_plus. change (inject_Z 1) with 1%Q. lra.
Qed.

Lemma rne_nonneg (x : Q) : (0 <= x)%Q -> 0 <= Round.rne x.
Proof.
  intros H. rewrite <- (RoundFacts.rne_Z 0). now apply RoundFacts.rne_mono.
Qed.

Lemma two_digits (n : Z) :
  0 <= n ->
  100 * (n / 100) + (10 * (n / 10 mod 10) + n mod 10) = n.
Proof.
  intros H.
  pose proof (Z.div_mod n 10 ltac:(lia)).
  pose proof (Z.div_mod (n / 10) 10 ltac:(lia)).
  rewrite Z.div_div in * by lia. change (10 * 10) with 100 in *. lia.
Qed.

(** The text of an amount, without its commas, as [float] reads it. *)
Lemma fixed2_reads_back (k : nat) (comma neg : bool) (x : Q) :
  (0 <= x)%Q ->
  float_of_string
    (remove_commas (string_of_list_ascii (repeat " "%char k ++ fixed2 comma neg x)))
  = Some (F64.of_decimal neg (Round.rne (x * 100)) (-2)).
Proof.
  intros Hx. unfold fixed2. cbv zeta.
  set (n := Round.rne (x * 100)).
  assert (Hn : 0 <= n) by (apply rne_nonneg; lra).
  assert (Hw : 0 <= n / 100) by (apply Z.div_pos; lia).
  destruct (decimal_digits_spec (n / 100) Hw) as [Ne [F V]].
  assert (H1 : 0 <= n / 10 mod 10 < 10) by (apply Z.mod_pos_bound; lia).
  assert (H2 : 0 <= n mod 10 < 10) by (apply Z.mod_pos_bound; lia).
  destruct (digit_char_spec _ H1) as [D1 V1]. destruct (digit_char_spec _ H2) as [D2 V2].
  set (ds := decimal_digits (n / 100)) in *.
  assert (Hrem : remove_commas
             (string_of_list_ascii
                (repeat " "%char k ++ (if neg then ["-"%char] else []) ++
                 (if comma then group ds else ds) ++
                 ["."%char; digit_char (n / 10 mod 10); digit_char (n mod 10)]))
           = string_of_list_ascii
               (repeat " "%char k ++ (if neg then ["-"%char] else []) ++ ds ++
                ["."%char; digit_char (n / 10 mod 10); digit_char (n mod 10)])).
  { unfold remove_commas. rewrite list_ascii_of_string_of_list_ascii. f_equal.
    rewrite !filter_app. f_equal; [ | f_equal; [ | f_equal]].
    - apply filter_all. clear. induction k; [reflexivity | exact IHk].
    - destruct neg; reflexivity.
    - destruct comma; [apply group_removed | apply filter_all]; now apply digits_no_comma.
    - apply filter_all. cbn [forallb]. unfold no_comma.
      destruct (digit_facts _ D1) as [_ [_ [_ [-> _]]]].
      destruct (digit_facts _ D2) as [_ [_ [_ [-> _]]]]. reflexivity. }
  rewrite Hrem, (read_fixed k neg ds _ _ Ne F D1 D2). f_equal. f_equal.
  rewrite V. cbn [digits_value fold_left]. rewrite V1, V2.
  pose proof (two_digits n Hn). lia.
Qed.

Lemma spaces_no_comma (k : nat) : forallb no_comma (repeat " "%char k) = true.
Proof. induction k as [ | k IH]; [reflexivity | exact IH]. Qed.

(** Spaces before a text that has no comma do not change what is read. *)
Lemma padded_reads (k : nat) (l : list ascii) :
  starts_clean l -> starts_clean (rev l) -> forallb no_comma l = true ->
  float_of_string (remove_commas (string_of_list_ascii (repeat " "%char k ++ l)))
  = float_of_string (string_of_list_ascii l).
Proof.
  intros H1 H2 F. unfold remove_commas.
  rewrite list_ascii_of_string_of_list_ascii, filter_all
    by (rewrite forallb_app, spaces_no_comma, F; reflexivity).
  unfold float_of_string. rewrite !list_ascii_of_string_of_list_ascii.
  rewrite (strip_padded k l H1 H2).
  pose proof (strip_padded 0 l H1 H2) as E0. cbn [repeat app] in E0. now rewrite E0.
Qed.

Lemma F2Q_nonneg (m : positive) (e : Z) : (0 <= Round.F2Q (Zpos m) e)%Q.
Proof. apply Qlt_le_weak, RoundFacts.F2Q_pos. lia. Qed.

End AmountFacts.

(** X12. The amounts of the report are the values to the nearest cent.  For
    every float and every width, with or without the comma, the formatting
    succeeds; the text of a finite float, read back by [float] once the
    commas are removed, is the decimal number [k / 100] of the same sign
    rounded to a float, where [k] is the number of cents nearest to the
    exact magnitude (the even one of two that are equally near), so that the
    amount shown is within half a cent of the value; an infinity and NaN are
    shown as [inf], [-inf] and [nan], which read back as themselves. *)
Theorem amount_reads_back (width : nat) (comma : bool) (f : F64.float) :
  exists text,
    py_format width comma (VFloat f) = Ok text /\
    (F64.is_finite f = true ->
     Text.float_of_string (remove_commas text)
       = Some (F64.of_decimal (sign_bit f) (cents f) (-2)) /\
     (- (1 # 2) <= inject_Z (cents f) - magnitude f * 100 <= 1 # 2)%Q) /\
    (F64.is_finite f = false -> Text.float_of_string (remove_commas text) = Some f).
Proof.
  eexists. split; [reflexivity | ]. unfold Format.pad_left.
  destruct f as [s | s | | s m e]; (split; [intros Fin | intros Inf]); try discriminate.
  - split.
    + cbn [Format.float_fixed2 sign_bit cents].
      rewrite AmountFacts.fixed2_reads_back; [reflexivity | lra].
    + cbn [cents magnitude]. change (inject_Z 0) with 0%Q. lra.
  - cbn [Format.float_fixed2].
    rewrite AmountFacts.padded_reads; destruct s; reflexivity.
  - cbn [Format.float_fixed2].
    rewrite AmountFacts.padded_reads; reflexivity.
  - split.
    + cbn [Format.float_fixed2 sign_bit cents].
      rewrite AmountFacts.fixed2_reads_back; [reflexivity | apply AmountFacts.F2Q_nonneg].
    + cbn [cents magnitude]. apply AmountFacts.rne_error.
Qed.

Lemma amount_reads_back_witness :
  exists text,
    py_format 12 true (VFloat (float_literal "1234567.891")) = Ok text /\
    Text.float_of_string (remove_commas text)
    = Some (F64.of_decimal false (cents (float_literal "1234567.891")) (-2)).
Proof.
  destruct (amount_reads_back 12 true (float_literal "1234567.891")) as [text [E [Fin _]]].
  exists text. split; [exact E | exact (proj1 (Fin eq_refl))].
Defined.

(** ** The text of a float reads back as the float *)

Module ReprFacts.
Import Round RoundFacts.
Local Open Scope Q_scope.

Local Abbreviation prec := F64.prec.
Local Abbreviation emax := F64.emax.
Local Abbreviation emin := (SpecFloat.emin F64.prec F64.emax).
Local Abbreviation fexp := (SpecFloat.fexp F64.prec F64.emax).

Lemma inject_Z_pred (n : Z) : inject_Z (n - 1) == inject_Z n - 1.
Proof.
  replace (n - 1)%Z with (n + -1)%Z by lia. rewrite inject_Z_plus.
  change (inject_Z (-1)) with (-1 # 1). ring.
Qed.

(** A number less than a half away from an integer rounds to it. *)
Lemma rne_near (z : Q) (n : Z) :
  inject_Z n - (1 # 2) < z -> z < inject_Z n + (1 # 2) -> rne z = n.
Proof.
  intros Lo Hi. unfold rne.
  destruct (Qlt_le_dec z (inject_Z n)) as [Below | Above].
  - assert (F : Qfloor z = (n - 1)%Z).
    { apply Qfloor_unique; rewrite inject_Z_pred; lra. }
    rewrite F. pose proof (inject_Z_pred n) as P.
    destruct (Qcompare_spec (z - inject_Z (n - 1)) (1 # 2)) as [E | L | G];
      [exfalso; lra | exfalso; lra | lia].
  - assert (F : Qfloor z = n) by (apply Qfloor_unique; lra).
    rewrite F.
    destruct (Qcompare_spec (z - inject_Z n) (1 # 2)) as [E | L | G];
      [exfalso; lra | reflexivity | exfalso; lra].
Qed.

(** The binade of a number determines the exponent of its rounding. *)
Lemma binade_fexp (x : Q) (k k' : Z) : binade x k -> binade x k' -> fexp k = fexp k'.
Proof.
  assert (Gap : forall a b, pow2 (a - 1) <= x -> x < pow2 b -> (a - 1 < b)%Z).
  { intros a b L U. apply pow2_lt_inv. now apply Qle_lt_trans with x. }
  intros [U [L | S]] [U' [L' | S']].
  - pose proof (Gap _ _ L U'). pose proof (Gap _ _ L' U).
    replace k' with k by lia. reflexivity.
  - pose proof (Gap _ _ L U'). unfold SpecFloat.fexp, SpecFloat.emin, F64.prec, F64.emax in *. lia.
  - pose proof (Gap _ _ L' U). unfold SpecFloat.fexp, SpecFloat.emin, F64.prec, F64.emax in *. lia.
  - unfold SpecFloat.fexp, SpecFloat.emin, F64.prec, F64.emax in *. lia.
Qed.

Lemma round_at_binade (x y : Q) (k k' : Z) :
  x == y -> binade x k -> binade x k' -> round_at k x = round_at k' y.
Proof.
  intros E B B'. unfold round_at. rewrite (binade_fexp x k k' B B').
  f_equal. apply rne_proper. now rewrite E.
Qed.

Lemma binade_proper (x y : Q) (k : Z) : x == y -> binade x k -> binade y k.
Proof. intros E [U L]. unfold binade. rewrite <- E. auto. Qed.


(** *** Powers of ten *)

Import Repr.

Lemma pow10_pos (e : Z) : 0 < pow10 e.
Proof. unfold pow10. apply Qpower_0_lt. reflexivity. Qed.

Lemma pow10_add (a b : Z) : pow10 (a + b) == pow10 a * pow10 b.
Proof. unfold pow10. apply Qpower_plus. discriminate. Qed.

Lemma pow10_Z (n : Z) : (0 <= n)%Z -> pow10 n == inject_Z (10 ^ n).
Proof. intros H. unfold pow10. rewrite Zpower_Qpower by exact H. reflexivity. Qed.

Lemma pow10_opp (n : Z) : pow10 (- n) == / pow10 n.
Proof. unfold pow10. apply Qpower_opp. Qed.

Lemma pow10_le (a b : Z) : (a <= b)%Z -> pow10 a <= pow10 b.
Proof. intros H. unfold pow10. apply Qpower_le_compat_l; [exact H | ]. discriminate. Qed.

Lemma pow10_0 : pow10 0 == 1.
Proof. reflexivity. Qed.

(** The value of the decimal number [d * 10^e]. *)
Lemma Zpow10_pos (n : Z) : (0 <= n)%Z -> (0 < 10 ^ n)%Z.
Proof. intros H. apply Z.pow_pos_nonneg; lia. Qed.

(** *** [of_decimal] rounds the value of the decimal number *)

Lemma of_decimal_round (d e : Z) :
  (0 < d)%Z ->
  exists k, F64.of_decimal false d e = round_at k (inject_Z d * pow10 e)
            /\ binade (inject_Z d * pow10 e) k.
Proof.
  intros Hd. destruct d as [ | p | p]; try lia.
  unfold F64.of_decimal. destruct (0 <=? e)%Z eqn:He.
  - apply Z.leb_le in He.
    pose proof (Zpow10_pos e He) as Hp.
    assert (Hz : (0 < Zpos p * 10 ^ e)%Z) by lia.
    destruct (of_Z_pos _ Hz) as [E B].
    assert (V : inject_Z (Zpos p * 10 ^ e) == inject_Z (Zpos p) * pow10 e).
    { rewrite inject_Z_mult, (pow10_Z e He). reflexivity. }
    exists (Zdigits2 (Zpos p * 10 ^ e)). split.
    + change (binary_normalize F64.prec F64.emax (Zpos p * 10 ^ e) 0 false)
        with (F64.of_Z (Zpos p * 10 ^ e)).
      rewrite E. apply (round_at_binade _ _ _ _ V B B).
    + exact (binade_proper _ _ _ V B).
  - apply Z.leb_gt in He.
    pose proof (Zpow10_pos (- e) ltac:(lia)) as Hp.
    destruct (div_Z_pos (Zpos p) (10 ^ (- e)) ltac:(lia) Hp) as [k [E B]].
    assert (V : inject_Z (Zpos p) / inject_Z (10 ^ (- e)) == inject_Z (Zpos p) * pow10 e).
    { rewrite <- (pow10_Z (- e)) by lia. rewrite pow10_opp.
      unfold Qdiv. rewrite Qinv_involutive. reflexivity. }
    exists k. split.
    + rewrite <- (round_at_binade _ _ _ _ V B B). rewrite <- E.
      unfold F64.div_Z.
      replace (Z.abs (10 ^ (- e))) with (10 ^ (- e))%Z by lia.
      replace (10 ^ (- e) <? 0)%Z with false by (symmetry; apply Z.ltb_ge; lia).
      reflexivity.
    + exact (binade_proper _ _ _ V B).
Qed.

(** Two decimal numbers of the same value are read as the same float. *)
Lemma of_decimal_value (d e d' e' : Z) :
  (0 < d)%Z -> (0 < d')%Z ->
  inject_Z d * pow10 e == inject_Z d' * pow10 e' ->
  F64.of_decimal false d e = F64.of_decimal false d' e'.
Proof.
  intros Hd Hd' V.
  destruct (of_decimal_round d e Hd) as [k [E B]].
  destruct (of_decimal_round d' e' Hd') as [k' [E' B']].
  rewrite E, E'. apply (round_at_binade _ _ _ _ V B).
  apply (binade_proper (inject_Z d' * pow10 e')); [now symmetry | exact B'].
Qed.

Lemma binary_round_aux_sign (s : bool) (m e : Z) (l : location) (m' : positive) (e' : Z) :
  binary_round_aux F64.prec F64.emax false m e l = S754_finite false m' e' ->
  binary_round_aux F64.prec F64.emax s m e l = S754_finite s m' e'.
Proof.
  unfold binary_round_aux.
  destruct (shr_fexp F64.prec F64.emax m e l) as [mrs1 e1].
  destruct (shr_fexp F64.prec F64.emax _ e1 loc_Exact) as [mrs2 e2].
  destruct (shr_m mrs2); try discriminate.
  destruct (e2 <=? F64.emax - F64.prec)%Z; try discriminate.
  intros [= -> ->]. reflexivity.
Qed.

(** The sign of the text is the sign of the float. *)
Lemma of_decimal_sign (s : bool) (d e : Z) (m : positive) (e' : Z) :
  (0 < d)%Z ->
  F64.of_decimal false d e = S754_finite false m e' ->
  F64.of_decimal s d e = S754_finite s m e'.
Proof.
  intros Hd. destruct d as [ | p | p]; try lia.
  destruct s; [ | auto].
  unfold F64.of_decimal. destruct (0 <=? e)%Z eqn:He.
  - apply Z.leb_le in He. pose proof (Zpow10_pos e He) as Hp.
    destruct (Zpos p * 10 ^ e)%Z as [ | q | q] eqn:Eq; try lia.
    cbn [Z.opp binary_normalize]. unfold binary_round.
    destruct (shl_align q 0 _) as [mz ez]. apply binary_round_aux_sign.
  - destruct (SFdiv_core_binary _ _ _ _ _ _) as [[q e1] l]. apply binary_round_aux_sign.
Qed.


(** *** A number near enough to a float rounds to it *)

Lemma round_to_mantissa (y : Q) (k e n : Z) :
  fexp k = e ->
  (inject_Z n - (1 # 2)) * pow2 e < y -> y < (inject_Z n + (1 # 2)) * pow2 e ->
  round_at k y = finish n e.
Proof.
  intros Fe Lo Hi. unfold round_at. rewrite Fe. f_equal.
  pose proof (pow2_pos e) as P.
  apply rne_near.
  - apply Qlt_shift_div_l; assumption.
  - apply Qlt_shift_div_r; assumption.
Qed.

Lemma pow2_pred (e : Z) : pow2 e == 2 * pow2 (e - 1).
Proof. rewrite <- pow2_succ. apply pow2_proper. lia. Qed.

Lemma round_near (m : positive) (e : Z) (y : Q) (k : Z) :
  canon (Zpos m) e -> (e <= emax - prec)%Z ->
  binade y k ->
  y < F2Q (Zpos m) e + pow2 (e - 1) ->
  F2Q (Zpos m) e - pow2 (e - 1) < y ->
  ((Zpos m = 2 ^ (prec - 1))%Z -> F2Q (Zpos m) e - pow2 (e - 2) < y) ->
  round_at k y = S754_finite false m e.
Proof.
  intros C He B Hi Lo Lo2.
  pose proof (canon_digits _ _ C) as Fx.
  destruct (Zdigits2_bounds (Zpos m) ltac:(lia)) as [Dpos [Dlo Dhi]].
  set (d := Zdigits2 (Zpos m)) in *.
  pose proof (pow2_pos (e - 2)) as Qpos.
  pose proof (pow2_pred e) as P1. pose proof (pow2_pred (e - 1)) as P2.
  replace (e - 1 - 1)%Z with (e - 2)%Z in P2 by lia.
  assert (Xlo : pow2 (d - 1 + e) <= F2Q (Zpos m) e) by (apply F2Q_ge_pow2; [exact Dlo | lia]).
  assert (Xhi : F2Q (Zpos m + 1) e <= pow2 (d + e)).
  { rewrite <- F2Q_pow2 by lia. apply F2Q_le. lia. }
  rewrite F2Q_succ in Xhi.
  assert (Fin : finish (Zpos m) e = S754_finite false m e).
  { rewrite (finish_canon _ _ C). apply Z.leb_le in He. now rewrite He. }
  assert (Same : fexp k = e -> round_at k y = S754_finite false m e).
  { intros Fe. rewrite <- Fin. apply round_to_mantissa; [exact Fe | | ].
    - unfold F2Q in Lo. set (X := inject_Z (Zpos m) * pow2 e) in *.
      setoid_replace ((inject_Z (Zpos m) - (1 # 2)) * pow2 e) with (X - pow2 (e - 1));
        [exact Lo | unfold X; rewrite P1; ring].
    - unfold F2Q in Hi. set (X := inject_Z (Zpos m) * pow2 e) in *.
      setoid_replace ((inject_Z (Zpos m) + (1 # 2)) * pow2 e) with (X + pow2 (e - 1));
        [exact Hi | unfold X; rewrite P1; ring]. }
  assert (Yhi : y < pow2 (d + e)).
  { set (X := F2Q (Zpos m) e) in *. set (A := pow2 (d + e)) in *.
    set (P := pow2 e) in *. set (P' := pow2 (e - 1)) in *. set (P'' := pow2 (e - 2)) in *.
    lra. }
  destruct (Qlt_le_dec y (pow2 (d + e - 1))) as [Below | Above].
  2:{ apply Same. rewrite <- Fx. apply (binade_fexp y); [exact B | ].
      split; [exact Yhi | left; exact Above]. }
  destruct (Z_lt_le_dec emin e) as [Normal | Sub].
  - destruct C as [[_ Mhi] [_ Big]]. specialize (Big Normal).
    assert (Hd : d = prec).
    { apply Zdigits2_unique; [ | lia | unfold F64.prec; lia]. split; [exact Big | exact Mhi]. }
    assert (Hm : (Zpos m = 2 ^ (prec - 1))%Z).
    { assert (Up : F2Q (Zpos m) e < F2Q (2 ^ (prec - 1) + 1) e).
      { rewrite F2Q_succ, F2Q_pow2 by (unfold F64.prec; lia).
        replace (d - 1 + e)%Z with (prec - 1 + e)%Z in Xlo by lia.
        replace (d + e - 1)%Z with (prec - 1 + e)%Z in Below by lia.
        set (X := F2Q (Zpos m) e) in *. set (A := pow2 (prec - 1 + e)) in *.
        set (P := pow2 e) in *. set (P' := pow2 (e - 1)) in *. lra. }
      unfold F2Q in Up.
      assert (Up' : inject_Z (Zpos m) < inject_Z (2 ^ (prec - 1) + 1)).
      { apply Qmult_lt_r with (pow2 e); [apply pow2_pos | exact Up]. }
      apply (proj2 (inject_Z_lt _ _)) in Up'. lia. }
    specialize (Lo2 Hm).
    assert (Xeq : F2Q (Zpos m) e == pow2 (prec - 1 + e)).
    { rewrite Hm. apply F2Q_pow2. unfold F64.prec. lia. }
    replace (d + e - 1)%Z with (prec - 1 + e)%Z in Below by lia.
    assert (B' : binade y (prec - 1 + e)).
    { split; [exact Below | left].
      pose proof (pow2_pred (prec - 1 + e)) as P3.
      assert (Le : pow2 (e - 2) <= pow2 (prec - 1 + e - 1))
        by (apply pow2_le; unfold F64.prec; lia).
      set (X := F2Q (Zpos m) e) in *. set (A := pow2 (prec - 1 + e)) in *.
      set (A' := pow2 (prec - 1 + e - 1)) in *. set (P'' := pow2 (e - 2)) in *.
      lra. }
    assert (Fe : fexp (prec - 1 + e) = (e - 1)%Z).
    { unfold SpecFloat.fexp, SpecFloat.emin, F64.prec, F64.emax in *. lia. }
    rewrite (round_at_binade y y k (prec - 1 + e) (Qeq_refl y) B B').
    rewrite (round_to_mantissa y (prec - 1 + e) (e - 1) (2 ^ prec) Fe).
    + rewrite finish_carry by lia.
      replace (e - 1 + 1)%Z with e by lia. rewrite <- Hm. exact Fin.
    + assert (T : (inject_Z (2 ^ prec) - (1 # 2)) * pow2 (e - 1)
                  == F2Q (Zpos m) e - pow2 (e - 2)).
      { rewrite Xeq, <- (F2Q_pow2 (prec - 1) e) by (unfold F64.prec; lia).
        unfold F2Q. rewrite P1, P2.
        change (inject_Z (2 ^ prec)) with (2 * inject_Z (2 ^ (prec - 1))). ring. }
      rewrite T. exact Lo2.
    + assert (T : (inject_Z (2 ^ prec) + (1 # 2)) * pow2 (e - 1)
                  == pow2 (prec - 1 + e) + pow2 (e - 2)).
      { rewrite <- (F2Q_pow2 (prec - 1) e) by (unfold F64.prec; lia).
        unfold F2Q. rewrite P1, P2.
        change (inject_Z (2 ^ prec)) with (2 * inject_Z (2 ^ (prec - 1))). ring. }
      rewrite T.
      set (A := pow2 (prec - 1 + e)) in *. set (P'' := pow2 (e - 2)) in *. lra.
  - apply Same. destruct C as [_ [Emin _]].
    assert (Ee : e = emin) by lia.
    destruct B as [U [L | S]].
    + assert (k - 1 < d + e - 1)%Z.
      { apply pow2_lt_inv. apply Qle_lt_trans with y; assumption. }
      unfold SpecFloat.fexp, SpecFloat.emin, F64.prec, F64.emax in *. lia.
    + unfold SpecFloat.fexp, SpecFloat.emin, F64.prec, F64.emax in *. lia.
Qed.


(** *** The number of decimal digits and the decimal exponent *)

Local Close Scope Q_scope.
Local Open Scope Z_scope.

Lemma digits_of_size (fuel : nat) (n : Z) (acc : list ascii) :
  0 <= n < 10 ^ Z.of_nat (S fuel) ->
  exists ds, Format.digits_of (S fuel) n acc = ds ++ acc /\
             n < 10 ^ Z.of_nat (List.length ds) /\
             (0 < n -> 10 ^ (Z.of_nat (List.length ds) - 1) <= n).
Proof.
  assert (Single : forall fuel n acc, 0 <= n < 10 ->
            exists ds, Format.digits_of (S fuel) n acc = ds ++ acc /\
                       n < 10 ^ Z.of_nat (List.length ds) /\
                       (0 < n -> 10 ^ (Z.of_nat (List.length ds) - 1) <= n)).
  { clear. intros fuel n acc Hn. exists [Format.digit_char n].
    cbn [Format.digits_of]. cbv zeta.
    rewrite Z.mod_small by lia. rewrite (proj2 (Z.ltb_lt n 10)) by lia.
    split; [reflexivity | ]. cbn [List.length]. change (10 ^ Z.of_nat 1) with 10.
    change (10 ^ (Z.of_nat 1 - 1)) with 1. lia. }
  revert n acc. induction fuel as [ | fuel IH]; intros n acc Hn.
  - apply Single. change (10 ^ Z.of_nat 1) with 10 in Hn. exact Hn.
  - destruct (Z_lt_dec n 10) as [Lt | Ge]; [apply Single; lia | ].
    assert (Hq : 0 <= n / 10 < 10 ^ Z.of_nat (S fuel)).
    { split; [apply Z.div_pos; lia | ].
      apply Z.div_lt_upper_bound; [lia | ].
      rewrite (Nat2Z.inj_succ (S fuel)), Z.pow_succ_r in Hn by lia. lia. }
    destruct (IH (n / 10) (Format.digit_char (n mod 10) :: acc) Hq) as [ds [E [Up Lo]]].
    exists (ds ++ [Format.digit_char (n mod 10)]).
    split; [ | split].
    + change (Format.digits_of (S (S fuel)) n acc)
        with (if n <? 10 then Format.digit_char (n mod 10) :: acc
              else Format.digits_of (S fuel) (n / 10) (Format.digit_char (n mod 10) :: acc)).
      rewrite (proj2 (Z.ltb_ge n 10)) by lia.
      rewrite E, <- app_assoc. reflexivity.
    + rewrite length_app. cbn [List.length]. rewrite Nat2Z.inj_add.
      change (Z.of_nat 1) with 1. rewrite Z.pow_add_r by lia. change (10 ^ 1) with 10.
      pose proof (Z.div_mod n 10 ltac:(lia)).
      pose proof (Z.mod_pos_bound n 10 ltac:(lia)). lia.
    + intros _. rewrite length_app. cbn [List.length]. rewrite Nat2Z.inj_add.
      change (Z.of_nat 1) with 1.
      assert (Hq0 : 0 < n / 10) by (apply Z.div_str_pos; lia).
      specialize (Lo Hq0).
      assert (Len : 1 <= Z.of_nat (List.length ds)).
      { destruct ds; [cbn in Up; lia | cbn [List.length]; lia]. }
      replace (Z.of_nat (List.length ds) + 1 - 1)
        with (Z.of_nat (List.length ds) - 1 + 1) by lia.
      rewrite Z.pow_add_r by lia. change (10 ^ 1) with 10.
      pose proof (Z.div_mod n 10 ltac:(lia)).
      pose proof (Z.mod_pos_bound n 10 ltac:(lia)). lia.
Qed.

Lemma ndigits_bounds (n : Z) :
  0 < n -> 10 ^ (ndigits n - 1) <= n < 10 ^ ndigits n /\ 1 <= ndigits n.
Proof.
  intros Hn. unfold ndigits, Format.decimal_digits.
  assert (Hb : 0 <= n < 10 ^ Z.of_nat (S (Z.to_nat (Z.log2 n)))).
  { split; [lia | ].
    rewrite Nat2Z.inj_succ, Z2Nat.id by apply Z.log2_nonneg.
    apply Z.lt_le_trans with (2 ^ Z.succ (Z.log2 n)).
    - apply Z.log2_spec. lia.
    - apply Z.pow_le_mono_l. lia. }
  destruct (digits_of_size _ n [] Hb) as [ds [E [Up Lo]]].
  rewrite E, app_nil_r.
  split; [split; [now apply Lo | exact Up] | ].
  destruct ds; [cbn in Up; lia | cbn [List.length]; lia].
Qed.

Local Close Scope Z_scope.
Local Open Scope Q_scope.

Lemma decimal_exponent_lower (x : Q) :
  0 < x -> pow10 (decimal_exponent x - 1) <= x.
Proof.
  intros Hx. unfold decimal_exponent.
  destruct (Qle_bool 1 x) eqn:L.
  - apply Qle_bool_iff in L.
    assert (N1 : (1 <= Qfloor x)%Z).
    { change 1%Z with (Qfloor 1). now apply Qfloor_resp_le. }
    destruct (ndigits_bounds (Qfloor x) ltac:(lia)) as [[Lo _] D].
    rewrite pow10_Z by lia.
    apply Qle_trans with (inject_Z (Qfloor x)); [ | apply Qfloor_le].
    now apply (proj1 (inject_Z_le _ _)).
  - assert (Lt : x < 1).
    { apply Qnot_le_lt. intros H. apply Qle_bool_iff in H. congruence. }
    assert (Nz : ~ x == 0) by (intros E; rewrite E in Hx; discriminate Hx).
    assert (Ix : 1 < / x).
    { apply Qmult_lt_l with x; [exact Hx | ]. rewrite Qmult_inv_r by exact Nz. lra. }
    assert (N1 : (1 <= Qfloor (/ x))%Z).
    { change 1%Z with (Qfloor 1). apply Qfloor_resp_le. lra. }
    destruct (ndigits_bounds (Qfloor (/ x)) ltac:(lia)) as [[_ Up] D].
    set (nd := ndigits (Qfloor (/ x))) in *.
    replace (1 - nd - 1)%Z with (- nd)%Z by lia.
    rewrite pow10_opp, pow10_Z by lia.
    assert (T : / x < inject_Z (10 ^ nd)).
    { apply Qlt_le_trans with (inject_Z (Qfloor (/ x) + 1)); [apply Qlt_floor | ].
      apply (proj1 (inject_Z_le _ _)). lia. }
    assert (Tpos : 0 < inject_Z (10 ^ nd)) by lra.
    assert (One : 1 < x * inject_Z (10 ^ nd)).
    { setoid_replace 1 with (x * / x) by (now rewrite Qmult_inv_r).
      apply Qmult_lt_l; assumption. }
    apply Qlt_le_weak.
    setoid_replace (/ inject_Z (10 ^ nd)) with (1 / inject_Z (10 ^ nd))
      by (unfold Qdiv; ring).
    apply Qlt_shift_div_r; assumption.
Qed.


(** *** Seventeen digits are enough *)

Lemma pow10_inv (k : Z) : pow10 k * pow10 (- k) == 1.
Proof. rewrite <- pow10_add. replace (k + - k)%Z with 0%Z by lia. reflexivity. Qed.

Lemma nearest17 (m : positive) (e k : Z) :
  canon (Zpos m) e -> (e <= emax - prec)%Z ->
  pow10 (k - 1) <= F2Q (Zpos m) e ->
  (0 < rne (F2Q (Zpos m) e * pow10 (17 - k)))%Z /\
  F64.of_decimal false (rne (F2Q (Zpos m) e * pow10 (17 - k))) (k - 17)
  = S754_finite false m e.
Proof.
  intros C He Hk.
  set (x := F2Q (Zpos m) e) in *. set (t := x * pow10 (17 - k)).
  set (c := rne t).
  pose proof (pow10_pos (k - 17)) as Tpos. set (T := pow10 (k - 17)) in *.
  assert (K1 : pow10 (k - 1) == T * 10000000000000000).
  { replace (k - 1)%Z with (k - 17 + 16)%Z by lia. rewrite pow10_add. reflexivity. }
  assert (Xt : x == t * T).
  { unfold t, T. rewrite <- Qmult_assoc.
    replace (k - 17)%Z with (- (17 - k))%Z by lia. rewrite pow10_inv. ring. }
  assert (T16 : 10000000000000000 <= t).
  { apply Qmult_le_r with T; [exact Tpos | ]. rewrite <- Xt.
    rewrite Qmult_comm, <- K1. exact Hk. }
  assert (Cpos : (10000000000000000 <= c)%Z).
  { unfold c. rewrite <- (rne_Z 10000000000000000). now apply rne_mono. }
  split; [lia | ].
  destruct (of_decimal_round c (k - 17) ltac:(lia)) as [kk [E B]].
  rewrite E. fold T in E, B |- *.
  pose proof (AmountFacts.rne_error t) as Err. fold c in Err.
  set (y := inject_Z c * T) in *.
  assert (D : y - x == (inject_Z c - t) * T) by (unfold y; rewrite Xt; ring).
  assert (Dlo : - ((1 # 2) * T) <= y - x).
  { rewrite D. setoid_replace (- ((1 # 2) * T)) with ((- (1 # 2)) * T) by ring.
    apply Qmult_le_compat_r; [apply Err | now apply Qlt_le_weak]. }
  assert (Dhi : y - x <= (1 # 2) * T).
  { rewrite D. apply Qmult_le_compat_r; [apply Err | now apply Qlt_le_weak]. }
  rewrite K1 in Hk.
  pose proof C as [[Mlo Mhi] _].
  pose proof (pow2_pos (e - 2)) as Qpos.
  pose proof (pow2_pred e) as P1. pose proof (pow2_pred (e - 1)) as P2.
  replace (e - 1 - 1)%Z with (e - 2)%Z in P2 by lia.
  assert (Xup : x < 9007199254740992 * pow2 e).
  { unfold x. change 9007199254740992 with (inject_Z (2 ^ prec)).
    change (inject_Z (2 ^ prec) * pow2 e) with (F2Q (2 ^ prec) e). now apply F2Q_lt. }
  apply (round_near m e y kk C He B); fold x.
  - set (P := pow2 e) in *. set (P' := pow2 (e - 1)) in *. set (P'' := pow2 (e - 2)) in *.
    lra.
  - set (P := pow2 e) in *. set (P' := pow2 (e - 1)) in *. set (P'' := pow2 (e - 2)) in *.
    lra.
  - intros Hm.
    assert (Xeq : x == 4503599627370496 * pow2 e).
    { unfold x, F2Q. rewrite Hm. reflexivity. }
    set (P := pow2 e) in *. set (P' := pow2 (e - 1)) in *. set (P'' := pow2 (e - 2)) in *.
    lra.
Qed.

(** *** The search for the shortest digits *)

Lemma same_float_eq (f g : F64.float) : same_float f g = true -> f = g.
Proof.
  destruct f as [s | s | | s m e], g as [s' | s' | | s' m' e']; cbn [same_float];
    try discriminate; try reflexivity.
  - intros H. apply eqb_prop in H. now subst.
  - intros H. apply eqb_prop in H. now subst.
  - intros H. apply andb_prop in H. destruct H as [H He].
    apply andb_prop in H. destruct H as [Hs Hm].
    apply eqb_prop in Hs. apply Pos.eqb_eq in Hm. apply Z.eqb_eq in He. now subst.
Qed.

Lemma candidate_spec (f : F64.float) (x : Q) (k n c : Z) :
  0 <= x -> candidate f x k n = Some c ->
  (0 <= c)%Z /\ F64.of_decimal false c (k - n) = f.
Proof.
  intros Hx. unfold candidate. cbv zeta.
  assert (T : 0 <= x * pow10 (n - k)).
  { apply Qmult_le_0_compat; [exact Hx | apply Qlt_le_weak, pow10_pos]. }
  pose proof (Qfloor_resp_le 0 _ T) as F0. change (Qfloor 0) with 0%Z in F0.
  pose proof (AmountFacts.rne_nonneg _ T) as R0.
  set (lo := Qfloor (x * pow10 (n - k))) in *. set (r := rne (x * pow10 (n - k))) in *.
  clearbody lo r.
  repeat match goal with
         | |- context [same_float ?a ?b] =>
           let E := fresh "E" in destruct (same_float a b) eqn:E
         end; intros [= <-]; (split; [lia | now apply same_float_eq]).
Qed.

Lemma search_spec (fuel : nat) (f : F64.float) (x : Q) (k n : Z) :
  0 <= x ->
  (0 <= rne (x * pow10 (n + Z.of_nat fuel - k)))%Z /\
  F64.of_decimal false (rne (x * pow10 (n + Z.of_nat fuel - k))) (k - (n + Z.of_nat fuel)) = f ->
  (0 <= fst (search fuel f x k n))%Z /\
  F64.of_decimal false (fst (search fuel f x k n)) (snd (search fuel f x k n)) = f.
Proof.
  intros Hx. revert n. induction fuel as [ | fuel IH]; intros n H.
  - cbn [search fst snd]. cbn [Z.of_nat] in H. rewrite Z.add_0_r in H. exact H.
  - cbn [search]. destruct (candidate f x k n) as [c | ] eqn:Ec.
    + cbn [fst snd]. exact (candidate_spec f x k n c Hx Ec).
    + apply IH. rewrite Nat2Z.inj_succ in H.
      replace (n + 1 + Z.of_nat fuel)%Z with (n + Z.succ (Z.of_nat fuel))%Z by lia.
      exact H.
Qed.

Lemma shortest_spec (m : positive) (e : Z) :
  canon (Zpos m) e -> (e <= emax - prec)%Z ->
  (0 < fst (shortest (S754_finite false m e) (F2Q (Zpos m) e)))%Z /\
  F64.of_decimal false (fst (shortest (S754_finite false m e) (F2Q (Zpos m) e)))
    (snd (shortest (S754_finite false m e) (F2Q (Zpos m) e)))
  = S754_finite false m e.
Proof.
  intros C He. unfold shortest.
  assert (Hx : 0 < F2Q (Zpos m) e) by (apply F2Q_pos; lia).
  pose proof (decimal_exponent_lower _ Hx) as Hk.
  destruct (nearest17 m e _ C He Hk) as [P E].
  destruct (search_spec 16 (S754_finite false m e) (F2Q (Zpos m) e)
              (decimal_exponent (F2Q (Zpos m) e)) 1 (Qlt_le_weak _ _ Hx)) as [N R].
  { change (1 + Z.of_nat 16)%Z with 17%Z. split; [lia | exact E]. }
  split; [ | exact R].
  destruct (Z.eq_dec (fst (search 16 (S754_finite false m e) (F2Q (Zpos m) e)
                             (decimal_exponent (F2Q (Zpos m) e)) 1)) 0) as [Z0 | NZ];
    [ | lia].
  rewrite Z0 in R. discriminate R.
Qed.

Lemma strip_zeros_spec (fuel : nat) (c e : Z) :
  (0 < c)%Z ->
  (0 < fst (strip_zeros fuel c e))%Z /\
  inject_Z (fst (strip_zeros fuel c e)) * pow10 (snd (strip_zeros fuel c e))
  == inject_Z c * pow10 e.
Proof.
  revert c e. induction fuel as [ | fuel IH]; intros c e Hc.
  - cbn [strip_zeros fst snd]. split; [exact Hc | reflexivity].
  - cbn [strip_zeros].
    destruct ((c mod 10 =? 0)%Z && negb (c =? 0)%Z) eqn:Z0.
    + apply andb_prop in Z0. destruct Z0 as [Z0 _]. apply Z.eqb_eq in Z0.
      pose proof (Z.div_mod c 10 ltac:(lia)) as Dm.
      assert (Hq : (0 < c / 10)%Z) by lia.
      destruct (IH (c / 10)%Z (e + 1)%Z Hq) as [P V].
      split; [exact P | ]. rewrite V, pow10_add.
      assert (Ec : inject_Z c == inject_Z (c / 10) * 10).
      { change 10 with (inject_Z 10). rewrite <- inject_Z_mult.
        replace (c / 10 * 10)%Z with c by lia. reflexivity. }
      rewrite Ec. change (pow10 1) with 10. ring.
    + cbn [fst snd]. split; [exact Hc | reflexivity].
Qed.

End ReprFacts.

Module ReadFacts.
Import Text Format Repr AmountFacts ReprFacts.

Lemma plain_facts (c : ascii) :
  plain c = true -> is_space c = false /\ Ascii.eqb c "_" = false.
Proof.
  unfold plain. intros H. apply andb_prop in H. destruct H as [H1 H2].
  apply negb_true_iff in H1, H2. auto.
Qed.

Lemma strip_plain (l : list ascii) : forallb plain l = true -> strip l = l.
Proof.
  intros F.
  assert (Clean : forall l', (forall c, In c l' -> plain c = true) -> starts_clean l').
  { intros [ | h t] H; [exact I | ]. cbn. apply plain_facts, H. now left. }
  rewrite forallb_forall in F.
  pose proof (strip_padded 0 l (Clean l F)) as E. cbn [repeat app] in E. apply E.
  apply Clean. intros c Hc. apply F. now apply in_rev.
Qed.

Lemma underscores_plain (prev : ascii) (l : list ascii) :
  Ascii.eqb prev "_" = false -> forallb plain l = true -> underscores_ok prev l = true.
Proof.
  intros P F. apply underscores_ok_none; [exact P | ].
  rewrite forallb_forall in F |- *. intros c Hc.
  destruct (plain_facts c (F c Hc)) as [_ ->]. reflexivity.
Qed.

Lemma drop_plain (l : list ascii) : forallb plain l = true -> drop_underscores l = l.
Proof.
  intros F. unfold drop_underscores. apply filter_all.
  rewrite forallb_forall in F |- *. intros c Hc.
  destruct (plain_facts c (F c Hc)) as [_ ->]. reflexivity.
Qed.

Lemma digits_plain (l : list ascii) : forallb is_digit l = true -> forallb plain l = true.
Proof.
  rewrite !forallb_forall. intros F c Hc. unfold plain.
  destruct (digit_facts c (F c Hc)) as [-> [_ [-> _]]]. reflexivity.
Qed.

(** What the reader of exponents makes of an exponent. *)
Lemma exponent_read (sneg : bool) (eds : list ascii) :
  eds <> [] -> forallb is_digit eds = true ->
  exponent ("e"%char :: (if sneg then "-"%char else "+"%char) :: eds)
  = Some (if sneg then - digits_value 0 eds else digits_value 0 eds).
Proof.
  intros Ne F. unfold exponent. cbn [lower N_of_ascii Ascii.eqb].
  change (Ascii.eqb (lower "e") "e") with true. cbv iota.
  assert (S : sign ((if sneg then "-"%char else "+"%char) :: eds) = (sneg, eds))
    by (destruct sneg; reflexivity).
  rewrite S.
  pose proof (digits_run eds [] 0 0 F I) as D. rewrite app_nil_r in D. rewrite D.
  replace (0 <? 0 + Z.of_nat (List.length eds)) with true; [reflexivity | ].
  symmetry. apply Z.ltb_lt. destruct eds; [congruence | cbn [List.length]; lia].
Qed.

(** What [float] reads from a sign, digits, perhaps a point and digits, and
    perhaps an exponent. *)
Lemma read_number (neg : bool) (ip fp : list ascii) (point : bool)
    (ex : option (bool * list ascii)) :
  ip <> [] -> forallb is_digit ip = true -> forallb is_digit fp = true ->
  (point = false -> fp = []) ->
  match ex with
  | Some (_, eds) => eds <> [] /\ forallb is_digit eds = true
  | None => True
  end ->
  float_of_string
    (string_of_list_ascii
       ((if neg then ["-"%char] else []) ++ ip ++
        (if point then "."%char :: fp else []) ++
        match ex with
        | Some (sneg, eds) => "e"%char :: (if sneg then "-"%char else "+"%char) :: eds
        | None => []
        end))
  = Some (F64.of_decimal neg (digits_value (digits_value 0 ip) fp)
            (match ex with
             | Some (sneg, eds) => if sneg then - digits_value 0 eds else digits_value 0 eds
             | None => 0
             end - Z.of_nat (List.length fp))).
Proof.
  intros Ne Fi Ff Pt Ex.
  set (et := match ex with
             | Some (sneg, eds) => "e"%char :: (if sneg then "-"%char else "+"%char) :: eds
             | None => []
             end).
  set (X := match ex with
            | Some (sneg, eds) => if sneg then - digits_value 0 eds else digits_value 0 eds
            | None => 0
            end).
  assert (Hex : exponent et = Some X).
  { unfold et, X. destruct ex as [[sneg eds] | ]; [ | reflexivity].
    destruct Ex as [Ne' F']. now apply exponent_read. }
  assert (Het : match et with [] => True | c :: _ => is_digit c = false end).
  { unfold et. destruct ex as [[sneg eds] | ]; [reflexivity | exact I]. }
  assert (Het' : et = [] \/ exists r, et = "e"%char :: r).
  { unfold et. destruct ex as [[sneg eds] | ]; [right; eexists; reflexivity | now left]. }
  assert (Pet : forallb plain et = true).
  { unfold et. destruct ex as [[sneg eds] | ]; [ | reflexivity].
    destruct Ex as [_ F']. cbn [forallb]. rewrite (digits_plain _ F').
    destruct sneg; reflexivity. }
  clearbody et X. clear Ex.
  set (tail := (if point then "."%char :: fp else []) ++ et).
  assert (Ptail : forallb plain tail = true).
  { unfold tail. rewrite forallb_app, Pet, andb_true_r.
    destruct point; [ | reflexivity]. cbn [forallb]. now rewrite (digits_plain _ Ff). }
  destruct ip as [ | d ip]; [congruence | ]. clear Ne.
  cbn [forallb] in Fi. apply andb_prop in Fi. destruct Fi as [D Fi].
  destruct (digit_facts d D) as [Sd [Ld [Ud [_ [_ [Md [Pd [Id Nd]]]]]]]].
  set (body := (d :: ip) ++ tail).
  assert (Pbody : forallb plain body = true).
  { unfold body. rewrite forallb_app, Ptail, andb_true_r.
    apply digits_plain. cbn [forallb]. now rewrite D, Fi. }
  assert (Hstrip : strip ((if neg then ["-"%char] else []) ++ body)
                   = (if neg then ["-"%char] else []) ++ body).
  { apply strip_plain. rewrite forallb_app, Pbody. destruct neg; reflexivity. }
  assert (Hsign : sign ((if neg then ["-"%char] else []) ++ body) = (neg, body)).
  { destruct neg; [reflexivity | ]. unfold body. cbn [app sign].
    clear - D. ascii_cases d; try discriminate; reflexivity. }
  unfold float_of_string. rewrite list_ascii_of_string_of_list_ascii.
  fold tail. fold body. rewrite Hstrip, Hsign.
  assert (W : forall w r, String.eqb (string_of_list_ascii (map lower body)) (String w r)
                          = if Ascii.eqb d w then String.eqb
                              (string_of_list_ascii (map lower (ip ++ tail))) r
                            else false).
  { intros w r. unfold body. cbn [app map string_of_list_ascii String.eqb]. now rewrite Ld. }
  rewrite !W, Id, Nd. cbn [orb].
  rewrite (underscores_plain " " body eq_refl Pbody), (drop_plain body Pbody).
  unfold decimal, body.
  assert (Htail : match tail with [] => True | c :: _ => is_digit c = false end).
  { unfold tail. destruct point; [reflexivity | exact Het]. }
  rewrite (digits_run (d :: ip) tail 0 0);
    [ | cbn [forallb]; now rewrite D, Fi | exact Htail].
  unfold tail. destruct point.
  - cbn [app Ascii.eqb]. rewrite (digits_run fp et _ 0 Ff Het). rewrite Hex.
    replace (0 <? 0 + Z.of_nat (List.length (d :: ip)) + (0 + Z.of_nat (List.length fp)))
      with true by (symmetry; apply Z.ltb_lt; cbn [List.length]; lia).
    do 2 f_equal; lia.
  - rewrite (Pt eq_refl). cbn [app List.length digits_value fold_left].
    destruct Het' as [-> | [r ->]].
    + rewrite Hex.
      replace (0 <? 0 + Z.of_nat (S (List.length ip)) + 0) with true
        by (symmetry; apply Z.ltb_lt; lia).
      reflexivity.
    + cbv iota. rewrite Hex.
      replace (0 <? 0 + Z.of_nat (S (List.length ip)) + 0) with true
        by (symmetry; apply Z.ltb_lt; lia).
      reflexivity.
Qed.


Lemma zeros_digits (n : Z) : forallb is_digit (zeros n) = true.
Proof. unfold zeros. induction (Z.to_nat n) as [ | k IH]; [reflexivity | exact IH]. Qed.

Lemma zeros_length (n : Z) : 0 <= n -> Z.of_nat (List.length (zeros n)) = n.
Proof. intros H. unfold zeros. rewrite repeat_length. lia. Qed.

Lemma zeros_value (a n : Z) : 0 <= n -> digits_value a (zeros n) = a * 10 ^ n.
Proof.
  intros H. unfold zeros. rewrite <- (Z2Nat.id n H) at 2.
  generalize (Z.to_nat n). intros k. revert a.
  induction k as [ | k IH]; intros a.
  - cbn. lia.
  - cbn [repeat]. change (digits_value a ("0"%char :: repeat "0"%char k))
      with (digits_value (10 * a + 0) (repeat "0"%char k)).
    rewrite IH. rewrite Nat2Z.inj_succ, Z.pow_succ_r by lia. lia.
Qed.

Lemma exponent_text_shape (X : Z) :
  exists eds, exponent_text X = "e"%char :: (if X <? 0 then "-"%char else "+"%char) :: eds
              /\ eds <> [] /\ forallb is_digit eds = true
              /\ digits_value 0 eds = Z.abs X.
Proof.
  unfold exponent_text. cbv zeta.
  destruct (decimal_digits_spec (Z.abs X) (Z.abs_nonneg X)) as [Ne [F V]].
  specialize (V 0). cbn [Z.mul] in V. rewrite Z.add_0_l in V.
  destruct (List.length (decimal_digits (Z.abs X)) <? 2)%nat.
  - exists ("0"%char :: decimal_digits (Z.abs X)).
    split; [reflexivity | split; [discriminate | split]].
    + cbn [forallb]. now rewrite F.
    + exact V.
  - exists (decimal_digits (Z.abs X)). auto.
Qed.

Local Open Scope Q_scope.

(** What [float] reads from the digits of [c] laid out for [c * 10^e]. *)
Lemma read_layout (neg : bool) (c e : Z) :
  (0 < c)%Z ->
  exists D E,
    float_of_string
      (string_of_list_ascii
         ((if neg then ["-"%char] else []) ++
          layout (decimal_digits c) (e + Z.of_nat (List.length (decimal_digits c)))))
    = Some (F64.of_decimal neg D E)
    /\ (0 < D)%Z /\ inject_Z D * pow10 E == inject_Z c * pow10 e.
Proof.
  intros Hc.
  destruct (decimal_digits_spec c ltac:(lia)) as [Ne [F V]].
  set (ds := decimal_digits c) in *. set (nd := Z.of_nat (List.length ds)) in *.
  assert (V0 : digits_value 0 ds = c) by (rewrite V; lia).
  assert (Hnd : (1 <= nd)%Z).
  { unfold nd. destruct ds; [congruence | cbn [List.length]; lia]. }
  unfold layout. fold nd. cbv zeta.
  destruct ((e + nd <=? -4)%Z || (16 <? e + nd)%Z) eqn:Eform.
  - (* exponent form *)
    destruct ds as [ | d rest] eqn:Eds; [congruence | ].
    destruct (exponent_text_shape (e + nd - 1)) as [eds [Ex [Ne' [F' V']]]].
    exists c, e. split; [ | split; [exact Hc | reflexivity]].
    cbn [forallb] in F. apply andb_prop in F. destruct F as [Fd Fr].
    pose proof (ReadFacts.read_number neg [d] rest
                  (match rest with [] => false | _ => true end)
                  (Some ((e + nd - 1 <? 0)%Z, eds))) as R.
    cbv beta iota in R.
    replace ((if neg then ["-"%char] else []) ++
             d :: (match rest with [] => [] | _ :: _ => "."%char :: rest end) ++
             exponent_text (e + nd - 1))
      with ((if neg then ["-"%char] else []) ++ [d] ++
            (if match rest with [] => false | _ => true end then "."%char :: rest else []) ++
            "e"%char :: (if (e + nd - 1 <? 0)%Z then "-"%char else "+"%char) :: eds).
    2:{ rewrite Ex. destruct rest; reflexivity. }
    rewrite R.
    + f_equal. f_equal.
      * exact V0.
      * rewrite V'. unfold nd. cbn [List.length]. rewrite Nat2Z.inj_succ.
        destruct (e + Z.succ (Z.of_nat (List.length rest)) - 1 <? 0)%Z eqn:Sg;
          [apply Z.ltb_lt in Sg | apply Z.ltb_ge in Sg]; lia.
    + discriminate.
    + cbn [forallb]. now rewrite Fd.
    + exact Fr.
    + destruct rest; [reflexivity | discriminate].
    + auto.
  - apply orb_false_iff in Eform. destruct Eform as [E1 E2].
    apply Z.leb_gt in E1. apply Z.ltb_ge in E2.
    destruct (e + nd <=? 0)%Z eqn:Esmall.
    + (* 0.000ddd *)
      apply Z.leb_le in Esmall.
      exists c, e. split; [ | split; [exact Hc | reflexivity]].
      pose proof (ReadFacts.read_number neg ["0"%char] (zeros (- (e + nd)) ++ ds) true None) as R.
      cbv beta iota in R. rewrite app_nil_r in R.
      change ((if neg then ["-"%char] else []) ++
              "0"%char :: "."%char :: zeros (- (e + nd)) ++ ds)
        with ((if neg then ["-"%char] else []) ++ ["0"%char] ++
              "."%char :: zeros (- (e + nd)) ++ ds).
      rewrite R.
      * f_equal. f_equal.
        -- change (digits_value 0 ["0"%char]) with 0%Z.
           rewrite digits_value_app, zeros_value by lia. rewrite Z.mul_0_l. exact V0.
        -- rewrite length_app, Nat2Z.inj_add, zeros_length by lia. fold nd. lia.
      * discriminate.
      * reflexivity.
      * rewrite forallb_app, zeros_digits, F. reflexivity.
      * discriminate.
      * exact I.
    + apply Z.leb_gt in Esmall.
      destruct (nd <=? e + nd)%Z eqn:Eint.
      * (* ddd000.0 *)
        apply Z.leb_le in Eint.
        assert (He : (0 <= e)%Z) by lia.
        exists (10 * (c * 10 ^ e))%Z, (-1)%Z.
        pose proof (Zpow10_pos e He) as Pp.
        split; [ | split; [lia | ]].
        -- pose proof (ReadFacts.read_number neg (ds ++ zeros (e + nd - nd)) ["0"%char]
                         true None) as R.
           cbv beta iota in R. rewrite app_nil_r in R.
           replace ((if neg then ["-"%char] else []) ++
                    ds ++ zeros (e + nd - nd) ++ ["."%char; "0"%char])
             with ((if neg then ["-"%char] else []) ++ (ds ++ zeros (e + nd - nd)) ++
                   "."%char :: ["0"%char])
             by (now rewrite <- app_assoc).
           rewrite R.
           ++ f_equal. f_equal.
              rewrite digits_value_app, V0, zeros_value by lia.
              replace (e + nd - nd)%Z with e by lia.
              cbn [digits_value fold_left]. change (digit_value "0") with 0%Z. lia.
           ++ destruct ds; [congruence | discriminate].
           ++ rewrite forallb_app, zeros_digits, F. reflexivity.
           ++ reflexivity.
           ++ discriminate.
           ++ exact I.
        -- rewrite !inject_Z_mult, <- (pow10_Z e He).
           change (pow10 (-1)) with (1 # 10). change (inject_Z 10) with 10. field.
      * (* ddd.ddd *)
        apply Z.leb_gt in Eint.
        exists c, e. split; [ | split; [exact Hc | reflexivity]].
        set (k := Z.to_nat (e + nd)).
        assert (Hk : (0 < k < List.length ds)%nat) by (unfold k, nd in *; lia).
        pose proof (firstn_skipn k ds) as Split.
        assert (F1 : forallb is_digit (firstn k ds) = true /\
                     forallb is_digit (skipn k ds) = true).
        { rewrite <- Split in F. rewrite forallb_app in F. now apply andb_prop in F. }
        destruct F1 as [F1 F2].
        pose proof (ReadFacts.read_number neg (firstn k ds) (skipn k ds) true None) as R.
        cbv beta iota in R. rewrite app_nil_r in R.
        rewrite R.
        -- f_equal. f_equal.
           ++ rewrite <- digits_value_app, Split. exact V0.
           ++ rewrite length_skipn. unfold k, nd in *. lia.
        -- intros E0. apply (f_equal (@List.length ascii)) in E0.
           rewrite length_firstn in E0. cbn [List.length] in E0. lia.
        -- exact F1.
        -- exact F2.
        -- discriminate.
        -- exact I.
Qed.

End ReadFacts.

(** X13. The text of a float reads back as the float.  For every float
    [f] (finite of either sign, a zero, an infinity or NaN), [float(str(f))]
    is [f] itself, bit for bit: the shortest digits that [repr] chooses, in
    whichever of its layouts, are read by [float] as the float they were made
    from, seventeen digits being always enough. *)
Theorem float_text_reads_back (f : F64.float) :
  well_formed (VFloat f) = true ->
  py_float (VStr (py_str (VFloat f))) = Ok (VFloat f).
Proof.
  intros W. destruct f as [s | s | | s m e]; try (destruct s; reflexivity); try reflexivity.
  cbn [well_formed] in W.
  destruct (RoundFacts.valid_canon m e W) as [C He].
  destruct (ReprFacts.shortest_spec m e C He) as [Pc Ec].
  cbn [py_str py_float Repr.float_text]. unfold Repr.positive_text.
  destruct (Repr.shortest (S754_finite false m e) (Round.F2Q (Zpos m) e)) as [c e10].
  cbn [fst snd] in Pc, Ec.
  destruct (ReprFacts.strip_zeros_spec 17 c e10 Pc) as [Pc' V'].
  destruct (Repr.strip_zeros 17 c e10) as [c' e'].
  cbn [fst snd] in Pc', V'.
  destruct (ReadFacts.read_layout s c' e' Pc') as [D [E [R [PD VD]]]].
  rewrite R.
  assert (Ef : F64.of_decimal false D E = S754_finite false m e).
  { rewrite <- Ec. apply ReprFacts.of_decimal_value; [exact PD | exact Pc | ].
    rewrite VD. exact V'. }
  now rewrite (ReprFacts.of_decimal_sign s D E m e PD Ef).
Qed.

Lemma float_text_reads_back_witness :
  py_float (VStr (py_str (VFloat (float_literal "0.06"))))
  = Ok (VFloat (float_literal "0.06")).
Proof. apply float_text_reads_back. reflexivity. Defined.

(** ** The prompt and its default *)

Module PromptFacts.
Import Text Format Repr AmountFacts.

Lemma of_decimal_int (z : Z) : F64.of_decimal (z <? 0) (Z.abs z) 0 = F64.of_Z z.
Proof.
  unfold F64.of_decimal, F64.of_Z.
  destruct z as [ | p | p]; [reflexivity | | ];
    cbn [Z.abs Z.ltb Z.compare Z.leb]; change (10 ^ 0) with 1;
    rewrite Z.mul_1_r; reflexivity.
Qed.

(** The text of an [int] reads back as the [int], converted. *)
Lemma int_text_reads_back (z : Z) :
  float_of_string (string_of_list_ascii (int_text z)) = Some (F64.of_Z z).
Proof.
  unfold int_text.
  destruct (decimal_digits_spec (Z.abs z) (Z.abs_nonneg z)) as [Ne [F V]].
  pose proof (ReadFacts.read_number (z <? 0) (decimal_digits (Z.abs z)) [] false None
                Ne F eq_refl (fun _ => eq_refl) I) as R.
  cbv beta iota in R. cbn [app] in R. rewrite !app_nil_r in R. rewrite R.
  cbn [digits_value fold_left List.length Z.of_nat]. change (0 - 0) with 0.
  fold (digits_value 0 (decimal_digits (Z.abs z))).
  rewrite V, Z.mul_0_l, Z.add_0_l. f_equal. apply of_decimal_int.
Qed.

Lemma py_float_of_text (s : string) (f : F64.float) :
  float_of_string s = Some f -> py_float (VStr s) = Ok (VFloat f).
Proof. intros E. cbn [py_float]. now rewrite E. Qed.

Lemma numeric_default_reads_back (d : value) :
  numeric_default d = true -> py_float (VStr (py_str d)) = py_float d.
Proof.
  destruct d as [ | b | z | f | s | q]; try discriminate; cbn [numeric_default]; intros H.
  - cbn [py_str]. rewrite (py_float_of_text _ _ (int_text_reads_back z)).
    cbn [py_float]. rewrite (int_to_float_fits z H). reflexivity.
  - apply float_text_reads_back. exact H.
Qed.

Lemma numeric_default_float (d : value) :
  numeric_default d = true -> exists f, py_float d = Ok (VFloat f).
Proof.
  destruct d as [ | b | z | f | s | q]; try discriminate; cbn [numeric_default]; intros H.
  - cbn [py_float]. rewrite (int_to_float_fits z H). eexists. reflexivity.
  - eexists. reflexivity.
Qed.

Lemma numeric_default_truthy (d : value) :
  numeric_default d = true -> str_truthy (py_str d) = true.
Proof.
  intros H. pose proof (numeric_default_reads_back d H) as R.
  destruct (numeric_default_float d H) as [f E]. rewrite E in R.
  destruct (py_str d); [discriminate R | reflexivity].
Qed.

Lemma line_value_default (d : value) :
  numeric_default d = true -> line_value (py_str d) d = line_value "" d.
Proof.
  intros H. unfold line_value. rewrite (numeric_default_truthy d H).
  cbn [str_truthy]. now apply numeric_default_reads_back.
Qed.

Lemma defaults_numeric (d : value) : In d defaults -> numeric_default d = true.
Proof.
  intros H. cbn in H.
  repeat (destruct H as [<- | H]; [reflexivity | ]). destruct H.
Qed.

Ltac read_same :=
  rewrite !read_step;
  match goal with
  | |- context [line_value ?l ?d] =>
    destruct (line_value l d); [cbv beta | split; reflexivity]
  end.

(** A run depends on a line only through what [main] makes of it. *)
Lemma main_try_default (before after : list string) (d : value) :
  nth_error defaults (List.length before) = Some d ->
  fst (main_try {| stdin := before ++ py_str d :: after; stdout := [] |})
  = fst (main_try {| stdin := before ++ ""%string :: after; stdout := [] |}) /\
  stdout (snd (main_try {| stdin := before ++ py_str d :: after; stdout := [] |}))
  = stdout (snd (main_try {| stdin := before ++ ""%string :: after; stdout := [] |})).
Proof.
  intros Hd.
  assert (E : line_value (py_str d) d = line_value "" d).
  { apply line_value_default, defaults_numeric. eapply nth_error_In. exact Hd. }
  destruct before as [ | l1 [ | l2 [ | l3 [ | l4 [ | l5 [ | l6 before]]]]]];
    unfold defaults in Hd; cbn [List.length nth_error] in Hd;
    try (exfalso; destruct (List.length before) in Hd; discriminate Hd);
    injection Hd as Hd; subst d; cbn [app]; unfold main_try.
  - rewrite !read_step, E. split; reflexivity.
  - read_same. rewrite !read_step, E. split; reflexivity.
  - do 2 read_same. rewrite !read_step, E. split; reflexivity.
  - do 3 read_same. rewrite !pricing_step; cbn [stdin stdout].
    rewrite !read_step, E. split; reflexivity.
  - do 3 read_same. rewrite !pricing_step; cbn [stdin stdout].
    read_same. rewrite !read_step, E. split; reflexivity.
  - do 3 read_same. rewrite !pricing_step; cbn [stdin stdout].
    do 2 read_same. rewrite !read_step, E. split; reflexivity.
Qed.

Lemma run_of_main_try (w1 w2 : world) :
  fst (main_try w1) = fst (main_try w2) ->
  stdout (snd (main_try w1)) = stdout (snd (main_try w2)) ->
  stdout (snd (main w1)) = stdout (snd (main w2)).
Proof.
  unfold main.
  destruct (main_try w1) as [r1 w1'], (main_try w2) as [r2 w2'].
  cbn [fst snd]. intros <- E.
  destruct r1 as [u | e]; [exact E | ].
  destruct e; unfold print, write; cbn [snd stdout]; now rewrite E.
Qed.

End PromptFacts.

(** X14. Typing the default is pressing Enter.  [get_input] shows the
    default between brackets as [str] writes it.  For a default that is an
    [int] (one that converts to a float) or a float, that text is not empty
    and [float] reads it as the float of the default, so that typing it gives
    [main] the same number as the empty line does; and in a run of [main],
    where the six defaults are such numbers, a line that repeats the default
    of its prompt can be replaced by an empty line without changing anything
    that is written. *)
Theorem typing_the_default_is_pressing_enter :
  (forall d, numeric_default d = true ->
     str_truthy (py_str d) = true /\
     py_float (VStr (py_str d)) = py_float d /\
     forall prompt rest out,
       (v <- fst (get_input prompt d {| stdin := py_str d :: rest; stdout := out |}) ;;
        py_float v)%py
       = (v <- fst (get_input prompt d {| stdin := ""%string :: rest; stdout := out |}) ;;
          py_float v)%py)
  /\ (forall before after d,
        nth_error defaults (List.length before) = Some d ->
        run (before ++ py_str d :: after) = run (before ++ ""%string :: after)).
Proof.
  split.
  - intros d H.
    pose proof (PromptFacts.numeric_default_truthy d H) as T.
    pose proof (PromptFacts.numeric_default_reads_back d H) as R.
    split; [exact T | split; [exact R | ]].
    intros prompt rest out.
    unfold get_input, input, io_bind, write, io_ret. cbn [fst stdin stdout bind].
    rewrite T. cbn [str_truthy bind]. exact R.
  - intros before after d Hd. unfold run.
    destruct (PromptFacts.main_try_default before after d Hd) as [R O].
    now apply PromptFacts.run_of_main_try.
Qed.

Lemma typing_the_default_is_pressing_enter_witness :
  py_float (VStr (py_str (VInt 50))) = py_float (VInt 50) /\
  run ["7"; "5"; "2000"; "0.06"; "10"; "3"]%string
  = run ["7"; "5"; ""; "0.06"; "10"; "3"]%string.
Proof.
  split.
  - exact (proj1 (proj2 (proj1 typing_the_default_is_pressing_enter (VInt 50) eq_refl))).
  - exact (proj2 typing_the_default_is_pressing_enter ["7"; "5"]%string
             ["0.06"; "10"; "3"]%string default_avg_tokens_per_call eq_refl).
Defined.

(** ** What a run shows *)

Module ScreenFacts.

Lemma screen_renders (out : list output) :
  Forall (fun o => exists s, render o = Ok s) out -> exists s, screen out = Ok s.
Proof.
  induction 1 as [ | o out [s Hs] _ [r Hr]].
  - eexists. reflexivity.
  - cbn [screen]. rewrite Hs, Hr. cbn [bind]. eexists. reflexivity.
Qed.

Lemma firstn_Forall {A : Type} (P : A -> Prop) (n : nat) (l : list A) :
  Forall P l -> Forall P (firstn n l).
Proof.
  intros H. revert n. induction H as [ | a l Ha _ IH]; intros [ | n]; cbn [firstn];
    constructor; auto.
Qed.

Lemma asked_renders (i : nat) :
  Forall (fun o => exists s, render o = Ok s) (asked i).
Proof.
  unfold asked. apply firstn_Forall.
  unfold console_prefix. repeat constructor; eexists; reflexivity.
Qed.

Lemma report_renders (p m t c d s : F64.float) :
  Forall (fun o => exists s, render o = Ok s) (report_of p m t c d s).
Proof. unfold report_of. repeat constructor; eexists; reflexivity. Qed.

Lemma line_renders (s : string) : exists r, render (Printed (Str s)) = Ok r.
Proof. eexists. reflexivity. Qed.



End ScreenFacts.

(** X15. Whatever is typed, everything that a run writes can be shown: each
    prompt and each printed text of the run renders as text without an
    exception (the numbers that [main] passes to [describe_scenario] and to
    [display_results] are floats, which both can format, [inf] and [nan]
    included), so the run has a screen. *)
Theorem every_run_renders (lines : list string) :
  Forall (fun o => exists s, render o = Ok s) (run lines)
  /\ exists text, screen (run lines) = Ok text.
Proof.
  assert (R : Forall (fun o => exists s, render o = Ok s) (run lines)).
  { destruct (ConsoleFacts.lines_cases 6 lines)
      as [[b [s [a [-> [L [F M]]]]]] | [[L F] | [f [r [-> [L F]]]]]].
    - pose proof (ConsoleFacts.main_try_stops b s a L F M) as E.
      unfold run. rewrite (main_handlers _ _ _ E). cbn [snd stdout].
      apply Forall_app. split; [apply ScreenFacts.asked_renders | ].
      constructor; [apply ScreenFacts.line_renders | constructor].
    - pose proof (ConsoleFacts.main_try_end_of_input lines L F) as E.
      unfold run. rewrite (main_handlers _ _ _ E). cbn [snd stdout].
      apply Forall_app. split; [apply ScreenFacts.asked_renders | ].
      constructor; [apply ScreenFacts.line_renders | constructor].
    - destruct f as [ | l1 [ | l2 [ | l3 [ | l4 [ | l5 [ | l6 [ | l7 f]]]]]]];
        try discriminate L.
      destruct (ConsoleFacts.accepted_six _ _ _ _ _ _ F)
        as [p [m [t [c [d [s [E1 [E2 [E3 [E4 [E5 E6]]]]]]]]]]].
      pose proof (ConsoleFacts.main_try_six l1 l2 l3 l4 l5 l6 r p m t c d s
                    E1 E2 E3 E4 E5 E6) as E.
      cbn [app]. unfold run.
      destruct (forallb positive_float [p; m; t; c]).
      + rewrite (ConsoleFacts.main_ok _ _ E). cbn [snd stdout].
        apply Forall_app. split; [apply (ScreenFacts.asked_renders 5) | ].
        apply ScreenFacts.report_renders.
      + rewrite (main_handlers _ _ _ E). cbn [snd stdout].
        apply Forall_app. split; [apply (ScreenFacts.asked_renders 5) | ].
        constructor; [apply ScreenFacts.line_renders | constructor]. }
  split; [exact R | now apply ScreenFacts.screen_renders].
Qed.

